(** * GCMS analyzer: CSV validation, derived metrics, compound lookup, pathway graph

    A shallow embedding of the JavaScript modules [FileHandler],
    [ChromatogramAnalyzer], [PubChemIntegration] and [NetworkVisualizer],
    and the properties of them that the specification states.

    Numbers.  A JavaScript Number is a binary64 floating-point value.  It
    is modelled by [number]: NaN, the two infinities, or a finite value
    given as a whole number of units of 2^-1074, the smallest positive
    double, of which every finite double is a multiple.  Sums, differences,
    products, quotients and the values of decimal literals are rounded to
    the nearest double, ties to the even one, and overflow to an infinity,
    as IEEE 754 has it.  The sign of zero is not modelled: -0 and 0 are one
    number, as they are for [===], for the comparisons and for the keys of
    a [Map].

    Strings.  A string stands for the JavaScript string of which it is the
    UTF-8 encoding. *)

From Stdlib Require Import ZArith Lia List.
From Stdlib Require Import Ascii String.
From stdpp Require Import gmap strings list numbers pretty sorting.

(** ** JavaScript numbers *)

Module JSNum.

Local Open Scope Z_scope.

Inductive number : Type :=
  | NaN
  | NegInf
  | PosInf
  | Fin (n : Z).

#[global] Instance number_eq_dec : EqDecision number.
Proof. solve_decision. Defined.

(** The infinity of the given sign ([true] is negative). *)
Definition inf (negative : bool) : number :=
  if negative then NegInf else PosInf.

(** The number 1, and 2^1024, the least magnitude that is no longer
    finite, in units of 2^-1074. *)
Definition one : Z := 2 ^ 1074.
Definition huge : Z := 2 ^ 2098.

(** The double nearest to [p / q] units, for [0 <= p] and [0 < q], ties to
    the even significand.  A significand has 53 bits: below 2^53 units
    every whole number of units is a double (the subnormal numbers and the
    first binade); above, with [k] the number of bits beyond 53, the
    doubles are the multiples of [2^k] units. *)
Definition round_magnitude (p q : Z) : Z :=
  let k := Z.max 0 (Z.log2 (p / q) - 52) in
  let d := q * 2 ^ k in
  let m := p / d in
  let r := p mod d in
  let m' := if 2 * r <? d then m
            else if d <? 2 * r then m + 1
            else if Z.even m then m else m + 1 in
  m' * 2 ^ k.

(** The Number value of the rational [p / q] units, for [0 < q]: rounded to
    the nearest double, and an infinity from 2^1024 on. *)
Definition round64 (p q : Z) : number :=
  let n := round_magnitude (Z.abs p) q in
  if huge <=? n then inf (p <? 0) else Fin (Z.sgn p * n).

(** [Number.MAX_VALUE], the largest double. *)
Definition MAX_VALUE : number := Fin ((2 ^ 53 - 1) * 2 ^ 2045).

Definition of_Z (z : Z) : number := round64 (z * one) 1.
Definition of_nat (n : nat) : number := of_Z (Z.of_nat n).

(** [z / 10^k], the value of a decimal literal. *)
Definition of_decimal (z : Z) (k : nat) : number :=
  round64 (z * one) (10 ^ Z.of_nat k).

Definition isNaN (a : number) : bool :=
  match a with NaN => true | _ => false end.

Definition isFinite (a : number) : bool :=
  match a with Fin _ => true | _ => false end.

Definition neg (a : number) : number :=
  match a with
  | NaN => NaN
  | NegInf => PosInf
  | PosInf => NegInf
  | Fin n => Fin (- n)
  end.

Definition add (a b : number) : number :=
  match a, b with
  | NaN, _ | _, NaN => NaN
  | PosInf, NegInf | NegInf, PosInf => NaN
  | PosInf, _ | _, PosInf => PosInf
  | NegInf, _ | _, NegInf => NegInf
  | Fin x, Fin y => round64 (x + y) 1
  end.

Definition sub (a b : number) : number := add a (neg b).

Definition mul (a b : number) : number :=
  match a, b with
  | NaN, _ | _, NaN => NaN
  | PosInf, PosInf | NegInf, NegInf => PosInf
  | PosInf, NegInf | NegInf, PosInf => NegInf
  | PosInf, Fin n | Fin n, PosInf =>
      if n =? 0 then NaN else inf (n <? 0)
  | NegInf, Fin n | Fin n, NegInf =>
      if n =? 0 then NaN else inf (negb (n <? 0))
  | Fin x, Fin y => round64 (x * y) one
  end.

Definition div (a b : number) : number :=
  match a, b with
  | NaN, _ | _, NaN => NaN
  | (PosInf | NegInf), (PosInf | NegInf) => NaN
  | PosInf, Fin n => inf (n <? 0)
  | NegInf, Fin n => inf (negb (n <? 0))
  | Fin _, (PosInf | NegInf) => Fin 0
  | Fin x, Fin y =>
      if y =? 0
      then (if x =? 0 then NaN else inf (x <? 0))
      else round64 (Z.sgn y * x * one) (Z.abs y)
  end.

(** [a < b]; every comparison with NaN is false. *)
Definition ltb (a b : number) : bool :=
  match a, b with
  | NaN, _ | _, NaN => false
  | _, NegInf => false
  | NegInf, _ => true
  | PosInf, _ => false
  | Fin _, PosInf => true
  | Fin x, Fin y => x <? y
  end.

(** [a > b]. *)
Definition gtb (a b : number) : bool := ltb b a.

(** [a <= b]: false with NaN, otherwise [b < a] is false. *)
Definition leb (a b : number) : bool :=
  negb (isNaN a) && negb (isNaN b) && negb (ltb b a).

(** [Math.max(...l)]: -Infinity for no argument, NaN if any argument is
    NaN, the greatest argument otherwise. *)
Definition max2 (hi x : number) : number :=
  if isNaN hi || isNaN x then NaN
  else if ltb hi x then x else hi.

Definition Math_max (l : list number) : number := fold_left max2 l NegInf.

(** A value read from an array at index [i]; reading out of range gives
    [undefined], which arithmetic and comparisons turn into NaN. *)
Definition at_index (l : list number) (i : nat) : number := nth i l NaN.

End JSNum.

Declare Scope num_scope.
Delimit Scope num_scope with num.
Bind Scope num_scope with JSNum.number.
Infix "+" := JSNum.add : num_scope.
Infix "-" := JSNum.sub : num_scope.
Infix "*" := JSNum.mul : num_scope.
Infix "/" := JSNum.div : num_scope.
Infix "<?" := JSNum.ltb : num_scope.
Infix ">?" := JSNum.gtb (at level 70) : num_scope.
Infix "<=?" := JSNum.leb : num_scope.

Import JSNum.

(** ** Records shared by the modules *)

(** A cell of a parsed CSV record.  The parser runs with dynamic typing, so
    a cell is a number, a string, a boolean or [null]; reading a column the
    record lacks gives [undefined]. *)
Inductive cell : Type :=
  | CNum (x : number)
  | CStr (s : string)
  | CBool (b : bool)
  | CNull
  | CUndefined.

(** A parsed record: an object whose keys are the header names, in
    insertion order. *)
Definition record : Type := list (string * cell).

(** A validated row, as [validateData] returns it. *)
Record MeasurementRow : Type := mkRow {
  name : string;
  retentionTime : number;
  intensity : number;
  additionalData : record
}.

(** Completion of a JavaScript computation: a value, or a thrown error. *)
Inductive completion (E A : Type) : Type :=
  | Normal (a : A)
  | Throw (e : E).
Arguments Normal {E A} a.
Arguments Throw {E A} e.

Definition bind {E A B} (c : completion E A) (k : A -> completion E B)
  : completion E B :=
  match c with
  | Normal a => k a
  | Throw e => Throw e
  end.

(** [try { c } catch (e) { handler e }]. *)
Definition try_catch {E A} (c : completion E A)
  (handler : E -> completion E A) : completion E A :=
  match c with
  | Normal a => Normal a
  | Throw e => handler e
  end.

#[global] Instance completion_bind {E} : MBind (completion E) :=
  fun A B k c => bind c k.

(** ** Strings *)

Module JSString.

Definition chars (s : string) : list ascii := list_ascii_of_string s.
Definition of_chars (l : list ascii) : string := string_of_list_ascii l.

(** [toLowerCase] on the ASCII letters; other characters are kept.  Beyond
    ASCII only the Kelvin sign has an ASCII letter for its lower case, the
    letter k, so a string is turned into a given ASCII text without a k by
    this function exactly when it is by [toLowerCase]. *)
Definition lower_char (c : ascii) : ascii :=
  let n := nat_of_ascii c in
  if (65 <=? n)%nat && (n <=? 90)%nat then ascii_of_nat (n + 32) else c.

Definition toLowerCase (s : string) : string :=
  of_chars (map lower_char (chars s)).

(** White space and line terminators are what [trim], [parseFloat] and
    the class [\s] of a regular expression take for white space.  In the
    ASCII range: TAB, LF, VT, FF, CR and the space. *)
Definition is_whitespace (c : ascii) : bool :=
  let n := nat_of_ascii c in
  ((9 <=? n)%nat && (n <=? 13)%nat) || (n =? 32)%nat.

(** Beyond ASCII, by the bytes of the UTF-8 encoding: U+00A0 in two
    bytes. *)
Definition is_whitespace2 (c1 c2 : ascii) : bool :=
  (nat_of_ascii c1 =? 194)%nat && (nat_of_ascii c2 =? 160)%nat.

(** U+1680, U+2000 to U+200A, U+2028, U+2029, U+202F, U+205F, U+3000 and
    U+FEFF in three bytes. *)
Definition is_whitespace3 (c1 c2 c3 : ascii) : bool :=
  let a := nat_of_ascii c1 in
  let b := nat_of_ascii c2 in
  let c := nat_of_ascii c3 in
  ((a =? 225) && (b =? 154) && (c =? 128))%nat
  || ((a =? 226) && (b =? 128)
      && (((128 <=? c) && (c <=? 138)) || (c =? 168) || (c =? 169)
          || (c =? 175)))%nat
  || ((a =? 226) && (b =? 129) && (c =? 159))%nat
  || ((a =? 227) && (b =? 128) && (c =? 128))%nat
  || ((a =? 239) && (b =? 187) && (c =? 191))%nat.

(** What is left of [l] after the white-space character at its head, if
    there is one. *)
Definition strip_whitespace (l : list ascii) : option (list ascii) :=
  match l with
  | c1 :: r1 =>
      if is_whitespace c1 then Some r1
      else
        match r1 with
        | c2 :: r2 =>
            if is_whitespace2 c1 c2 then Some r2
            else
              match r2 with
              | c3 :: r3 => if is_whitespace3 c1 c2 c3 then Some r3 else None
              | [] => None
              end
        | [] => None
        end
  | [] => None
  end.

(** [l] without the white space at its head. *)
Fixpoint skip_whitespace (l : list ascii) : list ascii :=
  match l with
  | c1 :: r1 =>
      if is_whitespace c1 then skip_whitespace r1
      else
        match r1 with
        | c2 :: r2 =>
            if is_whitespace2 c1 c2 then skip_whitespace r2
            else
              match r2 with
              | c3 :: r3 =>
                  if is_whitespace3 c1 c2 c3 then skip_whitespace r3 else l
              | [] => l
              end
        | [] => l
        end
  | [] => []
  end.

(** The same for a string that is read from its end: the last byte of a
    character comes first. *)
Fixpoint skip_whitespace_back (l : list ascii) : list ascii :=
  match l with
  | c3 :: r1 =>
      if is_whitespace c3 then skip_whitespace_back r1
      else
        match r1 with
        | c2 :: r2 =>
            if is_whitespace2 c2 c3 then skip_whitespace_back r2
            else
              match r2 with
              | c1 :: r3 =>
                  if is_whitespace3 c1 c2 c3 then skip_whitespace_back r3
                  else l
              | [] => l
              end
        | [] => l
        end
  | [] => []
  end.

(** [s.trim()]. *)
Definition trim (s : string) : string :=
  of_chars (rev (skip_whitespace_back (rev (skip_whitespace (chars s))))).

(** [parts.join(', ')]. *)
Fixpoint join (sep : string) (parts : list string) : string :=
  match parts with
  | [] => ""
  | [p] => p
  | p :: rest => p +:+ sep +:+ join sep rest
  end.

Definition is_digit (c : ascii) : bool :=
  let n := nat_of_ascii c in (48 <=? n)%nat && (n <=? 57)%nat.

Definition digit_value (c : ascii) : Z := Z.of_nat (nat_of_ascii c - 48).

Fixpoint take_digits (l : list ascii) : list ascii * list ascii :=
  match l with
  | c :: r =>
      if is_digit c
      then let '(ds, rest) := take_digits r in (c :: ds, rest)
      else ([], l)
  | [] => ([], [])
  end.

Definition digits_to_Z (ds : list ascii) : Z :=
  fold_left (fun acc d => (acc * 10 + digit_value d)%Z) ds 0%Z.

Definition take_sign (l : list ascii) : bool * list ascii :=
  match l with
  | "-"%char :: r => (true, r)
  | "+"%char :: r => (false, r)
  | _ => (false, l)
  end.

Fixpoint strip_prefix (p l : list ascii) : option (list ascii) :=
  match p, l with
  | [], _ => Some l
  | a :: p', b :: l' => if bool_decide (a = b) then strip_prefix p' l' else None
  | _ :: _, [] => None
  end.

(** The exponent part [e±ddd]; it counts only when it has a digit. *)
Definition take_exponent (l : list ascii) : Z * list ascii :=
  match l with
  | c :: r =>
      if bool_decide (c = "e"%char) || bool_decide (c = "E"%char)
      then
        let '(negative, r1) := take_sign r in
        let '(ds, r2) := take_digits r1 in
        match ds with
        | [] => (0%Z, l)
        | _ => ((if negative then - digits_to_Z ds else digits_to_Z ds)%Z, r2)
        end
      else (0%Z, l)
  | [] => (0%Z, l)
  end.

(** The Number value of [m * 10^e]. *)
Definition scale10 (m e : Z) : number :=
  if (0 <=? e)%Z then round64 (m * 10 ^ e * one) 1
  else round64 (m * one) (10 ^ (- e)).

(** The longest prefix of [l] that is a decimal literal
    ([Infinity], [ddd], [ddd.ddd], [.ddd], each with an optional sign and
    exponent), with its value and the characters left over. *)
Definition parse_decimal_prefix (l : list ascii)
  : option (number * list ascii) :=
  let '(negative, l1) := take_sign l in
  match strip_prefix (chars "Infinity") l1 with
  | Some rest => Some (inf negative, rest)
  | None =>
      let '(ip, l2) := take_digits l1 in
      let '(fp, l3) :=
        match l2 with
        | "."%char :: r =>
            let '(ds, r') := take_digits r in
            match ip, ds with
            | [], [] => ([], l2)
            | _, _ => (ds, r')
            end
        | _ => ([], l2)
        end in
      match ip ++ fp with
      | [] => None
      | ds =>
          let '(e, l4) := take_exponent l3 in
          let m := digits_to_Z ds in
          Some (scale10 (if negative then - m else m)
                        (e - Z.of_nat (length fp)), l4)
      end
  end.

(** [parseFloat(s)] for a string [s]. *)
Definition parseFloat_string (s : string) : number :=
  match parse_decimal_prefix (skip_whitespace (chars s)) with
  | Some (x, _) => x
  | None => NaN
  end.

(** The whole of [s], white space at both ends apart, is one decimal
    literal. *)
Definition is_decimal_literal (s : string) : bool :=
  match parse_decimal_prefix (skip_whitespace (chars s)) with
  | Some (_, rest) =>
      match skip_whitespace rest with [] => true | _ => false end
  | None => false
  end.

End JSString.

(** ** FileHandler: validation of the parsed CSV *)

Module FileHandler.

Import JSString.

(** [parseFloat(v)]: the argument is converted to a string first.  A number
    prints and parses back to itself; [true], [false], [null] and
    [undefined] print as words that start no decimal literal. *)
Definition parseFloat (v : cell) : number :=
  match v with
  | CNum x => x
  | CStr s => parseFloat_string s
  | CBool _ | CNull | CUndefined => NaN
  end.

(** [row[key]]. *)
Fixpoint get (row : record) (key : string) : cell :=
  match row with
  | [] => CUndefined
  | (k, v) :: rest => if bool_decide (k = key) then v else get rest key
  end.

(** [row[key]] when [key] itself may be [undefined]: the property named
    ["undefined"] is read. *)
Definition get_opt (row : record) (key : option string) : cell :=
  match key with
  | Some k => get row k
  | None => get row "undefined"
  end.

(** [Object.keys(row)]. *)
Definition keys (row : record) : list string := map fst row.

Inductive row_reason : Type :=
  | InvalidRetentionTime
  | InvalidIntensity
  | InvalidMetaboliteName.

Inductive error : Type :=
  | EmptyFile
  | MissingColumns (columns : list string)
  | RowError (row_number : nat) (reason : row_reason).

(** The text of the thrown [Error]. *)
Definition message (e : error) : string :=
  match e with
  | EmptyFile => "The file appears to be empty."
  | MissingColumns cols =>
      "Missing required columns: " +:+ join ", " cols
  | RowError n reason =>
      "Row " +:+ pretty n +:+ ": " +:+
      match reason with
      | InvalidRetentionTime => "Invalid retention time at row "
      | InvalidIntensity => "Invalid intensity value at row "
      | InvalidMetaboliteName => "Invalid or missing metabolite name at row "
      end +:+ pretty n
  end.

Definition requiredColumns : list string :=
  ["Metabolite"; "RetentionTime"; "Intensity"].

(** [headers.find(h => h.toLowerCase() === lower)]. *)
Definition find_header (headers : list string) (lower : string)
  : option string :=
  List.find (fun h => bool_decide (toLowerCase h = lower)) headers.

Record ColumnMapping : Type := mkMapping {
  Metabolite : option string;
  RetentionTime : option string;
  Intensity : option string
}.

Definition mapping_values (m : ColumnMapping) : list (option string) :=
  [Metabolite m; RetentionTime m; Intensity m].

(** [requiredColumns.filter(col =>
      !normalizedHeaders.includes(col.toLowerCase()))]. *)
Definition missingColumns (headers : list string) : list string :=
  let normalizedHeaders := map toLowerCase headers in
  List.filter
    (fun col => negb (bool_decide (toLowerCase col ∈ normalizedHeaders)))
    requiredColumns.

(** The body of the callback of [data.map]: one row, with its index. *)
Definition validate_row (columnMapping : ColumnMapping)
  (row : record) (index : nat) : completion error MeasurementRow :=
  let retentionTime := parseFloat (get_opt row (RetentionTime columnMapping)) in
  if isNaN retentionTime then Throw (RowError (index + 1) InvalidRetentionTime)
  else
    let intensity := parseFloat (get_opt row (Intensity columnMapping)) in
    if isNaN intensity then Throw (RowError (index + 1) InvalidIntensity)
    else
      match get_opt row (Metabolite columnMapping) with
      | CStr metaboliteName =>
          if bool_decide (metaboliteName = "")
          then Throw (RowError (index + 1) InvalidMetaboliteName)
          else
            Normal {|
              name := trim metaboliteName;
              retentionTime := retentionTime;
              intensity := intensity;
              additionalData :=
                List.filter
                  (fun kv => negb (bool_decide
                                     (Some (fst kv) ∈ mapping_values columnMapping)))
                  row
            |}
      | _ => Throw (RowError (index + 1) InvalidMetaboliteName)
      end.

(** [data.map((row, index) => ...)]: rows in order; the first throw ends
    the traversal. *)
Fixpoint validate_rows (columnMapping : ColumnMapping)
  (data : list record) (index : nat)
  : completion error (list MeasurementRow) :=
  match data with
  | [] => Normal []
  | row :: rest =>
      r ← validate_row columnMapping row index;
      rs ← validate_rows columnMapping rest (S index);
      Normal (r :: rs)
  end.

(** [FileHandler.validateData(data)]. *)
Definition validateData (data : list record)
  : completion error (list MeasurementRow) :=
  match data with
  | [] => Throw EmptyFile
  | first :: _ =>
      let headers := keys first in
      match missingColumns headers with
      | (_ :: _) as missing => Throw (MissingColumns missing)
      | [] =>
          let columnMapping := {|
            Metabolite := find_header headers "metabolite";
            RetentionTime := find_header headers "retentiontime";
            Intensity := find_header headers "intensity"
          |} in
          validate_rows columnMapping data 0
      end
  end.

End FileHandler.

(** ** ChromatogramAnalyzer: peak detection and area *)

Module ChromatogramAnalyzer.

(** The default value of the parameter [threshold] of [findPeaks]. *)
Definition default_threshold : number := of_decimal 1 1.

(** [findPeaks(intensities, threshold)]: the loop runs [i] from 1 while
    [i < intensities.length - 1] and pushes the index of every point above
    [minPeakHeight] that is greater than both neighbours. *)
Definition findPeaks (intensities : list number) (threshold : number)
  : list nat :=
  let maxIntensity := Math_max intensities in
  let minPeakHeight := (maxIntensity * threshold)%num in
  fold_left
    (fun peaks i =>
       if (at_index intensities i >? minPeakHeight)%num
          && (at_index intensities i >? at_index intensities (i - 1))%num
          && (at_index intensities i >? at_index intensities (i + 1))%num
       then peaks ++ [i]
       else peaks)
    (seq 1 (length intensities - 2)) [].

(** [calculateArea(times, intensities)]: the loop runs [i] from 1 while
    [i < times.length] and adds [dt * avgIntensity] to [area]. *)
Definition calculateArea (times intensities : list number) : number :=
  fold_left
    (fun area i =>
       let dt := (at_index times i - at_index times (i - 1))%num in
       let avgIntensity :=
         ((at_index intensities i + at_index intensities (i - 1))
          / of_Z 2)%num in
       (area + dt * avgIntensity)%num)
    (seq 1 (length times - 1)) (of_Z 0).

(** [Array.prototype.sort(compareFn)].  The sort is stable; a result of
    [compareFn(a, b)] below zero puts [a] first, above zero puts [b] first,
    and zero or NaN leaves the two in their order.  The algorithm is left to
    the engine; for a comparator that orders its arguments consistently
    every stable algorithm gives the result of this insertion sort. *)
Section Sort.
Context {A : Type} (compareFn : A -> A -> number).

Fixpoint sort_insert (x : A) (sorted : list A) : list A :=
  match sorted with
  | [] => [x]
  | y :: rest =>
      if (compareFn x y >? of_Z 0)%num
      then y :: sort_insert x rest
      else x :: y :: rest
  end.

Definition Array_sort (l : list A) : list A := foldr sort_insert [] l.
End Sort.

Record ChromatogramData : Type := mkChromatogram {
  times : list number;
  intensities : list number;
  labels : list string
}.

(** [extractChromatogramData(data)]. *)
Definition extractChromatogramData (data : list MeasurementRow)
  : ChromatogramData :=
  let sortedData :=
    Array_sort (fun a b => (retentionTime a - retentionTime b)%num) data in
  {| times := map retentionTime sortedData;
     intensities := map intensity sortedData;
     labels := map name sortedData |}.

(** A [Map] with string keys: the entries in insertion order. *)
Definition Map (V : Type) : Type := list (string * V).

Definition Map_has {V} (m : Map V) (k : string) : bool :=
  bool_decide (k ∈ map fst m).

(** [m.set(k, v)]: a present key keeps its place. *)
Fixpoint Map_set {V} (m : Map V) (k : string) (v : V) : Map V :=
  match m with
  | [] => [(k, v)]
  | (k', v') :: rest =>
      if bool_decide (k' = k) then (k, v) :: rest
      else (k', v') :: Map_set rest k v
  end.

(** [m.get(k).push(x)]: the array stored under [k] grows in place. *)
Fixpoint Map_push {V} (m : Map (list V)) (k : string) (x : V)
  : Map (list V) :=
  match m with
  | [] => []
  | (k', v') :: rest =>
      if bool_decide (k' = k) then (k', v' ++ [x]) :: rest
      else (k', v') :: Map_push rest k x
  end.

Record MassSpectraData : Type := mkMassSpectra {
  metabolites : list string;
  mean_intensities : list number
}.

(** The map that the [forEach] of [extractMassSpectraData] builds. *)
Definition intensityMap (data : list MeasurementRow) : Map (list number) :=
  fold_left
    (fun m row =>
       let m' := if Map_has m (name row) then m
                 else Map_set m (name row) [] in
       Map_push m' (name row) (intensity row))
    data [].

(** [intensities.reduce((sum, val) => sum + val, 0) / intensities.length]. *)
Definition average (values : list number) : number :=
  (fold_left (fun sum val => sum + val) values (of_Z 0)
   / of_nat (length values))%num.

(** [extractMassSpectraData(data)]. *)
Definition extractMassSpectraData (data : list MeasurementRow)
  : MassSpectraData :=
  let m := intensityMap data in
  {| metabolites := map fst m;
     mean_intensities := map average (map snd m) |}.

(** [extractMetabolites(data)]: the first row of every name. *)
Definition extractMetabolites (data : list MeasurementRow)
  : list MeasurementRow :=
  map snd
    (fold_left
       (fun m row =>
          if Map_has m (name row) then m else Map_set m (name row) row)
       data []).

Record ProcessedData : Type := mkProcessed {
  chromatogramData : ChromatogramData;
  massSpectraData : MassSpectraData;
  extracted_metabolites : list MeasurementRow
}.

Inductive js_error : Type :=
  | TypeError (what : string).

(** The argument [data] as the caller passes it: an array, or [null] or
    [undefined] ([None]).  Spreading or iterating a non-array throws a
    [TypeError]. *)
Definition iterate {A} (data : option (list A))
  : completion js_error (list A) :=
  match data with
  | Some l => Normal l
  | None => Throw (TypeError "data is not iterable")
  end.

(** [processData(data)]: the three extractions inside [try]; the [catch]
    logs the error and throws it again. *)
Definition processData (data : option (list MeasurementRow))
  : completion js_error ProcessedData :=
  try_catch
    (chromatogram ← (rows ← iterate data; Normal (extractChromatogramData rows));
     massSpectra ← (rows ← iterate data; Normal (extractMassSpectraData rows));
     found ← (rows ← iterate data; Normal (extractMetabolites rows));
     Normal {| chromatogramData := chromatogram;
               massSpectraData := massSpectra;
               extracted_metabolites := found |})
    (fun error => Throw error).

End ChromatogramAnalyzer.

(** ** PubChemIntegration: the rate-limited request queue *)

Module PubChemIntegration.

(** An outbound request; its URL is [BASE_URL] followed by a path made of
    the kind of query and its argument. *)
Inductive request : Type :=
  | SearchByName (compoundName : string)
  | FetchProperties (cid : string)
  | FetchSMILES (cid : string).

#[global] Instance request_eq_dec : EqDecision request.
Proof. solve_decision. Defined.

(** The value of [#requestDelay], in milliseconds. *)
Definition requestDelay : nat := 300.

(** Where the single run of [#processQueue] is suspended. *)
Inductive suspension : Type :=
  | NotRunning
  | AwaitFetch (r : request)
  | AwaitDelay (deadline : nat).

(** The static fields of the rate limiter, the clock, and a record of what
    happened: every request pushed, every [fetch] started with its time,
    and the number of fetches that have settled. *)
Record Queue : Type := mkQueue {
  requestQueue : list request;
  isProcessingQueue : bool;
  suspended : suspension;
  clock : nat;
  pushed : list request;
  dispatched : list (nat * request);
  settled : nat
}.

Definition empty_queue : Queue :=
  {| requestQueue := []; isProcessingQueue := false; suspended := NotRunning;
     clock := 0; pushed := []; dispatched := []; settled := 0 |}.

(** The test of the [while] loop and the code that follows it up to the
    next [await]: either the loop ends and the flag is cleared, or the
    head of the queue is shifted and its [fetch] is started. *)
Definition loop_head (q : Queue) : Queue :=
  match requestQueue q with
  | [] =>
      {| requestQueue := []; isProcessingQueue := false;
         suspended := NotRunning; clock := clock q; pushed := pushed q;
         dispatched := dispatched q; settled := settled q |}
  | r :: rest =>
      {| requestQueue := rest; isProcessingQueue := isProcessingQueue q;
         suspended := AwaitFetch r; clock := clock q; pushed := pushed q;
         dispatched := dispatched q ++ [(clock q, r)];
         settled := settled q |}
  end.

(** [#processQueue()], up to its first [await]. *)
Definition processQueue (q : Queue) : Queue :=
  if isProcessingQueue q then q
  else
    loop_head
      {| requestQueue := requestQueue q; isProcessingQueue := true;
         suspended := suspended q; clock := clock q; pushed := pushed q;
         dispatched := dispatched q; settled := settled q |}.

(** [#queueRequest(url)]: push, then call [#processQueue]. *)
Definition queueRequest (r : request) (q : Queue) : Queue :=
  processQueue
    {| requestQueue := requestQueue q ++ [r];
       isProcessingQueue := isProcessingQueue q;
       suspended := suspended q; clock := clock q;
       pushed := pushed q ++ [r];
       dispatched := dispatched q; settled := settled q |}.

(** What the event loop can do next: a caller queues a request; the
    pending [fetch] settles (resolved or rejected), after which the delay
    timer is set; the delay timer fires, not before its deadline, and the
    loop goes round; time passes. *)
Inductive event : Type :=
  | Enqueue (r : request)
  | FetchSettled
  | TimerFired
  | Elapse (ms : nat).

Definition step (q : Queue) (e : event) : option Queue :=
  match e with
  | Enqueue r => Some (queueRequest r q)
  | FetchSettled =>
      match suspended q with
      | AwaitFetch _ =>
          Some {| requestQueue := requestQueue q;
                  isProcessingQueue := isProcessingQueue q;
                  suspended := AwaitDelay (clock q + requestDelay);
                  clock := clock q; pushed := pushed q;
                  dispatched := dispatched q; settled := S (settled q) |}
      | _ => None
      end
  | TimerFired =>
      match suspended q with
      | AwaitDelay deadline =>
          if (deadline <=? clock q)%nat then Some (loop_head q) else None
      | _ => None
      end
  | Elapse ms =>
      Some {| requestQueue := requestQueue q;
              isProcessingQueue := isProcessingQueue q;
              suspended := suspended q; clock := clock q + ms;
              pushed := pushed q; dispatched := dispatched q;
              settled := settled q |}
  end.

Fixpoint run (q : Queue) (events : list event) : option Queue :=
  match events with
  | [] => Some q
  | e :: rest =>
      match step q e with
      | Some q' => run q' rest
      | None => None
      end
  end.

(** The number of fetches started and not yet settled. *)
Definition in_flight (q : Queue) : nat := length (dispatched q) - settled q.

(** Successive times are at least [gap] apart. *)
Fixpoint spaced (gap : nat) (ts : list nat) : Prop :=
  match ts with
  | t1 :: ((t2 :: _) as rest) => t1 + gap <= t2 /\ spaced gap rest
  | _ => True
  end.

(** ** PubChemIntegration: the compound cache *)

(** A compound-information object.  [properties] and [smiles] are absent
    until the background fetch has merged them in. *)
Record CompoundInfo : Type := mkInfo {
  id : string;
  compound : string;
  url : option string;
  error_message : option string;
  properties : option (list (string * string));
  smiles : option (option string)
}.

(** What a [fetch] of a URL comes to, for a body of type [B]: the request
    fails, the status is not ok, the body is not JSON, or it is. *)
Inductive fetched (B : Type) : Type :=
  | NetworkFailure (reason : string)
  | StatusNotOk (status : nat)
  | InvalidJson
  | Json (body : B).
Arguments NetworkFailure {B} reason.
Arguments StatusNotOk {B} status.
Arguments InvalidJson {B}.
Arguments Json {B} body.

(** The part of the body of a search that [searchCompound] reads. *)
Inductive cids_body : Type :=
  | NoIdentifierList
  | IdentifierListWithoutCID
  | CIDs (cids : list Z).

Inductive js_error : Type :=
  | Error (text : string)
  | SyntaxError
  | TypeError.

Definition error_text (e : js_error) : string :=
  match e with
  | Error text => text
  | SyntaxError => "Unexpected token in JSON"
  | TypeError => "Cannot read properties of undefined"
  end.

(** The promise of [#queueRequest] followed by [response.json()]. *)
Definition response_json {B} (r : fetched B) : completion js_error B :=
  match r with
  | NetworkFailure reason => Throw (Error reason)
  | StatusNotOk status =>
      Throw (Error ("HTTP error! status: " +:+ pretty status))
  | InvalidJson => Throw SyntaxError
  | Json body => Normal body
  end.

(** [searchCompound(name)], given what its request comes to:
    [data.IdentifierList?.CID[0]?.toString() || null] inside [try], and
    [null] from the [catch]. *)
Definition searchCompound (response : fetched cids_body)
  : completion js_error (option string) :=
  try_catch
    (data ← response_json response;
     match data with
     | NoIdentifierList => Normal None
     | IdentifierListWithoutCID => Throw TypeError
     | CIDs [] => Normal None
     | CIDs (cid :: _) => Normal (Some (pretty cid))
     end)
    (fun error => Normal None).

(** Objects live in a heap and are named by their address; the cache maps
    a compound name to the address of its object.  [searching] holds the
    calls of [fetchCompoundInfo] that are suspended at [await
    searchCompound], by the name they look up; [background] holds the
    pending runs of [fetchAdditionalData]. *)
Record State : Type := mkState {
  cache : gmap string nat;
  heap : list CompoundInfo;
  requested : list request;
  searching : list string;
  background : list (string * string);
  notified : list string
}.

Definition initial : State :=
  {| cache := ∅; heap := []; requested := []; searching := [];
     background := []; notified := [] |}.

(** [fetchCompoundInfo(compoundName)] up to its [await]: for a cached name
    the cached object is returned at once; otherwise [searchCompound]
    queues its request and the call is suspended. *)
Definition fetchCompoundInfo_enter (compoundName : string) (st : State)
  : option nat * State :=
  match cache st !! compoundName with
  | Some cached => (Some cached, st)
  | None =>
      (None,
       {| cache := cache st;
          heap := heap st;
          requested := requested st ++ [SearchByName compoundName];
          searching := searching st ++ [compoundName];
          background := background st;
          notified := notified st |})
  end.

(** [fetchCompoundInfo] after its [await], for the suspended call number
    [call], given what its request came to: the address returned (or the
    error thrown) and the state left.  The cache is written without being
    read again. *)
Definition fetchCompoundInfo_resume (call : nat)
  (response : fetched cids_body) (st : State)
  : option (completion js_error nat) * State :=
  match searching st !! call with
  | None => (None, st)
  | Some compoundName =>
      let rest := take call (searching st) ++ drop (S call) (searching st) in
      match searchCompound response with
      | Normal None =>
          let result :=
            {| id := "Not found"; compound := compoundName; url := None;
               error_message := None; properties := None; smiles := None |} in
          (Some (Normal (length (heap st))),
           {| cache := <[compoundName := length (heap st)]> (cache st);
              heap := heap st ++ [result];
              requested := requested st;
              searching := rest;
              background := background st;
              notified := notified st |})
      | Normal (Some cid) =>
          let result :=
            {| id := cid; compound := compoundName;
               url := Some ("https://pubchem.ncbi.nlm.nih.gov/compound/" +:+ cid);
               error_message := None; properties := None; smiles := None |} in
          (Some (Normal (length (heap st))),
           {| cache := <[compoundName := length (heap st)]> (cache st);
              heap := heap st ++ [result];
              requested := requested st ++ [FetchProperties cid; FetchSMILES cid];
              searching := rest;
              background := background st ++ [(cid, compoundName)];
              notified := notified st |})
      | Throw error =>
          let result :=
            {| id := "Error"; compound := compoundName; url := None;
               error_message := Some (error_text error);
               properties := None; smiles := None |} in
          (Some (Normal (length (heap st))),
           {| cache := cache st;
              heap := heap st ++ [result];
              requested := requested st;
              searching := rest;
              background := background st;
              notified := notified st |})
      end
  end.

(** The end of [fetchAdditionalData(cid, compoundName)] for the pending
    background task number [task]: the two results are merged into a copy
    of the object that is cached then, the copy is cached and the update is
    announced. *)
Definition fetchAdditionalData (task : nat)
  (props : list (string * string)) (structure : option string) (st : State)
  : State :=
  match background st !! task with
  | None => st
  | Some (cid, compoundName) =>
      let rest := take task (background st) ++ drop (S task) (background st) in
      match cachedData ← cache st !! compoundName; heap st !! cachedData with
      | Some cachedData =>
          let updatedData :=
            {| id := id cachedData; compound := compound cachedData;
               url := url cachedData;
               error_message := error_message cachedData;
               properties := Some props; smiles := Some structure |} in
          {| cache := <[compoundName := length (heap st)]> (cache st);
             heap := heap st ++ [updatedData];
             requested := requested st;
             searching := searching st;
             background := rest;
             notified := notified st ++ [compoundName] |}
      | None =>
          {| cache := cache st; heap := heap st; requested := requested st;
             searching := searching st;
             background := rest; notified := notified st |}
      end
  end.

(** [clearCache()]. *)
Definition clearCache (st : State) : State :=
  {| cache := ∅; heap := heap st; requested := requested st;
     searching := searching st;
     background := background st; notified := notified st |}.

(** What the event loop can do next to the cache: a caller calls
    [fetchCompoundInfo], which runs to its [await] or returns; the search
    of a suspended call settles and the call runs to its end; a background
    fetch settles; a caller clears the cache. *)
Inductive action : Type :=
  | Call (compoundName : string)
  | SearchSettled (call : nat) (response : fetched cids_body)
  | Enrich (task : nat) (props : list (string * string))
      (structure : option string)
  | ClearCache.

#[global] Instance fetched_eq_dec {B} `{EqDecision B} : EqDecision (fetched B).
Proof. solve_decision. Defined.

#[global] Instance cids_body_eq_dec : EqDecision cids_body.
Proof. solve_decision. Defined.

#[global] Instance action_eq_dec : EqDecision action.
Proof. solve_decision. Defined.

Definition perform (st : State) (a : action) : State :=
  match a with
  | Call compoundName => snd (fetchCompoundInfo_enter compoundName st)
  | SearchSettled call response =>
      snd (fetchCompoundInfo_resume call response st)
  | Enrich task props structure =>
      fetchAdditionalData task props structure st
  | ClearCache => clearCache st
  end.

End PubChemIntegration.

(** ** MetaboliteMapper: the pathway table *)

Module MetaboliteMapper.

Record PathwayInfo : Type := mkPathwayInfo {
  pi_metabolite : string;
  pi_pathway : string;
  pi_reactions : list string
}.

(** The table [pathways] of [#simulatePathwayLookup]. *)
Definition pathways : list (string * PathwayInfo) :=
  [
    ("Glucose", {| pi_metabolite := "Glucose"; pi_pathway := "Glycolysis";
        pi_reactions := ["Glucose → Glucose-6P"; "Glucose-6P → Fructose-6P"] |});
    ("Fructose", {| pi_metabolite := "Fructose"; pi_pathway := "Glycolysis";
        pi_reactions := ["Fructose → Fructose-6P"; "Fructose-6P → Fructose-1,6BP"] |});
    ("Pyruvate", {| pi_metabolite := "Pyruvate"; pi_pathway := "TCA Cycle";
        pi_reactions := ["Pyruvate → Acetyl-CoA"; "Acetyl-CoA + Oxaloacetate → Citrate"] |});
    ("Citrate", {| pi_metabolite := "Citrate"; pi_pathway := "TCA Cycle";
        pi_reactions := ["Citrate → Isocitrate"; "Isocitrate → α-Ketoglutarate"] |});
    ("Malate", {| pi_metabolite := "Malate"; pi_pathway := "TCA Cycle";
        pi_reactions := ["Malate → Oxaloacetate"; "Oxaloacetate + Acetyl-CoA → Citrate"] |});
    ("Lactate", {| pi_metabolite := "Lactate"; pi_pathway := "Fermentation";
        pi_reactions := ["Pyruvate → Lactate"] |});
    ("Succinate", {| pi_metabolite := "Succinate"; pi_pathway := "TCA Cycle";
        pi_reactions := ["Succinate → Fumarate"; "Fumarate → Malate"] |});
    ("Fumarate", {| pi_metabolite := "Fumarate"; pi_pathway := "TCA Cycle";
        pi_reactions := ["Fumarate → Malate"; "Malate → Oxaloacetate"] |});
    ("Alpha-Ketoglutarate", {| pi_metabolite := "Alpha-Ketoglutarate"; pi_pathway := "TCA Cycle";
        pi_reactions := ["α-Ketoglutarate → Succinyl-CoA"; "Succinyl-CoA → Succinate"] |});
    ("Oxaloacetate", {| pi_metabolite := "Oxaloacetate"; pi_pathway := "TCA Cycle";
        pi_reactions := ["Oxaloacetate + Acetyl-CoA → Citrate"] |});
    ("Alanine", {| pi_metabolite := "Alanine"; pi_pathway := "Amino Acid Metabolism";
        pi_reactions := ["Pyruvate + Glutamate ↔ Alanine + α-Ketoglutarate"] |});
    ("Glutamate", {| pi_metabolite := "Glutamate"; pi_pathway := "Amino Acid Metabolism";
        pi_reactions := ["α-Ketoglutarate + NH4+ ↔ Glutamate"] |});
    ("Aspartate", {| pi_metabolite := "Aspartate"; pi_pathway := "Amino Acid Metabolism";
        pi_reactions := ["Oxaloacetate + Glutamate ↔ Aspartate + α-Ketoglutarate"] |});
    ("Glycine", {| pi_metabolite := "Glycine"; pi_pathway := "Amino Acid Metabolism";
        pi_reactions := ["Serine → Glycine + CH2=THF"] |});
    ("Serine", {| pi_metabolite := "Serine"; pi_pathway := "Amino Acid Metabolism";
        pi_reactions := ["3-Phosphoglycerate → 3-Phosphoserine → Serine"] |})
  ].

(** The names of the properties that every object inherits from
    [Object.prototype]. *)
Definition inherited_properties : list string :=
  ["constructor"; "hasOwnProperty"; "isPrototypeOf"; "propertyIsEnumerable";
   "toLocaleString"; "toString"; "valueOf"; "__proto__";
   "__defineGetter__"; "__defineSetter__"; "__lookupGetter__";
   "__lookupSetter__"].

(** What [pathways[metaboliteName]] is when it is not [undefined]: an entry
    of the table, or, for the name of an inherited property, the function
    or object that the table inherits under that name.  Such a value is
    truthy and has no [metabolite], [pathway] or [reactions]. *)
Inductive pathway_value : Type :=
  | Entry (info : PathwayInfo)
  | InheritedValue (property : string).

(** [getPathwayInformation(metaboliteName)]: [pathways[metaboliteName] ||
    null], after the simulated delay. *)
Definition getPathwayInformation (metaboliteName : string)
  : option pathway_value :=
  match List.find (fun kv => bool_decide (fst kv = metaboliteName)) pathways with
  | Some (_, info) => Some (Entry info)
  | None =>
      if bool_decide (metaboliteName ∈ inherited_properties)
      then Some (InheritedValue metaboliteName)
      else None
  end.

End MetaboliteMapper.

(** ** NetworkVisualizer: the pathway graph *)

Module NetworkVisualizer.

Import MetaboliteMapper.

Inductive node_type : Type := metabolite | gene | pathway | reaction.

#[global] Instance node_type_eq_dec : EqDecision node_type.
Proof. solve_decision. Defined.

(** An element of the graph: the [data] of a node or of an edge. *)
Inductive element : Type :=
  | Node (id label : string) (type : node_type)
  | Edge (id source target label : string).

Definition element_id (e : element) : string :=
  match e with
  | Node id _ _ => id
  | Edge id _ _ _ => id
  end.

(** The elements of the Cytoscape instance, in the order they were added. *)
Definition Graph : Type := list element.

(** [cy.$id(id).length]: is there an element of this id. *)
Definition has_id (g : Graph) (id : string) : bool :=
  bool_decide (id ∈ map element_id g).

(** Modelled from the spec: [cy.add] belongs to the Cytoscape library, which
    is not part of the sources.  The specification describes it: node and
    edge addition is idempotent by id, re-adding an existing id is a no-op. *)
Definition cy_add (g : Graph) (e : element) : Graph :=
  if has_id g (element_id e) then g else g ++ [e].

(** [cy.add([e1, e2, ...])]. *)
Definition cy_add_all (g : Graph) (es : list element) : Graph :=
  fold_left cy_add es g.

(** The static fields [initialized] and [cy]. *)
Record Visualizer : Type := mkVisualizer {
  initialized : bool;
  cy : option Graph
}.

(** The state after a successful [initialize]: no element yet. *)
Definition started : Visualizer := {| initialized := true; cy := Some [] |}.

(** [if (value)] for a string: the empty string is false. *)
Definition truthy (s : string) : bool := negb (bool_decide (s = "")).

(** The body of [reactions.forEach((reaction, index) => ...)]. *)
Definition add_reaction (metabolite_name : string) (g : Graph)
  (indexed : nat * string) : Graph :=
  let '(index, reaction_label) := indexed in
  let reactionId := "r_" +:+ metabolite_name +:+ "_" +:+ pretty index in
  let g1 := cy_add g (Node reactionId reaction_label reaction) in
  cy_add g1
    (Edge ("e_" +:+ metabolite_name +:+ "_reaction_" +:+ pretty index)
          ("m_" +:+ metabolite_name) reactionId "participates in").

(** [addPathwayConnections(pathwayInfo)] on the graph.  For an inherited
    function or object the three destructured fields are [undefined], so
    neither [if (pathway)] nor [if (reactions)] is entered. *)
Definition addPathwayConnections (pathwayInfo : pathway_value) (g : Graph)
  : Graph :=
  match pathwayInfo with
  | Entry info =>
      let m := pi_metabolite info in
      let p := pi_pathway info in
      let g1 :=
        if truthy p then
          let g0 :=
            if has_id g ("p_" +:+ p) then g
            else cy_add g (Node ("p_" +:+ p) p pathway) in
          cy_add g0
            (Edge ("e_" +:+ m +:+ "_" +:+ p) ("m_" +:+ m) ("p_" +:+ p)
                  "part of")
        else g in
      fold_left (add_reaction m)
        (imap (fun i r => (i, r)) (pi_reactions info)) g1
  | InheritedValue _ => g
  end.

(** [addMetaboliteToPathway(metaboliteName, geneLocusId)]. *)
Definition addMetaboliteToPathway (metaboliteName geneLocusId : string)
  (st : Visualizer) : Visualizer :=
  match initialized st, cy st with
  | true, Some g =>
      let metaboliteNode :=
        Node ("m_" +:+ metaboliteName) metaboliteName metabolite in
      let geneNode := Node ("g_" +:+ geneLocusId) geneLocusId gene in
      let edge :=
        Edge ("e_" +:+ metaboliteName +:+ "_" +:+ geneLocusId)
             ("m_" +:+ metaboliteName) ("g_" +:+ geneLocusId)
             "associated with" in
      let g1 := cy_add_all g [metaboliteNode; geneNode; edge] in
      let g2 :=
        match getPathwayInformation metaboliteName with
        | Some pathwayInfo => addPathwayConnections pathwayInfo g1
        | None => g1
        end in
      {| initialized := true; cy := Some g2 |}
  | _, _ => st
  end.



End NetworkVisualizer.

(** ** FileHandler: file type, parsing and the two chart extractions *)

Module FileHandlerUpload.

Import JSString FileHandler.

(** The two fields of a [File] that [validateFileType] reads. *)
Record File : Type := mkFile {
  file_type : string;
  file_name : string
}.

(** [s.endsWith(suffix)]. *)
Definition endsWith (s suffix : string) : bool :=
  let l := chars s in
  let e := chars suffix in
  (length e <=? length l)%nat
  && bool_decide (drop (length l - length e) l = e).

(** [validateFileType(file)]. *)
Definition validateFileType (file : File) : bool :=
  let validTypes := ["text/csv"; "application/vnd.ms-excel"] in
  bool_decide (file_type file ∈ validTypes) || endsWith (file_name file) ".csv".

(** What the CSV parser hands to its callbacks: [error(error)], or
    [complete(results)] with [results.errors] (their messages) and
    [results.data]. *)
Inductive parsed : Type :=
  | ParserError (error_message : string)
  | Complete (errors : list string) (data : list record).

Inductive upload_error : Type :=
  | InvalidFileType
  | CsvParsingErrors (messages : list string)
  | ParserFailed (error_message : string)
  | Invalid (e : error).

(** The text of the error that [parseFile] throws or rejects with. *)
Definition upload_message (e : upload_error) : string :=
  match e with
  | InvalidFileType => "Invalid file type. Please upload a CSV file."
  | CsvParsingErrors messages =>
      "CSV parsing errors: " +:+ join ", " messages
  | ParserFailed m => "Error parsing CSV file: " +:+ m
  | Invalid e => message e
  end.

(** [parseFile(file)], given what the parser makes of the file. *)
Definition parseFile (file : File) (outcome : parsed)
  : completion upload_error (list MeasurementRow) :=
  if negb (validateFileType file) then Throw InvalidFileType
  else
    match outcome with
    | ParserError m => Throw (ParserFailed m)
    | Complete ((_ :: _) as errors) _ => Throw (CsvParsingErrors errors)
    | Complete [] data =>
        match validateData data with
        | Normal validatedData => Normal validatedData
        | Throw e => Throw (Invalid e)
        end
    end.

End FileHandlerUpload.

Module FileHandlerCharts.

Import ChromatogramAnalyzer.

(** [FileHandler.extractChromatogramData(data)]: the two arrays. *)
Definition extractChromatogramData (data : list MeasurementRow)
  : list number * list number :=
  let sortedData :=
    Array_sort (fun a b => (retentionTime a - retentionTime b)%num) data in
  (map retentionTime sortedData, map intensity sortedData).

(** A [Map] with numbers as keys, the entries in insertion order.  Keys
    are compared by SameValueZero, which takes NaN for equal to NaN. *)
Definition NumMap (V : Type) : Type := list (number * V).

Definition NumMap_has {V} (m : NumMap V) (k : number) : bool :=
  bool_decide (k ∈ map fst m).

Fixpoint NumMap_set {V} (m : NumMap V) (k : number) (v : V) : NumMap V :=
  match m with
  | [] => [(k, v)]
  | (k', v') :: rest =>
      if bool_decide (k' = k) then (k, v) :: rest
      else (k', v') :: NumMap_set rest k v
  end.

(** [m.get(k).push(x)]. *)
Fixpoint NumMap_push {V} (m : NumMap (list V)) (k : number) (x : V)
  : NumMap (list V) :=
  match m with
  | [] => []
  | (k', v') :: rest =>
      if bool_decide (k' = k) then (k', v' ++ [x]) :: rest
      else (k', v') :: NumMap_push rest k x
  end.

(** The map that the first [forEach] builds: the intensities of every
    retention time. *)
Definition spectraMap (data : list MeasurementRow) : NumMap (list number) :=
  fold_left
    (fun m row =>
       let m' := if NumMap_has m (retentionTime row) then m
                 else NumMap_set m (retentionTime row) [] in
       NumMap_push m' (retentionTime row) (intensity row))
    data [].

(** [acc[i] || 0]: an absent element, NaN and zero all give zero. *)
Definition or_zero (v : option number) : number :=
  match v with
  | None => of_Z 0
  | Some NaN => of_Z 0
  | Some (Fin n) => if (n =? 0)%Z then of_Z 0 else Fin n
  | Some x => x
  end.

(** [acc[i] = v].  The index is never beyond the length here: [forEach]
    counts from zero and every round fills its index. *)
Definition set_index (acc : list number) (i : nat) (v : number)
  : list number :=
  if (i <? length acc)%nat then <[i := v]> acc else acc ++ [v].

(** [intensities.forEach((intensity, i) =>
      { acc[i] = (acc[i] || 0) + intensity; })]. *)
Definition add_spectrum (acc spectrum : list number) : list number :=
  fold_left
    (fun acc ix =>
       set_index acc (fst ix) (or_zero (acc !! fst ix) + snd ix)%num)
    (imap (fun i intensity => (i, intensity)) spectrum) acc.

Record MassSpectra : Type := mkSpectra {
  mzValues : list number;
  spectrum_intensities : list number
}.

(** [FileHandler.extractMassSpectraData(data)]. *)
Definition extractMassSpectraData (data : list MeasurementRow)
  : MassSpectra :=
  let m := spectraMap data in
  {| mzValues := map (fun i => of_nat (i + 1)) (seq 0 100);
     spectrum_intensities :=
       map (fun sum => (sum / of_nat (length m))%num)
         (fold_left add_spectrum (map snd m) []) |}.

End FileHandlerCharts.

(** ** GCMSAnalyzer: batches and row ids *)

Module GCMSAnalyzer.

Import JSString.

(** [l.slice(i, j)] for indices within the bounds or beyond the end. *)
Definition slice {A} (l : list A) (i j : nat) : list A :=
  take (j - i) (drop i l).

(** The batches of the loop
    [for (let i = 0; i < l.length; i += batchSize)
       batch = l.slice(i, i + batchSize)],
    which [processMetabolites] and [batchFetchCompoundInfo] share; the loop
    goes round [ceil(l.length / batchSize)] times. *)
Definition batches {A} (batchSize : nat) (l : list A) : list (list A) :=
  map (fun k => slice l (k * batchSize) (k * batchSize + batchSize))
    (seq 0 ((length l + (batchSize - 1)) / batchSize)).

(** The value of [batchSize] in both loops. *)
Definition batchSize : nat := 5.

(** The number of times the loop waits between batches: after every batch
    with [i + batchSize < l.length]. *)
Definition delays {A} (l : list A) : nat :=
  length
    (List.filter (fun k => (k * batchSize + batchSize <? length l)%nat)
       (seq 0 ((length l + (batchSize - 1)) / batchSize))).

(** The dash that stands for a run of white space; it is written when the
    run begins. *)
Definition dash (in_run : bool) (rest : list ascii) : list ascii :=
  if in_run then rest else "-"%char :: rest.

(** [s.replace(/\s+/g, '-')]: every run of white space becomes one dash. *)
Fixpoint replace_runs (l : list ascii) (in_run : bool) : list ascii :=
  match l with
  | [] => []
  | c1 :: r1 =>
      if is_whitespace c1 then dash in_run (replace_runs r1 true)
      else
        match r1 with
        | c2 :: r2 =>
            if is_whitespace2 c1 c2 then dash in_run (replace_runs r2 true)
            else
              match r2 with
              | c3 :: r3 =>
                  if is_whitespace3 c1 c2 c3
                  then dash in_run (replace_runs r3 true)
                  else c1 :: replace_runs r1 false
              | [] => c1 :: replace_runs r1 false
              end
        | [] => c1 :: replace_runs r1 false
        end
  end.

(** The [id] that [createTableRow] gives to the row of a metabolite, and by
    which [updateTableRow] and [updateCompoundInfo] look the row up. *)
Definition row_id (metaboliteName : string) : string :=
  "row-" +:+ of_chars (replace_runs (chars metaboliteName) false).

End GCMSAnalyzer.

(** ** MetaboliteMapper: the gene locus of a metabolite *)

Module MetaboliteMapperLocus.

(** What a lookup in an object literal gives: a string of the table, or,
    for the name of a property that every object inherits, that inherited
    function or object. *)
Inductive looked_up : Type :=
  | Text (s : string)
  | Inherited (property : string).

#[global] Instance looked_up_eq_dec : EqDecision looked_up.
Proof. solve_decision. Defined.

(** The table [mappings] of [#simulateMapping]. *)
Definition mappings : list (string * string) :=
  [("Glucose", "GLK1"); ("Fructose", "PFK1"); ("Pyruvate", "PDC1");
   ("Citrate", "CIT1"); ("Malate", "MDH1"); ("Lactate", "LDH1");
   ("Succinate", "SDH1"); ("Fumarate", "FUM1");
   ("Alpha-Ketoglutarate", "KGD1"); ("Oxaloacetate", "OAA1");
   ("Alanine", "ALT1"); ("Glutamate", "GDH1"); ("Aspartate", "ASP1");
   ("Glycine", "GLY1"); ("Serine", "SER1")].

(** [#simulateMapping(metaboliteName)]: [mappings[metaboliteName] ||
    'Not found'], after the simulated delay. *)
Definition simulateMapping (metaboliteName : string) : looked_up :=
  match List.find (fun kv => bool_decide (fst kv = metaboliteName)) mappings with
  | Some (_, locus) => Text locus
  | None =>
      if bool_decide (metaboliteName ∈ MetaboliteMapper.inherited_properties)
      then Inherited metaboliteName
      else Text "Not found"
  end.

(** [mapToGeneLocusID(metaboliteName)] on the cache [#mappingCache]: the
    result and the cache left. *)
Definition mapToGeneLocusID (metaboliteName : string)
  (mappingCache : gmap string looked_up)
  : looked_up * gmap string looked_up :=
  match mappingCache !! metaboliteName with
  | Some cached => (cached, mappingCache)
  | None =>
      let geneLocusId := simulateMapping metaboliteName in
      (geneLocusId, <[metaboliteName := geneLocusId]> mappingCache)
  end.

(** [clearCache()]. *)
Definition clearCache (mappingCache : gmap string looked_up)
  : gmap string looked_up := ∅.

(** A call from outside: a lookup or a clearing of the cache. *)
Inductive call : Type :=
  | MapToGeneLocusID (metaboliteName : string)
  | ClearCache.

Definition perform (mappingCache : gmap string looked_up) (c : call)
  : gmap string looked_up :=
  match c with
  | MapToGeneLocusID metaboliteName =>
      snd (mapToGeneLocusID metaboliteName mappingCache)
  | ClearCache => clearCache mappingCache
  end.

End MetaboliteMapperLocus.

(** ** NetworkVisualizer: a session of the graph *)

Module NetworkVisualizerSession.

Import MetaboliteMapper NetworkVisualizer.

(** [clear()]: [cy.elements().remove()] when there is a graph. *)
Definition clear (st : Visualizer) : Visualizer :=
  match cy st with
  | Some _ => {| initialized := initialized st; cy := Some [] |}
  | None => st
  end.

(** [addMetaboliteToPathway] up to its [await]: the metabolite, the gene
    and the edge between them are offered to the graph. *)
Definition begin_call (metaboliteName geneLocusId : string) (g : Graph)
  : Graph :=
  cy_add_all g
    [Node ("m_" +:+ metaboliteName) metaboliteName metabolite;
     Node ("g_" +:+ geneLocusId) geneLocusId gene;
     Edge ("e_" +:+ metaboliteName +:+ "_" +:+ geneLocusId)
          ("m_" +:+ metaboliteName) ("g_" +:+ geneLocusId)
          "associated with"].

(** [addMetaboliteToPathway] after its [await]: the pathway information
    has arrived and its elements are offered to the graph. *)
Definition resume_call (metaboliteName : string) (g : Graph) : Graph :=
  match getPathwayInformation metaboliteName with
  | Some pathwayInfo => addPathwayConnections pathwayInfo g
  | None => g
  end.

(** The visualizer and the calls of [addMetaboliteToPathway] that are
    suspended at their [await], by the name of their metabolite. *)
Record Running : Type := mkRunning {
  visualizer : Visualizer;
  awaiting : list string
}.

(** A session begins after [initialize], with an empty graph. *)
Definition begun : Running := {| visualizer := started; awaiting := [] |}.

(** What happens in a session: [addMetaboliteToPathway] is called, a
    suspended call goes on, [clear] is called. *)
Inductive happening : Type :=
  | Called (metaboliteName geneLocusId : string)
  | Resumed (metaboliteName : string)
  | Cleared.

#[global] Instance happening_eq_dec : EqDecision happening.
Proof. solve_decision. Defined.

(** The list without the first occurrence of [x]. *)
Fixpoint remove_first (x : string) (l : list string) : list string :=
  match l with
  | [] => []
  | y :: rest => if bool_decide (y = x) then rest else y :: remove_first x rest
  end.

Definition step (r : Running) (h : happening) : option Running :=
  match h with
  | Called metaboliteName geneLocusId =>
      match initialized (visualizer r), cy (visualizer r) with
      | true, Some g =>
          Some {| visualizer :=
                    {| initialized := true;
                       cy := Some (begin_call metaboliteName geneLocusId g) |};
                  awaiting := awaiting r ++ [metaboliteName] |}
      | _, _ => Some r
      end
  | Resumed metaboliteName =>
      if bool_decide (metaboliteName ∈ awaiting r)
      then
        Some {| visualizer :=
                  match cy (visualizer r) with
                  | Some g =>
                      {| initialized := initialized (visualizer r);
                         cy := Some (resume_call metaboliteName g) |}
                  | None => visualizer r
                  end;
                awaiting := remove_first metaboliteName (awaiting r) |}
      else None
  | Cleared =>
      Some {| visualizer := clear (visualizer r); awaiting := awaiting r |}
  end.

Fixpoint run (r : Running) (happenings : list happening) : option Running :=
  match happenings with
  | [] => Some r
  | h :: rest =>
      match step r h with
      | Some r' => run r' rest
      | None => None
      end
  end.

End NetworkVisualizerSession.

(** * Vocabulary of the properties *)

Import ChromatogramAnalyzer.

(** ** Peaks, sums and groups *)

(** The test that the spec puts on an index. *)
Definition peak_test (intensities : list number) (threshold : number)
  (i : nat) : bool :=
  (at_index intensities i >? threshold * Math_max intensities)%num
  && (at_index intensities i >? at_index intensities (i - 1))%num
  && (at_index intensities i >? at_index intensities (i + 1))%num.

Definition strictly_increasing (l : list number) : Prop :=
  forall i, i + 1 < length l ->
            (at_index l i <? at_index l (i + 1))%num = true.

Definition strictly_decreasing (l : list number) : Prop :=
  forall i, i + 1 < length l ->
            (at_index l i >? at_index l (i + 1))%num = true.

(** The sum of [term 1], ..., [term n], added from the left to zero. *)
Fixpoint sum_from_1 (term : nat -> number) (n : nat) : number :=
  match n with
  | 0 => of_Z 0
  | S k => (sum_from_1 term k + term (S k))%num
  end.

(** The area of the trapezoid between the points [i - 1] and [i]. *)
Definition trapezoid (times values : list number) (i : nat) : number :=
  ((at_index times i - at_index times (i - 1))
   * ((at_index values i + at_index values (i - 1)) / of_Z 2))%num.

(** For points with whole coordinates: twice the area of the trapezoid
    between the points [i - 1] and [i], and a sum of whole terms. *)
Definition Ztwice_trapezoid (ts ys : list Z) (i : nat) : Z :=
  ((nth i ts 0 - nth (i - 1) ts 0) * (nth i ys 0 + nth (i - 1) ys 0))%Z.

Fixpoint Zsum_from_1 (term : nat -> Z) (n : nat) : Z :=
  match n with
  | 0 => 0%Z
  | S k => (Zsum_from_1 term k + term (S k))%Z
  end.

(** [m] is the greatest of the numbers of [l]. *)
Definition greatest (l : list number) (m : number) : Prop :=
  In m l /\ Forall (fun x => (x <=? m)%num = true) l.

(** The arithmetic mean of the numbers: their sum, added up from the left,
    divided by their count. *)
Definition arithmetic_mean (values : list number) : number :=
  (sum_from_1 (fun i => at_index values (i - 1)) (length values)
   / of_nat (length values))%num.

(** The sum of whole numbers, and the sum of their magnitudes. *)
Definition Zsum (zs : list Z) : Z := fold_right Z.add 0%Z zs.
Definition Zsum_abs (zs : list Z) : Z :=
  fold_right (fun z total => (Z.abs z + total)%Z) 0%Z zs.

(** The names of a list in the order of their first occurrence. *)
Fixpoint first_occurrences (names : list string) : list string :=
  match names with
  | [] => []
  | x :: rest =>
      x :: List.filter (fun y => negb (bool_decide (y = x)))
             (first_occurrences rest)
  end.

(** The intensities of the rows named [k], in the order of the rows. *)
Definition group (k : string) (data : list MeasurementRow) : list number :=
  map intensity (List.filter (fun r => bool_decide (name r = k)) data).

(** A map whose entry for every key [k] of [ks] is [f k]. *)
Definition tabulate {V} (f : string -> V) (ks : list string) : Map V :=
  map (fun k => (k, f k)) ks.

(** ** The chromatogram series *)

(** The rows as points: time, intensity and label. *)
Definition points (data : list MeasurementRow)
  : list (number * (number * string)) :=
  map (fun r => (retentionTime r, (intensity r, name r))) data.

(** The three parallel arrays of a chromatogram, read as points. *)
Definition series (c : ChromatogramData)
  : list (number * (number * string)) :=
  combine (times c) (combine (intensities c) (labels c)).

(** The points of a series at the time [t], in their order. *)
Definition at_time (t : number) (pts : list (number * (number * string)))
  : list (number * (number * string)) :=
  List.filter (fun p => bool_decide (fst p = t)) pts.

(** Non-decreasing times. *)
Definition ascending (ts : list number) : Prop :=
  StronglySorted (fun a b => (a <=? b)%num = true) ts.

(** What validation leaves of a retention time: it is not NaN. *)
Definition timed (data : list MeasurementRow) : Prop :=
  Forall (fun r => isNaN (retentionTime r) = false) data.

(** ** Validation *)

Import FileHandler.

(** The header of the data: the keys of its first record. *)
Definition header (data : list record) : list string :=
  match data with
  | [] => []
  | first :: _ => keys first
  end.

(** The cell of a record under the header that matches [lower]. *)
Definition cell_of (data : list record) (lower : string) (row : record)
  : cell :=
  get_opt row (find_header (header data) lower).

(** The required column [col] has no header equal to it up to case. *)
Definition absent (data : list record) (col : string) : Prop :=
  forall h, h ∈ header data ->
            JSString.toLowerCase h <> JSString.toLowerCase col.

(** A cell that holds a non-empty text. *)
Definition text_of (c : cell) : option string :=
  match c with
  | CStr s => if bool_decide (s = "") then None else Some s
  | _ => None
  end.

(** Why a record is refused, if it is: the first of the three checks that
    fails. *)
Definition refusal (data : list record) (row : record) : option row_reason :=
  if isNaN (parseFloat (cell_of data "retentiontime" row))
  then Some InvalidRetentionTime
  else if isNaN (parseFloat (cell_of data "intensity" row))
  then Some InvalidIntensity
  else match text_of (cell_of data "metabolite" row) with
       | None => Some InvalidMetaboliteName
       | Some _ => None
       end.

(** The record [raw] was accepted as the row [r]: both numbers are what
    [parseFloat] made of the cells and are not NaN; the name is the trimmed
    text of a cell that holds a non-empty text. *)
Definition accepted_as (data : list record) (raw : record)
  (r : MeasurementRow) : Prop :=
  retentionTime r = parseFloat (cell_of data "retentiontime" raw)
  /\ isNaN (retentionTime r) = false
  /\ intensity r = parseFloat (cell_of data "intensity" raw)
  /\ isNaN (intensity r) = false
  /\ exists s, cell_of data "metabolite" raw = CStr s /\ s <> ""
               /\ name r = JSString.trim s.

(** A cell that is numeric in the everyday sense: a number, or a text that
    is a decimal literal from end to end. *)
Definition numeric (c : cell) : bool :=
  match c with
  | CNum x => negb (isNaN x)
  | CStr s => JSString.is_decimal_literal s
  | _ => false
  end.

(** The row is what the data model asks of a [MeasurementRow]. *)
Definition well_formed (r : MeasurementRow) : bool :=
  isFinite (retentionTime r) && (retentionTime r >? of_Z 0)%num
  && isFinite (intensity r) && (of_Z 0 <=? intensity r)%num
  && negb (bool_decide (name r = "")).

(** ** The compound cache *)

Import PubChemIntegration.

(** The state that a history of calls, settled searches, background
    updates and clearings makes of [st]. *)
Definition after (history : list action) (st : State) : State :=
  fold_left perform history st.

(** The result cached for a name of which no identifier was found. *)
Definition not_found (compoundName : string) : CompoundInfo :=
  {| id := "Not found"; compound := compoundName; url := None;
     error_message := None; properties := None; smiles := None |}.

(** No other lookup of the name is under way: no call waits for its search
    and no background fetch is pending. *)
Definition quiet (compoundName : string) (st : State) : Prop :=
  (compoundName ∉ searching st)
  /\ forall cid, (cid, compoundName) ∉ background st.

(** The name is cached at the address [a], which holds [o], and no other
    lookup of the name is under way. *)
Definition settled_at (compoundName : string) (a : nat) (o : CompoundInfo)
  (st : State) : Prop :=
  cache st !! compoundName = Some a
  /\ heap st !! a = Some o
  /\ quiet compoundName st.

(** ** The request queue *)

(** The time of the latest dispatch is at most [bound - gap]. *)
Definition last_dispatch_before (q : Queue) (gap bound : nat) : Prop :=
  forall t r, last (dispatched q) = Some (t, r) -> t + gap <= bound.

(** What holds of the queue at every suspension of the loop. *)
Definition queue_invariant (q : Queue) : Prop :=
  pushed q = map snd (dispatched q) ++ requestQueue q
  /\ spaced requestDelay (map fst (dispatched q))
  /\ match suspended q with
     | NotRunning =>
         isProcessingQueue q = false /\ requestQueue q = []
         /\ settled q = length (dispatched q)
         /\ last_dispatch_before q requestDelay (clock q)
     | AwaitFetch r =>
         isProcessingQueue q = true
         /\ length (dispatched q) = S (settled q)
         /\ last_dispatch_before q 0 (clock q)
     | AwaitDelay deadline =>
         isProcessingQueue q = true
         /\ settled q = length (dispatched q)
         /\ last_dispatch_before q requestDelay deadline
     end.

(** ** The pathway graph *)

Import MetaboliteMapper NetworkVisualizer.

(** The elements that [addPathwayConnections] offers to the graph: the
    pathway and the reactions of an entry of the table, and nothing for an
    inherited value. *)
Definition entry_elements (info : PathwayInfo) : list element :=
  let m := pi_metabolite info in
  let p := pi_pathway info in
  (if truthy p
   then [Node ("p_" +:+ p) p pathway;
         Edge ("e_" +:+ m +:+ "_" +:+ p) ("m_" +:+ m) ("p_" +:+ p) "part of"]
   else [])
  ++ flat_map
       (fun '(index, reaction_label) =>
          [Node ("r_" +:+ m +:+ "_" +:+ pretty index) reaction_label reaction;
           Edge ("e_" +:+ m +:+ "_reaction_" +:+ pretty index)
                ("m_" +:+ m) ("r_" +:+ m +:+ "_" +:+ pretty index)
                "participates in"])
       (imap (fun i r => (i, r)) (pi_reactions info)).

Definition pathway_elements (pathwayInfo : pathway_value) : list element :=
  match pathwayInfo with
  | Entry info => entry_elements info
  | InheritedValue _ => []
  end.

(** The elements that [addMetaboliteToPathway] offers to the graph. *)
Definition offered (metaboliteName geneLocusId : string) : list element :=
  [Node ("m_" +:+ metaboliteName) metaboliteName metabolite;
   Node ("g_" +:+ geneLocusId) geneLocusId gene;
   Edge ("e_" +:+ metaboliteName +:+ "_" +:+ geneLocusId)
        ("m_" +:+ metaboliteName) ("g_" +:+ geneLocusId) "associated with"]
  ++ match getPathwayInformation metaboliteName with
     | Some info => pathway_elements info
     | None => []
     end.

(** ** Further vocabulary *)

(** A number, finite or infinite, that is not negative. *)
Definition nonnegative (x : number) : bool := (of_Z 0 <=? x)%num.

(** The first row of the name [k]. *)
Definition first_row (k : string) (data : list MeasurementRow)
  : option MeasurementRow :=
  List.find (fun r => bool_decide (name r = k)) data.

(** The rows are in the order of their retention times. *)
Definition in_time_order (data : list MeasurementRow) : Prop :=
  StronglySorted
    (fun a b => (retentionTime a <=? retentionTime b)%num = true) data.

(** The key is one of the headers that were matched to the three required
    columns. *)
Definition matched (data : list record) (key : string) : bool :=
  bool_decide
    (Some key ∈ [find_header (header data) "metabolite";
                 find_header (header data) "retentiontime";
                 find_header (header data) "intensity"]).

(** Every entry of the mapping cache is what the table gives. *)
Definition cache_faithful
  (mappingCache : gmap string MetaboliteMapperLocus.looked_up) : Prop :=
  forall k v, mappingCache !! k = Some v ->
              v = MetaboliteMapperLocus.simulateMapping k.

(** ** White space *)

(** A white-space character begins at the head of [l]. *)
Definition whitespace_at (l : list ascii) : bool :=
  match JSString.strip_whitespace l with
  | Some _ => true
  | None => false
  end.

(** No white-space character begins anywhere in [l]. *)
Fixpoint no_whitespace (l : list ascii) : bool :=
  match l with
  | [] => true
  | _ :: rest => negb (whitespace_at l) && no_whitespace rest
  end.

(** ** The graph of a session *)

(** Every edge of the graph starts and ends at a node of the graph. *)
Definition linked (g : Graph) : Prop :=
  forall i s t l,
    Edge i s t l ∈ g ->
    (exists l' ty, Node s l' ty ∈ g) /\ (exists l' ty, Node t l' ty ∈ g).

(** The first character of a string is [c]. *)
Definition head_is (c : ascii) (s : string) : bool :=
  match s with
  | String c' _ => bool_decide (c' = c)
  | EmptyString => false
  end.

(** The ids of edges, and of nothing else, begin with [e]. *)
Definition well_named (e : element) : Prop :=
  match e with
  | Node i _ _ => head_is "e" i = false
  | Edge i s t _ =>
      head_is "e" i = true /\ head_is "e" s = false /\ head_is "e" t = false
  end.

(** The ids are well named and the ends of every edge are ids of the
    graph. *)
Definition disciplined (g : Graph) : Prop :=
  Forall well_named g
  /\ forall i s t l, Edge i s t l ∈ g ->
                     has_id g s = true /\ has_id g t = true.

(** The element may be offered to the graph. *)
Definition admissible (g : Graph) (e : element) : Prop :=
  well_named e
  /\ match e with
     | Node _ _ _ => True
     | Edge _ s t _ => has_id g s = true /\ has_id g t = true
     end.

(** The elements may be offered to the graph one after the other. *)
Fixpoint admissible_all (g : Graph) (es : list element) : Prop :=
  match es with
  | [] => True
  | e :: rest => admissible g e /\ admissible_all (cy_add g e) rest
  end.

(** ** The objects of the compound cache *)

(** The object is a result that may be cached under the name: it carries
    the name and no error, and it has either the id "Not found" and no
    address, or the address of the page of its id. *)
Definition result_for (compoundName : string) (o : CompoundInfo) : Prop :=
  compound o = compoundName
  /\ error_message o = None
  /\ (id o = "Not found" /\ url o = None
      \/ url o = Some ("https://pubchem.ncbi.nlm.nih.gov/compound/" +:+ id o)).

(** Every cached name has an object, which is a result for that name. *)
Definition cache_sound (st : PubChemIntegration.State) : Prop :=
  forall k a, cache st !! k = Some a ->
    exists o, heap st !! a = Some o /\ result_for k o.

(** The two objects agree in what identifies the compound. *)
Definition same_compound (o o' : CompoundInfo) : Prop :=
  id o' = id o /\ compound o' = compound o /\ url o' = url o.

(** The name is cached with an object that agrees with [o], and no call
    for the name waits for its search. *)
Definition held (compoundName : string) (o : CompoundInfo)
  (st : PubChemIntegration.State) : Prop :=
  (compoundName ∉ searching st)
  /\ exists a o', cache st !! compoundName = Some a
                  /\ heap st !! a = Some o' /\ same_compound o o'.

(** * Properties *)

(** ** Numbers *)

Section Rounding.

Local Open Scope Z_scope.

Lemma round_magnitude_nonneg (p q : Z) :
  0 <= p -> 0 < q -> 0 <= round_magnitude p q.
Proof.
  intros Hp Hq. unfold round_magnitude.
  set (k := Z.max 0 (Z.log2 (p / q) - 52)).
  assert (Hk : 0 < 2 ^ k) by (apply Z.pow_pos_nonneg; lia).
  assert (Hm : 0 <= p / (q * 2 ^ k)) by (apply Z.div_pos; nia).
  destruct (2 * (p mod (q * 2 ^ k)) <? q * 2 ^ k); [nia|].
  destruct (q * 2 ^ k <? 2 * (p mod (q * 2 ^ k))); [nia|].
  destruct (Z.even (p / (q * 2 ^ k))); nia.
Qed.

Lemma round_magnitude_int_pos (p : Z) : 0 < p -> 0 < round_magnitude p 1.
Proof.
  intros Hp. unfold round_magnitude. rewrite Z.div_1_r, Z.mul_1_l.
  set (k := Z.max 0 (Z.log2 p - 52)).
  assert (Hk : 0 < 2 ^ k) by (apply Z.pow_pos_nonneg; lia).
  assert (Hle : 2 ^ k <= p).
  { transitivity (2 ^ Z.log2 p); [|apply Z.log2_spec; exact Hp].
    apply Z.pow_le_mono_r; [lia|].
    pose proof (Z.log2_nonneg p). lia. }
  assert (Hm : 1 <= p / 2 ^ k) by (apply Z.div_le_lower_bound; lia).
  destruct (2 * (p mod 2 ^ k) <? 2 ^ k); [nia|].
  destruct (2 ^ k <? 2 * (p mod 2 ^ k)); [nia|].
  destruct (Z.even (p / 2 ^ k)); nia.
Qed.

Lemma round_magnitude_exact (m j : Z) :
  0 <= m < 2 ^ 53 -> 0 <= j -> round_magnitude (m * 2 ^ j) 1 = m * 2 ^ j.
Proof.
  intros Hm Hj. unfold round_magnitude. rewrite Z.div_1_r, Z.mul_1_l.
  set (k := Z.max 0 (Z.log2 (m * 2 ^ j) - 52)).
  assert (Hkj : 0 <= k <= j).
  { subst k. destruct (Z.eq_dec m 0) as [->|Hne]; [simpl; lia|].
    rewrite Z.log2_mul_pow2 by lia.
    assert (Z.log2 m < 53) by (apply Z.log2_lt_pow2; lia). lia. }
  assert (Hk : 0 < 2 ^ k) by (apply Z.pow_pos_nonneg; lia).
  assert (Hsplit : m * 2 ^ j = m * 2 ^ (j - k) * 2 ^ k).
  { rewrite <- Z.mul_assoc, <- Z.pow_add_r by lia. do 2 f_equal. lia. }
  assert (Hmod : (m * 2 ^ j) mod 2 ^ k = 0)
    by (rewrite Hsplit; apply Z.mod_mul; lia).
  assert (Hdiv : m * 2 ^ j / 2 ^ k = m * 2 ^ (j - k))
    by (rewrite Hsplit; apply Z.div_mul; lia).
  rewrite Hmod, Hdiv.
  replace (2 * 0 <? 2 ^ k) with true by (symmetry; apply Z.ltb_lt; lia).
  now rewrite <- Hsplit.
Qed.

Lemma round_magnitude_scale (n q : Z) :
  0 < q -> round_magnitude (n * q) q = round_magnitude n 1.
Proof.
  intros Hq. unfold round_magnitude.
  rewrite Z.div_mul, Z.div_1_r, Z.mul_1_l by lia.
  set (k := Z.max 0 (Z.log2 n - 52)).
  assert (Hk : 0 < 2 ^ k) by (apply Z.pow_pos_nonneg; lia).
  rewrite (Z.mul_comm q (2 ^ k)).
  rewrite Z.div_mul_cancel_r by lia.
  rewrite Z.mul_mod_distr_r by lia.
  set (r := n mod 2 ^ k).
  replace (2 * (r * q) <? 2 ^ k * q) with (2 * r <? 2 ^ k)
    by (destruct (Z.ltb_spec (2 * r) (2 ^ k));
        destruct (Z.ltb_spec (2 * (r * q)) (2 ^ k * q)); try reflexivity; nia).
  replace (2 ^ k * q <? 2 * (r * q)) with (2 ^ k <? 2 * r)
    by (destruct (Z.ltb_spec (2 ^ k) (2 * r));
        destruct (Z.ltb_spec (2 ^ k * q) (2 * (r * q))); try reflexivity; nia).
  reflexivity.
Qed.

Lemma round64_not_NaN (p q : Z) : isNaN (round64 p q) = false.
Proof.
  unfold round64. destruct (huge <=? _); [|reflexivity].
  now destruct (p <? 0).
Qed.

(** A whole number of units keeps its sign: a sum or a difference of
    doubles is zero only if it is exactly zero. *)
Lemma round64_int_sign (n : Z) :
  ltb (Fin 0) (round64 n 1) = (0 <? n)
  /\ ltb (round64 n 1) (Fin 0) = (n <? 0).
Proof.
  unfold round64.
  destruct (Z.eq_dec n 0) as [->|Hne]; [split; vm_compute; reflexivity|].
  pose proof (round_magnitude_int_pos (Z.abs n) ltac:(lia)) as Hmag.
  destruct (huge <=? round_magnitude (Z.abs n) 1).
  - destruct (Z.ltb_spec n 0) as [Hn|Hn]; simpl.
    + split; [symmetry; apply Z.ltb_ge; lia|reflexivity].
    + split; [symmetry; apply Z.ltb_lt; lia|reflexivity].
  - simpl. split.
    + destruct (Z.ltb_spec 0 n); [apply Z.ltb_lt|apply Z.ltb_ge]; nia.
    + destruct (Z.ltb_spec n 0); [apply Z.ltb_lt|apply Z.ltb_ge]; nia.
Qed.

Lemma round64_nonneg (p q : Z) :
  0 <= p -> 0 < q -> ltb (round64 p q) (Fin 0) = false.
Proof.
  intros Hp Hq. unfold round64.
  pose proof (round_magnitude_nonneg (Z.abs p) q ltac:(lia) Hq) as Hmag.
  replace (p <? 0) with false by (symmetry; apply Z.ltb_ge; lia).
  destruct (huge <=? _); [reflexivity|]. simpl. apply Z.ltb_ge. nia.
Qed.

Lemma round64_exact (m j : Z) :
  Z.abs m < 2 ^ 53 -> 0 <= j -> Z.abs m * 2 ^ j < huge ->
  round64 (m * 2 ^ j) 1 = Fin (m * 2 ^ j).
Proof.
  intros Hm Hj Hsmall. unfold round64.
  assert (Hpow : 0 < 2 ^ j) by (apply Z.pow_pos_nonneg; lia).
  replace (Z.abs (m * 2 ^ j)) with (Z.abs m * 2 ^ j) by nia.
  rewrite round_magnitude_exact by lia.
  replace (huge <=? Z.abs m * 2 ^ j) with false
    by (symmetry; apply Z.leb_gt; exact Hsmall).
  f_equal. nia.
Qed.

Lemma round64_scale (n q : Z) : 0 < q -> round64 (n * q) q = round64 n 1.
Proof.
  intros Hq. unfold round64.
  replace (Z.abs (n * q)) with (Z.abs n * q) by nia.
  rewrite round_magnitude_scale by exact Hq.
  replace (n * q <? 0) with (n <? 0)
    by (destruct (Z.ltb_spec n 0); destruct (Z.ltb_spec (n * q) 0);
        try reflexivity; nia).
  replace (Z.sgn (n * q)) with (Z.sgn n) by nia.
  reflexivity.
Qed.

End Rounding.

Section NumberFacts.

Lemma of_Z_0 : of_Z 0 = Fin 0.
Proof. vm_compute. reflexivity. Qed.

Lemma one_pos : (0 < one)%Z.
Proof. reflexivity. Qed.

(** Whole numbers below 2^53 in magnitude are doubles, and so is their sum
    when it stays below 2^53. *)
Lemma of_Z_exact (z : Z) : (Z.abs z < 2 ^ 53)%Z -> of_Z z = Fin (z * one).
Proof.
  intros Hz. unfold of_Z, one. apply round64_exact; [exact Hz|lia|].
  apply Z.lt_le_trans with (2 ^ 53 * 2 ^ 1074)%Z.
  - apply Z.mul_lt_mono_pos_r; [reflexivity|exact Hz].
  - vm_compute. discriminate.
Qed.

(** Halves of whole numbers below 2^53 are doubles too. *)
Lemma round64_half (z : Z) :
  (Z.abs z < 2 ^ 53)%Z -> round64 (z * 2 ^ 1073) 1 = Fin (z * 2 ^ 1073).
Proof.
  intros Hz. apply round64_exact; [exact Hz|lia|].
  apply Z.lt_le_trans with (2 ^ 53 * 2 ^ 1073)%Z.
  - apply Z.mul_lt_mono_pos_r; [reflexivity|exact Hz].
  - vm_compute. discriminate.
Qed.

Lemma half_of_Z (z : Z) :
  (Z.abs z < 2 ^ 53)%Z -> (of_Z z / of_Z 2)%num = Fin (z * 2 ^ 1073).
Proof.
  intros Hz. rewrite (of_Z_exact z) by exact Hz.
  rewrite (of_Z_exact 2) by reflexivity.
  assert (Hone : one = (2 * 2 ^ 1073)%Z) by reflexivity.
  assert (Hpos : (0 < 2 * one)%Z) by reflexivity.
  unfold div. destruct (Z.eqb_spec (2 * one) 0); [lia|].
  replace (Z.sgn (2 * one) * (z * one) * one)%Z
    with (z * 2 ^ 1073 * (2 * one))%Z by (rewrite Hone at 2; nia).
  replace (Z.abs (2 * one)) with (2 * one)%Z by lia.
  rewrite round64_scale by exact Hpos. now apply round64_half.
Qed.

Lemma mul_half (d h : Z) :
  (Z.abs d < 2 ^ 53)%Z -> (Z.abs (d * h) < 2 ^ 53)%Z ->
  (of_Z d * Fin (h * 2 ^ 1073))%num = Fin (d * h * 2 ^ 1073).
Proof.
  intros Hd Hdh. rewrite (of_Z_exact d) by exact Hd.
  change (round64 (d * one * (h * 2 ^ 1073)) one = Fin (d * h * 2 ^ 1073)).
  replace (d * one * (h * 2 ^ 1073))%Z with (d * h * 2 ^ 1073 * one)%Z by ring.
  rewrite round64_scale by exact one_pos. now apply round64_half.
Qed.

Lemma add_half (a b : Z) :
  (Z.abs (a + b) < 2 ^ 53)%Z ->
  (Fin (a * 2 ^ 1073) + Fin (b * 2 ^ 1073))%num = Fin ((a + b) * 2 ^ 1073).
Proof.
  intros Hab.
  change (round64 (a * 2 ^ 1073 + b * 2 ^ 1073) 1 = Fin ((a + b) * 2 ^ 1073)).
  rewrite <- Z.mul_add_distr_r. now apply round64_half.
Qed.

Lemma sub_of_Z (a b : Z) :
  (Z.abs a < 2 ^ 53)%Z -> (Z.abs b < 2 ^ 53)%Z -> (Z.abs (a - b) < 2 ^ 53)%Z ->
  (of_Z a - of_Z b)%num = of_Z (a - b).
Proof.
  intros Ha Hb Hab. rewrite !of_Z_exact by assumption.
  change (round64 (a * one + - (b * one)) 1 = Fin ((a - b) * one)).
  replace (a * one + - (b * one))%Z with ((a - b) * one)%Z by ring.
  rewrite <- of_Z_exact by exact Hab. reflexivity.
Qed.

Lemma add_of_Z (a b : Z) :
  (Z.abs a < 2 ^ 53)%Z -> (Z.abs b < 2 ^ 53)%Z -> (Z.abs (a + b) < 2 ^ 53)%Z ->
  (of_Z a + of_Z b)%num = of_Z (a + b).
Proof.
  intros Ha Hb Hab. rewrite !of_Z_exact by assumption.
  change (round64 (a * one + b * one) 1 = Fin ((a + b) * one)).
  rewrite <- Z.mul_add_distr_r, <- of_Z_exact by exact Hab. reflexivity.
Qed.

Lemma mul_comm (a b : number) : (a * b)%num = (b * a)%num.
Proof.
  destruct a, b; simpl; try reflexivity.
  now rewrite Z.mul_comm.
Qed.

Lemma ltb_irrefl (a : number) : (a <? a)%num = false.
Proof.
  destruct a; simpl; try reflexivity. apply Z.ltb_irrefl.
Qed.

Lemma ltb_asym (a b : number) : (a <? b)%num = true -> (b <? a)%num = false.
Proof.
  destruct a, b; simpl; try reflexivity; try discriminate.
  rewrite Z.ltb_lt, Z.ltb_ge. lia.
Qed.

(** The comparator [a - b] is positive exactly when [b < a]. *)
Lemma sub_positive (a b : number) :
  ((a - b) >? of_Z 0)%num = (b <? a)%num.
Proof.
  unfold gtb, sub. rewrite of_Z_0.
  destruct a as [| | |x], b as [| | |y]; try reflexivity.
  change ((Fin 0 <? round64 (x + - y) 1)%num = (y <? x)%Z).
  rewrite (proj1 (round64_int_sign (x + - y))).
  destruct (Z.ltb_spec 0 (x + - y)); destruct (Z.ltb_spec y x);
    try reflexivity; lia.
Qed.

Lemma leb_refl (a : number) : isNaN a = false -> (a <=? a)%num = true.
Proof. intros Ha. unfold leb. now rewrite Ha, ltb_irrefl. Qed.

Lemma leb_total (a b : number) :
  isNaN a = false -> isNaN b = false ->
  (b <? a)%num = false -> (a <=? b)%num = true.
Proof. intros Ha Hb Hlt. unfold leb. now rewrite Ha, Hb, Hlt. Qed.

Lemma ltb_leb (a b : number) : (a <? b)%num = true -> (a <=? b)%num = true.
Proof.
  intros Hlt. unfold leb. rewrite (ltb_asym _ _ Hlt).
  destruct a, b; simpl in *; try discriminate; reflexivity.
Qed.

Lemma leb_trans (a b c : number) :
  (a <=? b)%num = true -> (b <=? c)%num = true -> (a <=? c)%num = true.
Proof.
  unfold leb.
  destruct a as [| | |x], b as [| | |y], c as [| | |z]; simpl;
    try reflexivity; try discriminate.
  rewrite !negb_true_iff, !Z.ltb_ge. lia.
Qed.

Lemma leb_antisym (a b : number) :
  (a <=? b)%num = true -> (b <=? a)%num = true -> a = b.
Proof.
  unfold leb.
  destruct a as [| | |x], b as [| | |y]; simpl;
    try reflexivity; try discriminate.
  rewrite !negb_true_iff, !Z.ltb_ge. intros Hyx Hxy. f_equal. lia.
Qed.

(** [Math.max] of numbers, none of them NaN, begun with [acc]: it is [acc]
    or one of the numbers, and none is above it. *)
Lemma fold_max2_greatest (l : list number) (acc : number) :
  isNaN acc = false ->
  Forall (fun x => isNaN x = false) l ->
  isNaN (fold_left max2 l acc) = false
  /\ (fold_left max2 l acc = acc \/ In (fold_left max2 l acc) l)
  /\ (acc <=? fold_left max2 l acc)%num = true
  /\ Forall (fun x => (x <=? fold_left max2 l acc)%num = true) l.
Proof.
  intros Hacc Hl. revert acc Hacc.
  induction Hl as [|x l Hx Hl IH]; intros acc Hacc; simpl.
  - repeat split; [exact Hacc|now left|now apply leb_refl|constructor].
  - assert (Hstep : isNaN (max2 acc x) = false
                    /\ (max2 acc x = acc \/ max2 acc x = x)
                    /\ (acc <=? max2 acc x)%num = true
                    /\ (x <=? max2 acc x)%num = true).
    { unfold max2. rewrite Hacc, Hx. simpl.
      destruct (acc <? x)%num eqn:Hlt.
      - repeat split; [exact Hx|now right|now apply ltb_leb|now apply leb_refl].
      - repeat split; [exact Hacc|now left|now apply leb_refl|
                       now apply leb_total]. }
    destruct Hstep as (Hnan & Hwhich & Hle1 & Hle2).
    destruct (IH (max2 acc x) Hnan) as (Hm & Hin & Hle & Hall).
    split; [exact Hm|]. split; [|split].
    + destruct Hin as [Hin|Hin]; [|right; now right].
      rewrite Hin. destruct Hwhich as [->| ->]; [now left|right; now left].
    + eapply leb_trans; eassumption.
    + constructor; [eapply leb_trans; eassumption|exact Hall].
Qed.

Lemma Math_max_greatest (l : list number) :
  l <> [] -> Forall (fun x => isNaN x = false) l ->
  In (Math_max l) l /\ Forall (fun x => (x <=? Math_max l)%num = true) l.
Proof.
  intros Hne Hl. unfold Math_max.
  destruct (fold_max2_greatest l NegInf eq_refl Hl) as (_ & Hin & _ & Hall).
  split; [|exact Hall]. destruct Hin as [Hin|Hin]; [|exact Hin].
  destruct l as [|x l]; [congruence|].
  apply Forall_cons in Hall as [Hx _]. apply Forall_cons in Hl as [Hxn _].
  rewrite Hin in Hx |- *. left.
  apply leb_antisym; [exact Hx|]. now destruct x.
Qed.

End NumberFacts.

(** ** Peak detection *)

Section FindPeaks.

(** A loop that pushes the indices passing a test is a filter. *)
Lemma push_loop_filter (test : nat -> bool) (indices acc : list nat) :
  fold_left (fun peaks i => if test i then peaks ++ [i] else peaks)
    indices acc
  = acc ++ List.filter test indices.
Proof.
  revert acc. induction indices as [|i rest IH]; intros acc; simpl.
  - now rewrite app_nil_r.
  - rewrite IH. destruct (test i); [|reflexivity].
    now rewrite <- app_assoc.
Qed.

Lemma findPeaks_filter (intensities : list number) (threshold : number) :
  findPeaks intensities threshold
  = List.filter (peak_test intensities threshold)
      (seq 1 (length intensities - 2)).
Proof.
  unfold findPeaks. rewrite push_loop_filter. simpl.
  apply filter_ext. intros i. unfold peak_test.
  now rewrite (mul_comm threshold).
Qed.

Lemma filter_seq_ascending (test : nat -> bool) (start len : nat) :
  StronglySorted lt (List.filter test (seq start len)).
Proof.
  revert start. induction len as [|len IH]; intros start; simpl.
  - constructor.
  - destruct (test start); [|apply IH].
    constructor; [apply IH|].
    apply List.Forall_forall. intros j Hj.
    apply filter_In in Hj as [Hj _]. apply in_seq in Hj. lia.
Qed.

Lemma filter_none {A} (test : A -> bool) (l : list A) :
  (forall x, In x l -> test x = false) -> List.filter test l = [].
Proof.
  induction l as [|x l IH]; intros H; simpl; [reflexivity|].
  rewrite (H x) by now left. apply IH. intros y Hy. apply H. now right.
Qed.

End FindPeaks.

(** C2.  [findPeaks] returns, in ascending order, exactly the indices [i]
    with [1 <= i <= n - 2] whose intensity is above [threshold *
    max(intensities)], the product being rounded as every product of
    doubles is, and strictly above both neighbours; [max(intensities)] is
    the greatest of the intensities when none of them is NaN; the two end
    indices are never returned; [[1,1,5,1,1]] with the default threshold
    gives [[2]]; a strictly increasing or strictly decreasing sequence gives
    no peak.  Where the product is rounded the rounded value counts: in
    [[0, 6755399441055746, 0, 2^53 + 2, 0]] with the threshold 0.75 the
    index 1 is no peak, because 0.75 * (2^53 + 2) is rounded up to the
    intensity there. *)
Theorem findPeaks_spec (intensities : list number) (threshold : number) :
  (forall i,
      In i (findPeaks intensities threshold) <->
      1 <= i /\ i + 2 <= length intensities /\
      (at_index intensities i >? threshold * Math_max intensities)%num = true /\
      (at_index intensities i >? at_index intensities (i - 1))%num = true /\
      (at_index intensities i >? at_index intensities (i + 1))%num = true)
  /\ (intensities <> [] ->
      Forall (fun x => isNaN x = false) intensities ->
      greatest intensities (Math_max intensities))
  /\ StronglySorted lt (findPeaks intensities threshold)
  /\ ~ In 0 (findPeaks intensities threshold)
  /\ ~ In (length intensities - 1) (findPeaks intensities threshold)
  /\ findPeaks (map of_Z [1; 1; 5; 1; 1]%Z) default_threshold = [2]
  /\ findPeaks
       (map of_Z [0; 6755399441055746; 0; 9007199254740994; 0]%Z)
       (of_decimal 75 2) = [3]
  /\ (strictly_increasing intensities \/ strictly_decreasing intensities ->
      findPeaks intensities threshold = []).
Proof.
  assert (Hmem : forall i,
      In i (findPeaks intensities threshold) <->
      1 <= i /\ i + 2 <= length intensities /\
      (at_index intensities i >? threshold * Math_max intensities)%num = true /\
      (at_index intensities i >? at_index intensities (i - 1))%num = true /\
      (at_index intensities i >? at_index intensities (i + 1))%num = true).
  { intros i. rewrite findPeaks_filter, filter_In, in_seq.
    unfold peak_test. rewrite !andb_true_iff. split.
    - intros [Hi [[H1 H2] H3]]. repeat split; try assumption; lia.
    - intros (Hlo & Hhi & H1 & H2 & H3). repeat split; try assumption; lia. }
  split; [exact Hmem|].
  split; [apply Math_max_greatest|].
  split; [rewrite findPeaks_filter; apply filter_seq_ascending|].
  split; [rewrite Hmem; lia|].
  split; [rewrite Hmem; lia|].
  split; [vm_compute; reflexivity|].
  split; [vm_compute; reflexivity|].
  intros Hmono. rewrite findPeaks_filter. apply filter_none.
  intros i Hi. apply in_seq in Hi. unfold peak_test.
  destruct Hmono as [Hinc|Hdec].
  - assert (H : (at_index intensities i <? at_index intensities (i + 1))%num
                = true) by (apply Hinc; lia).
    apply ltb_asym in H. unfold gtb at 3. rewrite H. apply andb_false_r.
  - assert (H : (at_index intensities (i - 1) >? at_index intensities i)%num
                = true).
    { replace i with (i - 1 + 1) at 2 by lia. apply Hdec. lia. }
    unfold gtb in H. apply ltb_asym in H. unfold gtb at 2. rewrite H.
    now rewrite andb_false_r.
Qed.

(** A strictly increasing sequence, as a witness of the last part of C2. *)
Lemma findPeaks_spec_witness :
  strictly_increasing (map of_Z [1; 2; 3; 4]%Z)
  /\ findPeaks (map of_Z [1; 2; 3; 4]%Z) default_threshold = [].
Proof.
  assert (H : strictly_increasing (map of_Z [1; 2; 3; 4]%Z)).
  { intros i Hi. simpl in Hi.
    destruct i as [|[|[|i]]]; [vm_compute; reflexivity ..|lia]. }
  split; [exact H|].
  apply (findPeaks_spec (map of_Z [1; 2; 3; 4]%Z) default_threshold).
  left. exact H.
Defined.

(** ** Area under the curve *)

Section CalculateArea.

Lemma loop_sum (term : nat -> number) (n : nat) :
  fold_left (fun area i => (area + term i)%num) (seq 1 n) (of_Z 0)
  = sum_from_1 term n.
Proof.
  induction n as [|n IH]; [reflexivity|].
  rewrite seq_S, fold_left_app, IH. reflexivity.
Qed.

Lemma sum_from_1_ext (f g : nat -> number) (n : nat) :
  (forall i, 1 <= i <= n -> f i = g i) -> sum_from_1 f n = sum_from_1 g n.
Proof.
  induction n as [|n IH]; intros H; [reflexivity|].
  simpl. rewrite IH by (intros i Hi; apply H; lia).
  now rewrite (H (S n)) by lia.
Qed.

Lemma at_index_of_Z (zs : list Z) (i : nat) :
  i < length zs -> at_index (map of_Z zs) i = of_Z (nth i zs 0%Z).
Proof.
  intros Hi. unfold at_index.
  rewrite (nth_indep _ NaN (of_Z 0)) by (now rewrite length_map).
  apply map_nth.
Qed.

Lemma nth_bounded (bound : Z) (zs : list Z) (i : nat) :
  Forall (fun z => (Z.abs z <= bound)%Z) zs -> i < length zs ->
  (Z.abs (nth i zs 0) <= bound)%Z.
Proof.
  intros Hzs Hi. rewrite List.Forall_forall in Hzs. apply Hzs.
  now apply nth_In.
Qed.

(** Between points with whole coordinates of at most 2^20 in magnitude
    nothing is rounded: the trapezoid is half of a whole number. *)
Lemma trapezoid_whole (ts ys : list Z) (i : nat) :
  length ys = length ts ->
  Forall (fun t => (Z.abs t <= 2 ^ 20)%Z) ts ->
  Forall (fun y => (Z.abs y <= 2 ^ 20)%Z) ys ->
  1 <= i -> i < length ts ->
  trapezoid (map of_Z ts) (map of_Z ys) i
  = Fin (Ztwice_trapezoid ts ys i * 2 ^ 1073)
  /\ (Z.abs (Ztwice_trapezoid ts ys i) <= 2 ^ 42)%Z.
Proof.
  intros Hlen Hts Hys Hlo Hhi.
  pose proof (nth_bounded _ ts i Hts Hhi) as Ht1.
  pose proof (nth_bounded _ ts (i - 1) Hts ltac:(lia)) as Ht0.
  pose proof (nth_bounded _ ys i Hys ltac:(lia)) as Hy1.
  pose proof (nth_bounded _ ys (i - 1) Hys ltac:(lia)) as Hy0.
  assert (H20 : (2 ^ 20 = 1048576)%Z) by reflexivity.
  assert (H42 : (2 ^ 42 = 4398046511104)%Z) by reflexivity.
  assert (H53 : (2 ^ 53 = 9007199254740992)%Z) by reflexivity.
  rewrite H20 in *.
  assert (Hbound : (Z.abs (Ztwice_trapezoid ts ys i) <= 2 ^ 42)%Z).
  { unfold Ztwice_trapezoid. rewrite H42, Z.abs_mul.
    apply Z.le_trans with (2097152 * 2097152)%Z; [|lia].
    apply Z.mul_le_mono_nonneg; lia. }
  split; [|exact Hbound].
  unfold trapezoid. rewrite !at_index_of_Z by lia.
  rewrite sub_of_Z, add_of_Z by (rewrite H53; lia).
  rewrite half_of_Z by (rewrite H53; lia).
  rewrite mul_half; [reflexivity|rewrite H53; lia|].
  fold (Ztwice_trapezoid ts ys i). rewrite H42 in Hbound. rewrite H53. lia.
Qed.

Lemma sum_whole (ts ys : list Z) (n : nat) :
  length ys = length ts ->
  Forall (fun t => (Z.abs t <= 2 ^ 20)%Z) ts ->
  Forall (fun y => (Z.abs y <= 2 ^ 20)%Z) ys ->
  n < length ts -> n <= 1024 ->
  sum_from_1 (trapezoid (map of_Z ts) (map of_Z ys)) n
  = Fin (Zsum_from_1 (Ztwice_trapezoid ts ys) n * 2 ^ 1073)
  /\ (Z.abs (Zsum_from_1 (Ztwice_trapezoid ts ys) n)
      <= Z.of_nat n * 2 ^ 42)%Z.
Proof.
  intros Hlen Hts Hys. induction n as [|n IH]; intros Hn Hmax.
  - split; [apply of_Z_0|simpl; lia].
  - destruct IH as [IH Hsum]; [lia|lia|].
    destruct (trapezoid_whole ts ys (S n) Hlen Hts Hys) as [Hterm Hbound];
      [lia|lia|].
    assert (H42 : (2 ^ 42 = 4398046511104)%Z) by reflexivity.
    assert (H53 : (2 ^ 53 = 9007199254740992)%Z) by reflexivity.
    cbn [sum_from_1 Zsum_from_1]. rewrite IH, Hterm. rewrite H42 in *.
    split; [apply add_half; rewrite H53; lia|lia].
Qed.

End CalculateArea.

(** C3.  [calculateArea] returns the trapezoidal sum over [i = 1 .. n - 1]
    of [(t[i] - t[i-1]) * (I[i] + I[i-1]) / 2], every difference, sum,
    product and quotient being rounded as it is for doubles, and the terms
    being added up from the left; with fewer than two points it returns 0.
    For up to 1025 points with whole coordinates of at most 2^20 in
    magnitude nothing is rounded and the result is exactly half of the
    whole number that the sum of [(t[i] - t[i-1]) * (I[i] + I[i-1])] is;
    the area under (0,0), (1,10), (2,0) is 10.  Where a sum overflows the
    infinity counts: the area under two points of the largest double, one
    apart, is infinite. *)
Theorem calculateArea_spec (times values : list number) :
  calculateArea times values
  = sum_from_1 (trapezoid times values) (length times - 1)
  /\ (length times < 2 -> calculateArea times values = of_Z 0)
  /\ (forall ts ys,
         times = map of_Z ts -> values = map of_Z ys ->
         length ys = length ts -> length ts <= 1025 ->
         Forall (fun t => (Z.abs t <= 2 ^ 20)%Z) ts ->
         Forall (fun y => (Z.abs y <= 2 ^ 20)%Z) ys ->
         calculateArea times values
         = (of_Z (Zsum_from_1 (Ztwice_trapezoid ts ys) (length ts - 1))
            / of_Z 2)%num)
  /\ calculateArea (map of_Z [0; 1; 2]%Z) (map of_Z [0; 10; 0]%Z) = of_Z 10
  /\ calculateArea (map of_Z [0; 1]%Z) [MAX_VALUE; MAX_VALUE] = PosInf.
Proof.
  assert (H : calculateArea times values
              = sum_from_1 (trapezoid times values) (length times - 1)).
  { unfold calculateArea. apply (loop_sum (trapezoid times values)). }
  split; [exact H|]. split; [|split; [|split]].
  - intros Hshort. rewrite H.
    replace (length times - 1) with 0 by lia. reflexivity.
  - intros ts ys -> -> Hlen Hmax Hts Hys. rewrite H, length_map.
    destruct ts as [|t ts'] eqn:Hd; [vm_compute; reflexivity|].
    rewrite <- Hd in *.
    assert (Hpos : 0 < length ts) by (rewrite Hd; simpl; lia).
    destruct (sum_whole ts ys (length ts - 1) Hlen Hts Hys) as [-> Hsum];
      [lia|lia|].
    rewrite half_of_Z; [reflexivity|].
    assert (H42 : (2 ^ 42 = 4398046511104)%Z) by reflexivity.
    assert (H53 : (2 ^ 53 = 9007199254740992)%Z) by reflexivity.
    rewrite H42 in Hsum. rewrite H53. lia.
  - vm_compute. reflexivity.
  - vm_compute. reflexivity.
Qed.

(** A single point, as a witness of the second part of C3. *)
Lemma calculateArea_spec_witness :
  calculateArea [of_Z 7] [of_Z 9] = of_Z 0.
Proof.
  apply (calculateArea_spec [of_Z 7] [of_Z 9]). simpl. lia.
Defined.

(** ** Mass spectra: the mean intensity of every name *)

Section MassSpectra.

Lemma first_occurrences_In (x : string) (l : list string) :
  In x (first_occurrences l) <-> In x l.
Proof.
  induction l as [|y l IH]; simpl; [tauto|].
  rewrite filter_In, IH, negb_true_iff, bool_decide_eq_false.
  destruct (decide (y = x)) as [->|Hne]; [tauto|].
  split; [tauto|]. intros [H|H]; [tauto|]. right. split; [exact H|].
  congruence.
Qed.

Lemma NoDup_filter' {A} (test : A -> bool) (l : list A) :
  List.NoDup l -> List.NoDup (List.filter test l).
Proof.
  induction 1 as [|x l Hx Hl IH]; simpl; [constructor|].
  destruct (test x); [|exact IH].
  constructor; [|exact IH]. rewrite filter_In. tauto.
Qed.

Lemma first_occurrences_NoDup (l : list string) :
  List.NoDup (first_occurrences l).
Proof.
  induction l as [|y l IH]; simpl; constructor.
  - rewrite filter_In, negb_true_iff, bool_decide_eq_false. tauto.
  - now apply NoDup_filter'.
Qed.

Lemma first_occurrences_snoc (l : list string) (x : string) :
  first_occurrences (l ++ [x])
  = if bool_decide (x ∈ l) then first_occurrences l
    else first_occurrences l ++ [x].
Proof.
  induction l as [|y l IH]; simpl; [reflexivity|].
  rewrite IH. destruct (decide (y = x)) as [->|Hne].
  - rewrite (bool_decide_eq_true_2 (x ∈ x :: l)) by apply list_elem_of_here.
    case_bool_decide; [reflexivity|].
    rewrite List.filter_app. simpl.
    rewrite bool_decide_eq_true_2 by reflexivity. simpl.
    now rewrite app_nil_r.
  - case_bool_decide as Hin.
    + rewrite (bool_decide_eq_true_2 (x ∈ y :: l))
        by now apply list_elem_of_further.
      reflexivity.
    + rewrite (bool_decide_eq_false_2 (x ∈ y :: l)).
      * rewrite List.filter_app. simpl.
        rewrite bool_decide_eq_false_2 by congruence. reflexivity.
      * rewrite elem_of_cons. intros [?|?]; [congruence|tauto].
Qed.

Lemma tabulate_keys {V} (f : string -> V) (ks : list string) :
  map fst (tabulate f ks) = ks.
Proof.
  unfold tabulate. rewrite map_map. simpl. apply map_id.
Qed.

Lemma tabulate_ext {V} (f g : string -> V) (ks : list string) :
  (forall k, In k ks -> f k = g k) -> tabulate f ks = tabulate g ks.
Proof. intros H. apply map_ext_in. intros k Hk. now rewrite H. Qed.

Lemma Map_set_fresh {V} (m : Map V) (k : string) (v : V) :
  ~ In k (map fst m) -> Map_set m k v = m ++ [(k, v)].
Proof.
  induction m as [|[k' v'] m IH]; simpl; intros Hk; [reflexivity|].
  rewrite bool_decide_eq_false_2 by tauto. f_equal. apply IH. tauto.
Qed.

Lemma Map_push_app_absent {V} (m1 m2 : Map (list V)) (k : string) (x : V) :
  ~ In k (map fst m1) -> Map_push (m1 ++ m2) k x = m1 ++ Map_push m2 k x.
Proof.
  induction m1 as [|[k' v'] m IH]; simpl; intros Hk; [reflexivity|].
  rewrite bool_decide_eq_false_2 by tauto. f_equal. apply IH. tauto.
Qed.

Lemma Map_push_tabulate {V} (f : string -> list V) (ks : list string)
  (k : string) (x : V) :
  List.NoDup ks ->
  Map_push (tabulate f ks) k x
  = tabulate (fun k' => if bool_decide (k' = k) then f k' ++ [x] else f k')
      ks.
Proof.
  induction 1 as [|k' ks Hk' Hks IH]; simpl; [reflexivity|].
  case_bool_decide as Heq.
  - subst k'. f_equal. fold (tabulate f ks).
    apply tabulate_ext. intros j Hj.
    rewrite bool_decide_eq_false_2; [reflexivity|]. congruence.
  - f_equal. apply IH.
Qed.

Lemma group_snoc (k : string) (data : list MeasurementRow)
  (row : MeasurementRow) :
  group k (data ++ [row])
  = if bool_decide (k = name row) then group k data ++ [intensity row]
    else group k data.
Proof.
  unfold group. rewrite List.filter_app, map_app. simpl.
  destruct (decide (name row = k)) as [Heq|Hne].
  - rewrite bool_decide_eq_true_2 by exact Heq.
    now rewrite bool_decide_eq_true_2 by congruence.
  - rewrite bool_decide_eq_false_2 by exact Hne.
    rewrite bool_decide_eq_false_2 by congruence.
    simpl. apply app_nil_r.
Qed.

Lemma group_absent (k : string) (data : list MeasurementRow) :
  ~ In k (map name data) -> group k data = [].
Proof.
  intros Hk. unfold group. rewrite filter_none; [reflexivity|].
  intros r Hr. apply bool_decide_eq_false. intros Heq. apply Hk.
  apply in_map_iff. now exists r.
Qed.

(** The map built by the loop: one entry for every name, in the order of
    first occurrence, holding the intensities of that name. *)
Lemma intensityMap_tabulate (data : list MeasurementRow) :
  intensityMap data
  = tabulate (fun k => group k data) (first_occurrences (map name data)).
Proof.
  induction data as [|row data IH] using rev_ind; [reflexivity|].
  unfold intensityMap in *. rewrite fold_left_app. simpl. rewrite IH.
  unfold Map_has. rewrite tabulate_keys, map_app. simpl.
  rewrite first_occurrences_snoc.
  destruct (decide (name row ∈ map name data)) as [Hin|Hout].
  - rewrite (bool_decide_eq_true_2 (_ ∈ map name data)) by exact Hin.
    rewrite bool_decide_eq_true_2
      by (apply list_elem_of_In, first_occurrences_In, list_elem_of_In, Hin).
    rewrite Map_push_tabulate by apply first_occurrences_NoDup.
    apply tabulate_ext. intros k _. now rewrite group_snoc.
  - rewrite (bool_decide_eq_false_2 (_ ∈ map name data)) by exact Hout.
    rewrite list_elem_of_In in Hout.
    rewrite bool_decide_eq_false_2
      by (rewrite list_elem_of_In, first_occurrences_In; exact Hout).
    assert (Hfresh : ~ In (name row)
                       (first_occurrences (map name data)))
      by now rewrite first_occurrences_In.
    rewrite Map_set_fresh by now rewrite tabulate_keys.
    rewrite Map_push_app_absent by now rewrite tabulate_keys.
    simpl. rewrite bool_decide_eq_true_2 by reflexivity.
    unfold tabulate. rewrite map_app. simpl. f_equal.
    + apply map_ext_in. intros k Hk. rewrite group_snoc.
      rewrite bool_decide_eq_false_2; [reflexivity|]. congruence.
    + rewrite group_snoc, bool_decide_eq_true_2 by reflexivity.
      now rewrite group_absent.
Qed.

Lemma at_index_app_l (l l' : list number) (i : nat) :
  i < length l -> at_index (l ++ l') i = at_index l i.
Proof. intros Hi. unfold at_index. now apply app_nth1. Qed.

(** The loop of [reduce] adds the values up from the left. *)
Lemma reduce_sum (values : list number) :
  fold_left (fun sum val => (sum + val)%num) values (of_Z 0)
  = sum_from_1 (fun i => at_index values (i - 1)) (length values).
Proof.
  induction values as [|x values IH] using rev_ind; [reflexivity|].
  rewrite fold_left_app, length_app, Nat.add_1_r. cbn [fold_left sum_from_1].
  rewrite IH. f_equal.
  - apply sum_from_1_ext. intros i Hi. symmetry. apply at_index_app_l. lia.
  - replace (S (length values) - 1) with (length values) by lia.
    unfold at_index. now rewrite nth_middle.
Qed.

Lemma average_mean (values : list number) :
  average values = arithmetic_mean values.
Proof. unfold average, arithmetic_mean. now rewrite reduce_sum. Qed.

(** Whole numbers whose magnitudes add up to less than 2^53 are added
    without any rounding. *)
Lemma reduce_of_Z (zs : list Z) (acc : Z) :
  (Z.abs acc + Zsum_abs zs < 2 ^ 53)%Z ->
  fold_left (fun sum val => (sum + val)%num) (map of_Z zs) (of_Z acc)
  = of_Z (acc + Zsum zs).
Proof.
  revert acc. induction zs as [|z zs IH]; intros acc Hsmall.
  - simpl. now rewrite Z.add_0_r.
  - cbn [map fold_left Zsum Zsum_abs fold_right] in *.
    assert (Hrest : (0 <= Zsum_abs zs)%Z).
    { clear. induction zs as [|z zs IH]; simpl; lia. }
    fold (Zsum_abs zs) in Hsmall. fold (Zsum zs).
    rewrite add_of_Z by lia. rewrite IH by lia. f_equal. lia.
Qed.

Lemma average_of_Z (zs : list Z) :
  (Zsum_abs zs < 2 ^ 53)%Z ->
  average (map of_Z zs) = (of_Z (Zsum zs) / of_nat (length zs))%num.
Proof.
  intros Hsmall. unfold average.
  rewrite (reduce_of_Z zs 0) by (simpl; lia). now rewrite length_map.
Qed.

End MassSpectra.

(** C5.  [extractMassSpectraData] lists the names in the order of their
    first occurrence and gives for each the arithmetic mean of the
    intensities of the rows of exactly that name: their sum, added up in
    the order of the rows, divided by their count.  For intensities that
    are whole numbers below 2^53 in total the sum is exact, so that the
    mean is the exact sum divided once; a name whose rows have the
    intensities 10, 20, 30 gets 20.  Where the sum is rounded the rounded
    value counts: the mean of 0.1, 0.2, 0.3 is 0.20000000000000004. *)
Theorem extractMassSpectraData_spec (data : list MeasurementRow) :
  metabolites (extractMassSpectraData data)
  = first_occurrences (map name data)
  /\ mean_intensities (extractMassSpectraData data)
     = map (fun k => arithmetic_mean (group k data))
         (metabolites (extractMassSpectraData data))
  /\ (forall i k zs,
         metabolites (extractMassSpectraData data) !! i = Some k ->
         group k data = map of_Z zs ->
         (Zsum_abs zs < 2 ^ 53)%Z ->
         mean_intensities (extractMassSpectraData data) !! i
         = Some (of_Z (Zsum zs) / of_nat (length zs))%num)
  /\ (forall i k,
         metabolites (extractMassSpectraData data) !! i = Some k ->
         group k data = map of_Z [10; 20; 30]%Z ->
         mean_intensities (extractMassSpectraData data) !! i
         = Some (of_Z 20))
  /\ (forall i k,
         metabolites (extractMassSpectraData data) !! i = Some k ->
         group k data = [of_decimal 1 1; of_decimal 2 1; of_decimal 3 1] ->
         mean_intensities (extractMassSpectraData data) !! i
         = Some (of_decimal 20000000000000004 17)).
Proof.
  unfold extractMassSpectraData. simpl.
  rewrite intensityMap_tabulate, tabulate_keys.
  assert (Hmeans :
    map average
      (map snd (tabulate (fun k => group k data)
                  (first_occurrences (map name data))))
    = map (fun k => average (group k data))
        (first_occurrences (map name data))).
  { unfold tabulate. now rewrite !map_map. }
  split; [reflexivity|]. split; [|split; [|split]].
  - rewrite Hmeans. apply map_ext. intros k. apply average_mean.
  - intros i k zs Hi Hgroup Hsmall.
    rewrite Hmeans, list_lookup_fmap, Hi. simpl.
    now rewrite Hgroup, average_of_Z.
  - intros i k Hi Hgroup. rewrite Hmeans, list_lookup_fmap, Hi. simpl.
    rewrite Hgroup. vm_compute. reflexivity.
  - intros i k Hi Hgroup. rewrite Hmeans, list_lookup_fmap, Hi. simpl.
    rewrite Hgroup. vm_compute. reflexivity.
Qed.

(** Three rows of one name among rows of another, as a witness of C5. *)
Lemma extractMassSpectraData_spec_witness :
  mean_intensities
    (extractMassSpectraData
       [mkRow "Glucose" (of_Z 1) (of_Z 10) [];
        mkRow "Citrate" (of_Z 2) (of_Z 7) [];
        mkRow "Glucose" (of_Z 3) (of_Z 20) [];
        mkRow "Glucose" (of_Z 4) (of_Z 30) []]) !! 0
  = Some (of_Z 20).
Proof.
  destruct (extractMassSpectraData_spec
              [mkRow "Glucose" (of_Z 1) (of_Z 10) [];
               mkRow "Citrate" (of_Z 2) (of_Z 7) [];
               mkRow "Glucose" (of_Z 3) (of_Z 20) [];
               mkRow "Glucose" (of_Z 4) (of_Z 30) []]) as (_ & _ & _ & H & _).
  apply (H 0 "Glucose"); reflexivity.
Defined.

(** ** The chromatogram: a stable sort by retention time *)

Section SortByKey.

Context {A : Type} (key : A -> number).

Let by_key (a b : A) : number := (key a - key b)%num.
Let ordered (a b : A) : Prop := (key a <=? key b)%num = true.

Lemma sort_insert_unfold (x y : A) (rest : list A) :
  sort_insert by_key x (y :: rest)
  = if (key y <? key x)%num then y :: sort_insert by_key x rest
    else x :: y :: rest.
Proof. rewrite <- sub_positive. reflexivity. Qed.

Lemma sort_insert_perm (x : A) (l : list A) :
  sort_insert by_key x l ≡ₚ x :: l.
Proof.
  induction l as [|y l IH]; [reflexivity|].
  rewrite sort_insert_unfold. destruct (key y <? key x)%num; [|reflexivity].
  rewrite IH. apply Permutation_swap.
Qed.

Lemma Array_sort_perm (l : list A) : Array_sort by_key l ≡ₚ l.
Proof.
  induction l as [|x l IH]; [reflexivity|].
  simpl. rewrite sort_insert_perm. now rewrite IH.
Qed.

Lemma sort_insert_sorted (x : A) (l : list A) :
  isNaN (key x) = false ->
  Forall (fun y => isNaN (key y) = false) l ->
  StronglySorted ordered l ->
  StronglySorted ordered (sort_insert by_key x l).
Proof.
  intros Hx Hl Hs. induction Hs as [|y l Hs IH Hy].
  - repeat constructor.
  - rewrite sort_insert_unfold.
    apply Forall_cons in Hl as [Hyn Hl].
    destruct (key y <? key x)%num eqn:Hlt.
    + constructor; [now apply IH|].
      rewrite sort_insert_perm. constructor; [|exact Hy].
      now apply ltb_leb.
    + assert (Hxy : ordered x y) by now apply leb_total.
      constructor; [now constructor|].
      constructor; [exact Hxy|].
      eapply Forall_impl; [exact Hy|].
      intros z Hyz. eapply leb_trans; eassumption.
Qed.

Lemma Array_sort_sorted (l : list A) :
  Forall (fun y => isNaN (key y) = false) l ->
  StronglySorted ordered (Array_sort by_key l).
Proof.
  induction 1 as [|x l Hx Hl IH]; simpl; [constructor|].
  apply sort_insert_sorted; [exact Hx| |exact IH].
  now rewrite Array_sort_perm.
Qed.

(** Stability: an element goes in front of the elements of its own key. *)
Lemma sort_insert_filter (t : number) (x : A) (l : list A) :
  List.filter (fun a => bool_decide (key a = t)) (sort_insert by_key x l)
  = List.filter (fun a => bool_decide (key a = t)) (x :: l).
Proof.
  induction l as [|y l IH]; [reflexivity|].
  rewrite sort_insert_unfold. destruct (key y <? key x)%num eqn:Hlt;
    [|reflexivity].
  simpl in *. rewrite IH.
  destruct (decide (key x = t)) as [Hx|Hx];
    [|now rewrite (bool_decide_eq_false_2 _ Hx)].
  rewrite (bool_decide_eq_true_2 _ Hx).
  rewrite bool_decide_eq_false_2; [reflexivity|].
  intros Hy. rewrite Hx, Hy, ltb_irrefl in Hlt. discriminate.
Qed.

Lemma Array_sort_stable (t : number) (l : list A) :
  List.filter (fun a => bool_decide (key a = t)) (Array_sort by_key l)
  = List.filter (fun a => bool_decide (key a = t)) l.
Proof.
  induction l as [|x l IH]; [reflexivity|].
  simpl Array_sort. rewrite sort_insert_filter. simpl. now rewrite IH.
Qed.

(** The order of the result does not depend on the algorithm: two lists
    that are sorted by the key and hold, for every key, the same elements
    in the same order, are equal. *)
Lemma stable_sorted_unique (l1 l2 : list A) :
  StronglySorted ordered l1 -> StronglySorted ordered l2 ->
  (forall t, List.filter (fun a => bool_decide (key a = t)) l1
             = List.filter (fun a => bool_decide (key a = t)) l2) ->
  l1 = l2.
Proof.
  intros H1. revert l2. induction H1 as [|x l1 H1 IH Hx]; intros l2 H2 Hf.
  - destruct l2 as [|y l2]; [reflexivity|].
    specialize (Hf (key y)). simpl in Hf.
    rewrite bool_decide_eq_true_2 in Hf by reflexivity. discriminate.
  - destruct H2 as [|y l2 H2 Hy].
    { specialize (Hf (key x)). simpl in Hf.
      rewrite bool_decide_eq_true_2 in Hf by reflexivity. discriminate. }
    assert (Hkey : key x = key y).
    { destruct (decide (key x = key y)) as [Heq|Hne]; [exact Heq|].
      apply leb_antisym.
      - pose proof (Hf (key y)) as Hfy. simpl in Hfy.
        rewrite (bool_decide_eq_false_2 _ Hne) in Hfy.
        rewrite (bool_decide_eq_true_2 (key y = key y)) in Hfy by reflexivity.
        assert (Hin : In y (List.filter
                              (fun a => bool_decide (key a = key y)) l1))
          by (rewrite Hfy; now left).
        apply filter_In in Hin as [Hin _].
        rewrite List.Forall_forall in Hx. now apply Hx.
      - pose proof (Hf (key x)) as Hfx. simpl in Hfx.
        rewrite (bool_decide_eq_true_2 (key x = key x)) in Hfx by reflexivity.
        rewrite (bool_decide_eq_false_2 (key y = key x)) in Hfx by congruence.
        assert (Hin : In x (List.filter
                              (fun a => bool_decide (key a = key x)) l2))
          by (rewrite <- Hfx; now left).
        apply filter_In in Hin as [Hin _].
        rewrite List.Forall_forall in Hy. now apply Hy. }
    pose proof (Hf (key x)) as Hfx. simpl in Hfx.
    rewrite (bool_decide_eq_true_2 (key x = key x)) in Hfx by reflexivity.
    rewrite (bool_decide_eq_true_2 (key y = key x)) in Hfx by congruence.
    injection Hfx as -> Hrest. f_equal. apply IH; [exact H2|].
    intros t. specialize (Hf t). simpl in Hf.
    destruct (bool_decide (key y = t)); [now injection Hf|exact Hf].
Qed.

(** So every stable sort by the key returns what [Array_sort] returns. *)
Lemma Array_sort_canonical (l sorted : list A) :
  Forall (fun y => isNaN (key y) = false) l ->
  StronglySorted ordered sorted ->
  (forall t, List.filter (fun a => bool_decide (key a = t)) sorted
             = List.filter (fun a => bool_decide (key a = t)) l) ->
  sorted = Array_sort by_key l.
Proof.
  intros Hl Hs Hstable. apply stable_sorted_unique; [exact Hs| |].
  - now apply Array_sort_sorted.
  - intros t. now rewrite Array_sort_stable.
Qed.

End SortByKey.

Section Chromatogram.

Let by_time (a b : MeasurementRow) : number :=
  (retentionTime a - retentionTime b)%num.

Lemma series_points (data : list MeasurementRow) :
  series (extractChromatogramData data)
  = points (Array_sort by_time data).
Proof.
  unfold series, extractChromatogramData, points. simpl.
  fold by_time. induction (Array_sort by_time data) as [|r l IH];
    [reflexivity|].
  simpl. now rewrite IH.
Qed.

Lemma at_time_points (t : number) (data : list MeasurementRow) :
  at_time t (points data)
  = points (List.filter (fun r => bool_decide (retentionTime r = t)) data).
Proof.
  unfold at_time, points. induction data as [|r l IH]; [reflexivity|].
  simpl. rewrite IH. now destruct (bool_decide (retentionTime r = t)).
Qed.

Lemma sorted_times (l : list MeasurementRow) :
  StronglySorted
    (fun a b => (retentionTime a <=? retentionTime b)%num = true) l ->
  ascending (map retentionTime l).
Proof.
  unfold ascending. induction 1 as [|r l Hs IH Hr]; simpl; constructor.
  - exact IH.
  - apply List.Forall_map. exact Hr.
Qed.

Lemma ascending_unique (l1 l2 : list number) :
  ascending l1 -> ascending l2 -> l1 ≡ₚ l2 -> l1 = l2.
Proof.
  apply StronglySorted_unique_strong.
  intros a b _ _. apply leb_antisym.
Qed.

Lemma NoDup_map_injective {A B} (f : A -> B) (l : list A) (x y : A) :
  List.NoDup (map f l) -> x ∈ l -> y ∈ l -> f x = f y -> x = y.
Proof.
  induction l as [|z l IH]; simpl; intros Hnd Hx Hy Hf.
  - now apply elem_of_nil in Hx.
  - apply List.NoDup_cons_iff in Hnd as [Hz Hnd].
    apply elem_of_cons in Hx as [->|Hx]; apply elem_of_cons in Hy as [->|Hy].
    + reflexivity.
    + exfalso. apply Hz. rewrite Hf. apply in_map. now apply list_elem_of_In.
    + exfalso. apply Hz. rewrite <- Hf. apply in_map. now apply list_elem_of_In.
    + now apply IH.
Qed.

Lemma timed_perm (data data' : list MeasurementRow) :
  data' ≡ₚ data -> timed data -> timed data'.
Proof. unfold timed. intros Hp. now rewrite Hp. Qed.

Lemma times_sorted (data : list MeasurementRow) :
  timed data -> ascending (times (extractChromatogramData data)).
Proof.
  intros Hd. apply sorted_times.
  apply (Array_sort_sorted retentionTime). exact Hd.
Qed.

End Chromatogram.

(** C4, where the code departs from the claim.  Two rows of the same
    retention time come out in the order they went in, so the output for a
    permutation of the rows is not always the output for the rows. *)
Lemma extractChromatogramData_order_dependent :
  [mkRow "B" (of_Z 1) (of_Z 20) []; mkRow "A" (of_Z 1) (of_Z 10) []]
  ≡ₚ [mkRow "A" (of_Z 1) (of_Z 10) []; mkRow "B" (of_Z 1) (of_Z 20) []]
  /\ timed [mkRow "A" (of_Z 1) (of_Z 10) []; mkRow "B" (of_Z 1) (of_Z 20) []]
  /\ labels (extractChromatogramData
               [mkRow "A" (of_Z 1) (of_Z 10) [];
                mkRow "B" (of_Z 1) (of_Z 20) []]) = ["A"; "B"]
  /\ labels (extractChromatogramData
               [mkRow "B" (of_Z 1) (of_Z 20) [];
                mkRow "A" (of_Z 1) (of_Z 10) []]) = ["B"; "A"]
  /\ extractChromatogramData
       [mkRow "B" (of_Z 1) (of_Z 20) []; mkRow "A" (of_Z 1) (of_Z 10) []]
     <> extractChromatogramData
          [mkRow "A" (of_Z 1) (of_Z 10) []; mkRow "B" (of_Z 1) (of_Z 20) []].
Proof.
  split; [apply Permutation_swap|].
  split; [repeat constructor|].
  split; [vm_compute; reflexivity|].
  split; [vm_compute; reflexivity|].
  intros H. apply (f_equal labels) in H. vm_compute in H. discriminate.
Qed.

(** C4, as the code has it.  For rows whose retention times are numbers,
    the times of the chromatogram are non-decreasing; its points are the
    rows, and the points of one time keep the order of the rows; the times
    are the same for every permutation of the rows, and the whole output is
    the same when no two rows share a retention time. *)
Theorem extractChromatogramData_spec (data : list MeasurementRow) :
  timed data ->
  ascending (times (extractChromatogramData data))
  /\ series (extractChromatogramData data) ≡ₚ points data
  /\ (forall t, at_time t (series (extractChromatogramData data))
                = at_time t (points data))
  /\ (forall data', data' ≡ₚ data ->
        times (extractChromatogramData data')
        = times (extractChromatogramData data))
  /\ (forall data', data' ≡ₚ data ->
        List.NoDup (map retentionTime data) ->
        extractChromatogramData data' = extractChromatogramData data).
Proof.
  intros Hd.
  split; [now apply times_sorted|].
  split.
  { rewrite series_points. unfold points. apply Permutation_map.
    apply (Array_sort_perm retentionTime). }
  split.
  { intros t. rewrite series_points, !at_time_points. f_equal.
    apply (Array_sort_stable retentionTime). }
  split.
  { intros data' Hp. apply ascending_unique.
    - apply times_sorted. eapply timed_perm; eassumption.
    - now apply times_sorted.
    - simpl. apply Permutation_map.
      rewrite !(Array_sort_perm retentionTime). exact Hp. }
  intros data' Hp Hnd.
  assert (Hsame :
    Array_sort (fun a b => (retentionTime a - retentionTime b)%num) data'
    = Array_sort (fun a b => (retentionTime a - retentionTime b)%num) data).
  { apply (StronglySorted_unique_strong
             (fun a b => (retentionTime a <=? retentionTime b)%num = true)).
    - intros r1 r2 H1 H2 H12 H21.
      rewrite (Array_sort_perm retentionTime), Hp in H1.
      rewrite (Array_sort_perm retentionTime) in H2.
      apply (NoDup_map_injective retentionTime data); try assumption.
      now apply leb_antisym.
    - apply (Array_sort_sorted retentionTime).
      eapply timed_perm; eassumption.
    - now apply (Array_sort_sorted retentionTime).
    - rewrite !(Array_sort_perm retentionTime). exact Hp. }
  unfold extractChromatogramData. now rewrite Hsame.
Qed.

(** Rows given out of order, one time twice, as a witness of C4. *)
Lemma extractChromatogramData_spec_witness :
  ascending
    (times (extractChromatogramData
              [mkRow "C" (of_Z 3) (of_Z 5) []; mkRow "A" (of_Z 1) (of_Z 10) [];
               mkRow "B" (of_Z 1) (of_Z 20) []])).
Proof.
  apply (extractChromatogramData_spec
           [mkRow "C" (of_Z 3) (of_Z 5) []; mkRow "A" (of_Z 1) (of_Z 10) [];
            mkRow "B" (of_Z 1) (of_Z 20) []]).
  repeat constructor.
Defined.

(** ** Validation of the parsed CSV *)

Section Validation.

Variable data : list record.

Let columnMapping : ColumnMapping :=
  {| Metabolite := find_header (header data) "metabolite";
     RetentionTime := find_header (header data) "retentiontime";
     Intensity := find_header (header data) "intensity" |}.

Lemma validate_row_refused (row : record) (index : nat)
  (reason : row_reason) :
  refusal data row = Some reason ->
  validate_row columnMapping row index = Throw (RowError (index + 1) reason).
Proof.
  unfold refusal, validate_row, cell_of, text_of. simpl.
  destruct (isNaN (parseFloat (get_opt row _))); [congruence|].
  destruct (isNaN (parseFloat (get_opt row _))); [congruence|].
  destruct (get_opt row _) as [x|s|b| |]; try congruence.
  destruct (bool_decide (s = "")); congruence.
Qed.

Lemma validate_row_accepted (row : record) (index : nat) :
  refusal data row = None ->
  exists r, validate_row columnMapping row index = Normal r
            /\ accepted_as data row r.
Proof.
  unfold refusal, validate_row, accepted_as, cell_of, text_of. simpl.
  destruct (isNaN (parseFloat (get_opt row (find_header _ "retentiontime"))))
    eqn:Ht; [discriminate|].
  destruct (isNaN (parseFloat (get_opt row (find_header _ "intensity"))))
    eqn:Hi; [discriminate|].
  destruct (get_opt row (find_header _ "metabolite")) as [x|s|b| |] eqn:Hm;
    try discriminate.
  destruct (bool_decide (s = "")) eqn:Hs; [discriminate|]. intros _.
  apply bool_decide_eq_false in Hs.
  eexists. split; [reflexivity|]. simpl.
  repeat split; try assumption. now exists s.
Qed.

Lemma accepted_not_refused (row : record) (r : MeasurementRow) :
  accepted_as data row r -> refusal data row = None.
Proof.
  intros (Ht & Htn & Hi & Hin & s & Hc & Hs & _). unfold refusal.
  rewrite <- Ht, Htn, <- Hi, Hin, Hc. simpl.
  now rewrite bool_decide_eq_false_2.
Qed.

Lemma validate_rows_Normal (rows : list record) (index : nat)
  (out : list MeasurementRow) :
  validate_rows columnMapping rows index = Normal out ->
  Forall2 (accepted_as data) rows out.
Proof.
  revert index out. induction rows as [|row rows IH]; intros index out; simpl.
  - intros [= <-]. constructor.
  - destruct (refusal data row) as [reason|] eqn:Hr.
    + rewrite (validate_row_refused _ _ _ Hr). discriminate.
    + destruct (validate_row_accepted row index Hr) as (r & -> & Hacc).
      unfold mbind, completion_bind. simpl.
      destruct (validate_rows columnMapping rows (S index)) as [rs|e] eqn:Hrs;
        simpl; [|discriminate].
      intros [= <-]. constructor; [exact Hacc|]. eapply IH, Hrs.
Qed.

Lemma validate_rows_first (rows : list record) (index k : nat)
  (row : record) (reason : row_reason) :
  rows !! k = Some row ->
  refusal data row = Some reason ->
  (forall j row', j < k -> rows !! j = Some row' ->
                  refusal data row' = None) ->
  validate_rows columnMapping rows index
  = Throw (RowError (index + k + 1) reason).
Proof.
  revert index k. induction rows as [|first rows IH]; intros index k Hk Hr Hb.
  - discriminate.
  - destruct k as [|k]; simpl in *.
    + injection Hk as ->. rewrite (validate_row_refused _ _ _ Hr).
      simpl. now rewrite Nat.add_0_r.
    + destruct (validate_row_accepted first index (Hb 0 first (Nat.lt_0_succ k) eq_refl))
        as (r & -> & _).
      unfold mbind, completion_bind. simpl.
      rewrite (IH (S index) k Hk Hr).
      * simpl. do 2 f_equal. lia.
      * intros j row' Hj Hrow'. apply (Hb (S j) row'); [lia|exact Hrow'].
Qed.

Lemma validateData_unfold :
  validateData data
  = match data with
    | [] => Throw EmptyFile
    | _ :: _ =>
        match missingColumns (header data) with
        | [] => validate_rows columnMapping data 0
        | missing => Throw (MissingColumns missing)
        end
    end.
Proof.
  unfold validateData, columnMapping. destruct data as [|first rest];
    [reflexivity|].
  simpl. now destruct (missingColumns (keys first)).
Qed.

Lemma missingColumns_absent (col : string) :
  col ∈ missingColumns (header data)
  <-> col ∈ requiredColumns /\ absent data col.
Proof.
  unfold missingColumns, absent.
  rewrite list_elem_of_In, filter_In, <- list_elem_of_In.
  rewrite negb_true_iff, bool_decide_eq_false, list_elem_of_fmap.
  split; intros [Hreq Habs]; (split; [exact Hreq|]).
  - intros h Hh Heq. apply Habs. now exists h.
  - intros (h & Heq & Hh). now apply (Habs h).
Qed.

End Validation.

(** C1, where the code departs from the claim.  The validator tests the two
    numbers with [isNaN] only and the name before it is trimmed: a record
    with an infinite retention time, a negative intensity and a name of
    blanks is accepted, and so is one with a negative retention time and an
    infinite intensity. *)
Lemma validateData_accepts_ill_formed :
  validateData
    [[("Metabolite", CStr "   "); ("RetentionTime", CStr "Infinity");
      ("Intensity", CNum (of_Z (-5)))];
     [("Metabolite", CStr "Glucose"); ("RetentionTime", CNum (of_Z (-2)));
      ("Intensity", CStr "-Infinity")]]
  = Normal [mkRow "" PosInf (of_Z (-5)) [];
            mkRow "Glucose" (of_Z (-2)) NegInf []]
  /\ well_formed (mkRow "" PosInf (of_Z (-5)) []) = false
  /\ well_formed (mkRow "Glucose" (of_Z (-2)) NegInf []) = false
  /\ isFinite PosInf = false
  /\ (of_Z 0 <=? of_Z (-5))%num = false
  /\ (of_Z (-2) >? of_Z 0)%num = false
  /\ isFinite NegInf = false.
Proof. repeat split; vm_compute; reflexivity. Qed.

(** C1, as the code has it.  Every row that [validateData] returns has a
    retention time and an intensity that [parseFloat] read from the cells
    and that are not NaN, and a name that is the trimmed text of a cell
    holding a non-empty text; data with a record whose retention time or
    intensity parses to NaN, or whose name cell is empty or not a text, is
    rejected with an error. *)
Theorem validateData_rows (data : list record) :
  (forall rows, validateData data = Normal rows ->
                Forall2 (accepted_as data) data rows)
  /\ (forall row, row ∈ data -> refusal data row <> None ->
                  exists e, validateData data = Throw e).
Proof.
  assert (Hrows : forall rows, validateData data = Normal rows ->
                               Forall2 (accepted_as data) data rows).
  { intros rows. rewrite validateData_unfold.
    destruct data as [|first rest] eqn:Hd; [discriminate|]. rewrite <- Hd.
    destruct (missingColumns (header data)); [|discriminate].
    apply validate_rows_Normal. }
  split; [exact Hrows|].
  intros row Hrow Hrefused.
  destruct (validateData data) as [rows|e] eqn:Hv; [|now exists e].
  exfalso. specialize (Hrows rows eq_refl).
  apply list_elem_of_lookup in Hrow as [k Hk].
  destruct (Forall2_lookup_l _ _ _ _ _ Hrows Hk) as (r & _ & Hacc).
  apply Hrefused. eapply accepted_not_refused, Hacc.
Qed.

(** A record whose intensity is not a number, as a witness of C1. *)
Lemma validateData_rows_witness :
  exists e,
    validateData
      [[("Metabolite", CStr "Glucose"); ("RetentionTime", CNum (of_Z 1));
        ("Intensity", CStr "n/a")]]
    = Throw e.
Proof.
  destruct (validateData_rows
              [[("Metabolite", CStr "Glucose"); ("RetentionTime", CNum (of_Z 1));
                ("Intensity", CStr "n/a")]]) as [_ H].
  apply (H [("Metabolite", CStr "Glucose"); ("RetentionTime", CNum (of_Z 1));
            ("Intensity", CStr "n/a")]).
  - apply list_elem_of_here.
  - vm_compute. discriminate.
Defined.

(** C6, where the code departs from the claim.  [parseFloat] reads the
    longest numeric prefix of a text, so a cell such as [12abc], which is
    not numeric, is accepted as 12. *)
Lemma validateData_accepts_numeric_prefix :
  numeric (CStr "12abc") = false
  /\ validateData
       [[("Metabolite", CStr "Glucose"); ("RetentionTime", CStr "12abc");
         ("Intensity", CNum (of_Z 100))]]
     = Normal [mkRow "Glucose" (of_Z 12) (of_Z 100) []].
Proof. split; vm_compute; reflexivity. Qed.

(** C6, as the code has it.  For data with at least one record: if required
    columns are absent from the header, compared without regard to case,
    validation fails with the error that lists exactly those columns;
    otherwise, if some record has a retention time or intensity cell that
    [parseFloat] turns into NaN, or a name cell that is empty or not a text,
    validation fails with the error that carries the number, counted from
    one, of the first such record.  So data without an Intensity column are
    rejected with "Missing required columns: Intensity", and a retention
    time [abc] in the second record with "Row 2: Invalid retention time at
    row 2". *)
Theorem validateData_errors (data : list record) :
  data <> [] ->
  (forall col, col ∈ missingColumns (header data)
               <-> col ∈ requiredColumns /\ absent data col)
  /\ (missingColumns (header data) <> [] ->
      validateData data
      = Throw (MissingColumns (missingColumns (header data))))
  /\ (missingColumns (header data) = [] ->
      forall k row reason,
        data !! k = Some row ->
        refusal data row = Some reason ->
        (forall j row', j < k -> data !! j = Some row' ->
                        refusal data row' = None) ->
        validateData data = Throw (RowError (k + 1) reason))
  /\ (validateData
        [[("Metabolite", CStr "Glucose"); ("RetentionTime", CNum (of_Z 1))]]
      = Throw (MissingColumns ["Intensity"])
      /\ message (MissingColumns ["Intensity"])
         = "Missing required columns: Intensity")
  /\ (validateData
        [[("metabolite", CStr "Glucose"); ("retentionTime", CNum (of_Z 1));
          ("INTENSITY", CNum (of_Z 100))];
         [("metabolite", CStr "Citrate"); ("retentionTime", CStr "abc");
          ("INTENSITY", CNum (of_Z 50))]]
      = Throw (RowError 2 InvalidRetentionTime)
      /\ message (RowError 2 InvalidRetentionTime)
         = "Row 2: Invalid retention time at row 2").
Proof.
  intros Hne.
  split; [apply missingColumns_absent|].
  split.
  { intros Hmissing. rewrite validateData_unfold.
    destruct data as [|first rest]; [congruence|].
    destruct (missingColumns (header (first :: rest))); [congruence|].
    reflexivity. }
  split.
  { intros Hnone k row reason Hk Hr Hbefore. rewrite validateData_unfold.
    destruct data as [|first rest]; [congruence|].
    rewrite Hnone.
    now rewrite (validate_rows_first _ _ 0 k row reason). }
  repeat split; vm_compute; reflexivity.
Qed.

(** Two required columns absent, as a witness of C6. *)
Lemma validateData_errors_witness :
  validateData [[("Metabolite", CStr "Glucose"); ("Area", CNum (of_Z 3))]]
  = Throw (MissingColumns ["RetentionTime"; "Intensity"]).
Proof.
  destruct (validateData_errors
              [[("Metabolite", CStr "Glucose"); ("Area", CNum (of_Z 3))]])
    as (_ & H & _).
  - discriminate.
  - apply H. vm_compute. discriminate.
Defined.

(** ** Processing: exceptions *)

(** C9, where the code departs from the claim.  An empty series is no
    malformed input for the code: [processData] returns three empty results
    and [findPeaks] returns no peak; nothing is thrown. *)
Lemma processData_empty_series :
  processData (Some [])
  = Normal {| chromatogramData :=
                {| times := []; intensities := []; labels := [] |};
              massSpectraData :=
                {| metabolites := []; mean_intensities := [] |};
              extracted_metabolites := [] |}
  /\ findPeaks [] default_threshold = [].
Proof. split; reflexivity. Qed.

(** C9, as the code has it.  An error thrown by an extraction, as for data
    that is not an array, leaves [processData] as the same error: the
    [catch] throws it again and nothing is recovered.  Every array, the
    empty one too, is processed without an error. *)
Theorem processData_spec (data : option (list MeasurementRow)) :
  (forall e, iterate data = Throw e -> processData data = Throw e)
  /\ (forall rows, data = Some rows ->
        processData data
        = Normal {| chromatogramData := extractChromatogramData rows;
                    massSpectraData := extractMassSpectraData rows;
                    extracted_metabolites := extractMetabolites rows |})
  /\ processData None = Throw (ChromatogramAnalyzer.TypeError "data is not iterable").
Proof.
  split; [|split].
  - intros e He. unfold processData. rewrite He. reflexivity.
  - intros rows ->. reflexivity.
  - reflexivity.
Qed.

(** [null] in place of the rows, as a witness of C9. *)
Lemma processData_spec_witness :
  processData None = Throw (ChromatogramAnalyzer.TypeError "data is not iterable").
Proof.
  destruct (processData_spec None) as [H _].
  apply (H (ChromatogramAnalyzer.TypeError "data is not iterable")).
  reflexivity.
Defined.

(** ** The compound cache *)

Section CompoundCache.

Variable compoundName : string.

Lemma searchCompound_Normal (response : fetched cids_body) :
  exists found, searchCompound response = Normal found.
Proof.
  unfold searchCompound.
  destruct response as [reason|status| |[| |[|cid cids]]]; simpl; eauto.
Qed.

Lemma removed_task {A} (l : list A) (i : nat) (x y : A) :
  l !! i = Some x -> y ∈ take i l ++ drop (S i) l -> y ∈ l.
Proof.
  intros Hi Hy. rewrite <- (take_drop_middle l i x Hi).
  apply elem_of_app in Hy as [Hy|Hy]; apply elem_of_app; [now left|].
  right. now apply list_elem_of_further.
Qed.

Lemma not_removed {A} (l : list A) (i : nat) (x y : A) :
  l !! i = Some x -> y ∉ l -> y ∉ take i l ++ drop (S i) l.
Proof. intros Hi Hy Hin. apply Hy. eapply removed_task; eassumption. Qed.

(** As long as the cache is not cleared, a cached name stays cached. *)
Lemma cached_perform (st : State) (act : action) :
  act <> ClearCache ->
  is_Some (cache st !! compoundName) ->
  is_Some (cache (perform st act) !! compoundName).
Proof.
  intros Hact Hc. destruct act as [m|call response|task props structure|];
    [| | |congruence]; simpl.
  - unfold fetchCompoundInfo_enter. now destruct (cache st !! m).
  - unfold fetchCompoundInfo_resume.
    destruct (searching st !! call) as [m|]; [|exact Hc].
    destruct (searchCompound response) as [[cid|]|e]; simpl;
      try exact Hc; now apply lookup_insert_is_Some'; right.
  - unfold fetchAdditionalData.
    destruct (background st !! task) as [[cid m]|]; [|exact Hc].
    destruct (cache st !! m ≫= _); simpl; [|exact Hc].
    now apply lookup_insert_is_Some'; right.
Qed.

Lemma cached_after (later : list action) (st : State) :
  ClearCache ∉ later ->
  is_Some (cache st !! compoundName) ->
  is_Some (cache (after later st) !! compoundName).
Proof.
  revert st. induction later as [|act later IH]; intros st Hclear Hc;
    [exact Hc|].
  apply not_elem_of_cons in Hclear as [Hact Hclear].
  simpl. apply IH; [exact Hclear|]. apply cached_perform; congruence.
Qed.

(** With no other lookup of the name under way, its entry and its object
    stay as they are. *)
Lemma settled_at_perform (a : nat) (o : CompoundInfo) (st : State)
  (act : action) :
  act <> ClearCache ->
  settled_at compoundName a o st ->
  settled_at compoundName a o (perform st act).
Proof.
  intros Hact (Hc & Hh & Hs & Hb). unfold settled_at, quiet.
  destruct act as [m|call response|task props structure|];
    [| | |congruence]; simpl.
  - unfold fetchCompoundInfo_enter.
    destruct (cache st !! m) eqn:Hm; [now repeat split|]. simpl.
    assert (Hne : m <> compoundName) by congruence.
    repeat split; try assumption.
    rewrite elem_of_app, list_elem_of_singleton. intros [?|?]; congruence.
  - unfold fetchCompoundInfo_resume.
    destruct (searching st !! call) as [m|] eqn:Hcall; [|now repeat split].
    assert (Hne : m <> compoundName).
    { intros ->. apply Hs. eapply list_elem_of_lookup_2, Hcall. }
    pose proof (not_removed _ _ _ _ Hcall Hs) as Hrest.
    destruct (searchCompound response) as [[cid|]|e]; simpl.
    + split; [now rewrite lookup_insert_ne|].
      split; [now apply lookup_app_l_Some|]. split; [exact Hrest|].
      intros cid' Hin. apply elem_of_app in Hin as [Hin|Hin];
        [now apply (Hb cid')|].
      apply list_elem_of_singleton in Hin. congruence.
    + split; [now rewrite lookup_insert_ne|].
      split; [now apply lookup_app_l_Some|]. now split.
    + split; [exact Hc|].
      split; [now apply lookup_app_l_Some|]. now split.
  - unfold fetchAdditionalData.
    destruct (background st !! task) as [[cid m]|] eqn:Ht;
      [|now repeat split].
    assert (Hne : m <> compoundName).
    { intros ->. apply (Hb cid). eapply list_elem_of_lookup_2, Ht. }
    destruct (cache st !! m ≫= _); simpl.
    + split; [now rewrite lookup_insert_ne|].
      split; [now apply lookup_app_l_Some|]. split; [exact Hs|].
      intros cid' Hin. apply (Hb cid'). eapply removed_task; eassumption.
    + split; [exact Hc|]. split; [exact Hh|]. split; [exact Hs|].
      intros cid' Hin. apply (Hb cid'). eapply removed_task; eassumption.
Qed.

Lemma settled_at_after (a : nat) (o : CompoundInfo) (later : list action)
  (st : State) :
  ClearCache ∉ later ->
  settled_at compoundName a o st ->
  settled_at compoundName a o (after later st).
Proof.
  revert st. induction later as [|act later IH]; intros st Hclear Hinv;
    [exact Hinv|].
  apply not_elem_of_cons in Hclear as [Hact Hclear].
  simpl. apply IH; [exact Hclear|]. apply settled_at_perform; congruence.
Qed.

End CompoundCache.

(** C7, where the code departs from the claim.  Two calls for one name that
    overlap both miss the cache and both queue a request.  The first ends
    with no identifier: its not-found result is returned and cached.  The
    second ends with an identifier and writes the cache without reading it
    again.  A call made after that returns the object of the second call,
    whose id is not "Not found". *)
Lemma fetchCompoundInfo_overlapping :
  requested (after [Call "Glucose"; Call "Glucose"] initial)
  = [SearchByName "Glucose"; SearchByName "Glucose"]
  /\ searching (after [Call "Glucose"; Call "Glucose"] initial)
     = ["Glucose"; "Glucose"]
  /\ searchCompound (NetworkFailure "Failed to fetch") = Normal None
  /\ exists st1 st2,
       fetchCompoundInfo_resume 0 (NetworkFailure "Failed to fetch")
         (after [Call "Glucose"; Call "Glucose"] initial)
       = (Some (Normal 0), st1)
       /\ heap st1 !! 0 = Some (not_found "Glucose")
       /\ cache st1 !! "Glucose" = Some 0
       /\ st2 = after [SearchSettled 0 (Json (CIDs [5793%Z]))] st1
       /\ fetchCompoundInfo_enter "Glucose" st2 = (Some 1, st2)
       /\ id <$> heap st2 !! 1 = Some "5793".
Proof.
  split; [reflexivity|]. split; [reflexivity|]. split; [reflexivity|].
  eexists _, _. split; [reflexivity|].
  repeat split; vm_compute; reflexivity.
Qed.

(** C7, as the code has it.  A call of [fetchCompoundInfo] that goes on
    after its search never throws.  When the search found no identifier,
    the call returns an object with the id "Not found" and the name, and
    caches it.  As long as the cache is not cleared, every call made
    afterwards with the same name finds the name cached and returns the
    cached object, leaving the state as it is, so that no request is
    queued; and when no other lookup of the name was under way, that object
    is the very not-found result. *)
Theorem fetchCompoundInfo_not_found (st : State) (call : nat)
  (compoundName : string) (response : fetched cids_body) :
  (forall st0 c r k,
      searching st0 !! c = Some k ->
      exists a st', fetchCompoundInfo_resume c r st0 = (Some (Normal a), st'))
  /\ (searching st !! call = Some compoundName ->
      searchCompound response = Normal None ->
      exists a st1,
        fetchCompoundInfo_resume call response st = (Some (Normal a), st1)
        /\ heap st1 !! a = Some (not_found compoundName)
        /\ cache st1 !! compoundName = Some a
        /\ forall later,
             ClearCache ∉ later ->
             (exists a2,
                 fetchCompoundInfo_enter compoundName (after later st1)
                 = (Some a2, after later st1)
                 /\ cache (after later st1) !! compoundName = Some a2)
             /\ (quiet compoundName st1 ->
                 fetchCompoundInfo_enter compoundName (after later st1)
                 = (Some a, after later st1)
                 /\ heap (after later st1) !! a
                    = Some (not_found compoundName))).
Proof.
  split.
  { intros st0 c r k Hc. unfold fetchCompoundInfo_resume. rewrite Hc.
    destruct (searchCompound r) as [[cid|]|e]; eauto. }
  intros Hcall Hsearch.
  unfold fetchCompoundInfo_resume. rewrite Hcall, Hsearch.
  eexists _, _. split; [reflexivity|]. cbn [heap cache].
  split; [apply list_lookup_middle; reflexivity|].
  split; [apply lookup_insert_eq|].
  intros later Hclear. split.
  - match goal with |- context [after later ?s] => set (st1 := s) end.
    destruct (cached_after compoundName later st1 Hclear) as [a2 Ha2].
    { subst st1. cbn [cache]. rewrite lookup_insert_eq. eauto. }
    exists a2. unfold fetchCompoundInfo_enter. now rewrite Ha2.
  - match goal with |- context [after later ?s] => set (st1 := s) end.
    intros Hquiet.
    assert (Hsettled : settled_at compoundName (length (heap st))
                         (not_found compoundName) st1).
    { split; [apply lookup_insert_eq|].
      split; [apply list_lookup_middle; reflexivity|exact Hquiet]. }
    destruct (settled_at_after compoundName _ _ later _ Hclear Hsettled)
      as (Hc & Hh & _).
    unfold fetchCompoundInfo_enter. now rewrite Hc.
Qed.

(** A name that PubChem does not know, looked up again after another
    compound was looked up and enriched, as a witness of C7. *)
Lemma fetchCompoundInfo_not_found_witness :
  exists a st1,
    fetchCompoundInfo_resume 0 (Json (CIDs []))
      (after [Call "Glucose"; SearchSettled 0 (Json (CIDs [5793%Z]));
              Call "Unobtainium"] initial)
    = (Some (Normal a), st1)
    /\ fetchCompoundInfo_enter "Unobtainium"
         (after [Call "Citrate"; SearchSettled 0 (StatusNotOk 404);
                 Enrich 0 [("MolecularFormula", "C6H12O6")] None] st1)
       = (Some a,
          after [Call "Citrate"; SearchSettled 0 (StatusNotOk 404);
                 Enrich 0 [("MolecularFormula", "C6H12O6")] None] st1).
Proof.
  destruct (fetchCompoundInfo_not_found
              (after [Call "Glucose"; SearchSettled 0 (Json (CIDs [5793%Z]));
                      Call "Unobtainium"] initial)
              0 "Unobtainium" (Json (CIDs []))) as [_ H].
  destruct H as (a & st1 & H1 & _ & _ & H2); [reflexivity|reflexivity|].
  exists a, st1. split; [exact H1|].
  apply (H2 [Call "Citrate"; SearchSettled 0 (StatusNotOk 404);
             Enrich 0 [("MolecularFormula", "C6H12O6")] None]).
  - intros Hin.
    repeat (apply elem_of_cons in Hin as [Hin|Hin]; [discriminate|]).
    now apply elem_of_nil in Hin.
  - vm_compute in H1. injection H1 as _ <-. split.
    + cbn [searching]. intros Hin. now apply elem_of_nil in Hin.
    + cbn [background]. intros cid Hin.
      apply list_elem_of_singleton in Hin. discriminate.
Defined.

(** ** The request queue: one at a time, in order, spaced *)

Section RequestQueue.

Lemma spaced_snoc (gap : nat) (ts : list nat) (t : nat) :
  spaced gap ts ->
  (forall t0, last ts = Some t0 -> t0 + gap <= t) ->
  spaced gap (ts ++ [t]).
Proof.
  induction ts as [|t1 ts IH]; intros Hs Hlast; [exact I|].
  destruct ts as [|t2 ts].
  - simpl. split; [|exact I]. now apply Hlast.
  - destruct Hs as [H12 Hs]. split; [exact H12|].
    apply IH; [exact Hs|exact Hlast].
Qed.

Lemma last_time (q : Queue) (t0 : nat) :
  last (map fst (dispatched q)) = Some t0 ->
  exists r, last (dispatched q) = Some (t0, r).
Proof.
  change (map fst (dispatched q)) with (fst <$> dispatched q).
  rewrite fmap_last. destruct (last (dispatched q)) as [[t r]|]; simpl;
    [|discriminate].
  intros [= ->]. now exists r.
Qed.

(** Going round the loop keeps the invariant, when the flag is set, no
    fetch is pending and the latest dispatch is a full delay back. *)
Lemma loop_head_invariant (q : Queue) :
  pushed q = map snd (dispatched q) ++ requestQueue q ->
  spaced requestDelay (map fst (dispatched q)) ->
  isProcessingQueue q = true ->
  settled q = length (dispatched q) ->
  last_dispatch_before q requestDelay (clock q) ->
  queue_invariant (loop_head q).
Proof.
  intros Hfifo Hspaced Hflag Hsettled Hlast. unfold loop_head, queue_invariant.
  destruct (requestQueue q) as [|r rest] eqn:Hq; simpl.
  - repeat split; try assumption.
  - rewrite !map_app, <- app_assoc. simpl.
    split; [exact Hfifo|]. split.
    + apply spaced_snoc; [exact Hspaced|].
      intros t0 Ht0. apply last_time in Ht0 as [r0 Ht0]. eapply Hlast, Ht0.
    + split; [exact Hflag|]. split; [rewrite length_app; simpl; lia|].
      intros t r'. unfold last_dispatch_before. simpl.
      rewrite last_snoc. intros [= <- <-]. lia.
Qed.

Lemma step_invariant (q q' : Queue) (e : event) :
  queue_invariant q -> step q e = Some q' -> queue_invariant q'.
Proof.
  intros (Hfifo & Hspaced & Hsus) Hstep.
  destruct e as [r| | |ms]; simpl in Hstep.
  - injection Hstep as <-. unfold queueRequest, processQueue. simpl.
    destruct (suspended q) as [|r0|deadline] eqn:Hs.
    + destruct Hsus as (Hflag & Hempty & Hsettled & Hlast).
      rewrite Hflag. apply loop_head_invariant; simpl; try assumption.
      * rewrite Hfifo. now rewrite app_assoc.
      * reflexivity.
    + destruct Hsus as (Hflag & Hsus). rewrite Hflag.
      unfold queue_invariant. simpl.
      split; [rewrite Hfifo; now rewrite app_assoc|]. now split.
    + destruct Hsus as (Hflag & Hsus). rewrite Hflag.
      unfold queue_invariant. simpl.
      split; [rewrite Hfifo; now rewrite app_assoc|]. now split.
  - destruct (suspended q) as [|r0|deadline] eqn:Hs; try discriminate.
    injection Hstep as <-. destruct Hsus as (Hflag & Hlen & Hlast).
    unfold queue_invariant. simpl.
    split; [exact Hfifo|]. split; [exact Hspaced|].
    split; [exact Hflag|]. split; [lia|].
    intros t r Ht. specialize (Hlast t r Ht). lia.
  - destruct (suspended q) as [|r0|deadline] eqn:Hs; try discriminate.
    destruct (deadline <=? clock q) eqn:Hdue; [|discriminate].
    injection Hstep as <-. apply Nat.leb_le in Hdue.
    destruct Hsus as (Hflag & Hsettled & Hlast).
    apply loop_head_invariant; try assumption.
    intros t r Ht. specialize (Hlast t r Ht). lia.
  - injection Hstep as <-. unfold queue_invariant. simpl.
    split; [exact Hfifo|]. split; [exact Hspaced|].
    destruct (suspended q) as [|r0|deadline].
    + destruct Hsus as (Hflag & Hempty & Hsettled & Hlast).
      repeat split; try assumption.
      intros t r Ht. specialize (Hlast t r Ht). simpl. lia.
    + destruct Hsus as (Hflag & Hlen & Hlast).
      repeat split; try assumption.
      intros t r Ht. specialize (Hlast t r Ht). simpl. lia.
    + exact Hsus.
Qed.

Lemma run_invariant (events : list event) (q q' : Queue) :
  queue_invariant q -> run q events = Some q' -> queue_invariant q'.
Proof.
  revert q. induction events as [|e events IH]; intros q Hinv; simpl.
  - now intros [= <-].
  - destruct (step q e) as [q1|] eqn:Hstep; [|discriminate].
    apply IH. eapply step_invariant; eassumption.
Qed.

Lemma empty_queue_invariant : queue_invariant empty_queue.
Proof.
  unfold queue_invariant. simpl. repeat split; try reflexivity.
  intros t r. discriminate.
Qed.

End RequestQueue.

(** C10.  In every state that the queue reaches, however many requests the
    callers push and whenever they push them: no more fetches have settled
    than were started and at most one fetch is in flight; the requests dispatched so far, in the order of dispatch,
    followed by the requests that still wait, are the requests in the order
    they were pushed; and successive dispatches are at least 300 ms apart. *)
Theorem processQueue_rate_limited (events : list event) (q : Queue) :
  run empty_queue events = Some q ->
  settled q <= length (dispatched q)
  /\ in_flight q <= 1
  /\ map snd (dispatched q) ++ requestQueue q = pushed q
  /\ spaced 300 (map fst (dispatched q)).
Proof.
  intros Hrun.
  destruct (run_invariant events empty_queue q empty_queue_invariant Hrun)
    as (Hfifo & Hspaced & Hsus).
  unfold in_flight.
  repeat split; [| |now symmetry|exact Hspaced];
    destruct (suspended q); lia.
Qed.

(** Three callers at once, then the loop running its course, as a witness
    of C10. *)
Lemma processQueue_rate_limited_witness :
  exists q,
    run empty_queue
      [Enqueue (SearchByName "Glucose"); Enqueue (SearchByName "Citrate");
       Enqueue (SearchByName "Malate"); Elapse 40; FetchSettled;
       Elapse 300; TimerFired; Elapse 25; FetchSettled; Elapse 310;
       TimerFired]
    = Some q
    /\ map fst (dispatched q) = [0; 340; 675]
    /\ in_flight q <= 1
    /\ spaced 300 (map fst (dispatched q)).
Proof.
  pose proof (processQueue_rate_limited
    [Enqueue (SearchByName "Glucose"); Enqueue (SearchByName "Citrate");
     Enqueue (SearchByName "Malate"); Elapse 40; FetchSettled;
     Elapse 300; TimerFired; Elapse 25; FetchSettled; Elapse 310;
     TimerFired]) as H.
  destruct (run empty_queue _) as [q|] eqn:Hrun;
    [|vm_compute in Hrun; discriminate].
  exists q. split; [reflexivity|]. split.
  - vm_compute in Hrun. injection Hrun as <-. vm_compute. reflexivity.
  - destruct (H q eq_refl) as (_ & Hone & _ & Hspaced). now split.
Defined.

(** ** The pathway graph: adding twice *)

Section PathwayGraph.

Lemma cy_add_known (g : Graph) (e : element) :
  has_id g (element_id e) = true -> cy_add g e = g.
Proof. intros H. unfold cy_add. now rewrite H. Qed.

Lemma has_id_cy_add (g : Graph) (e : element) (i : string) :
  has_id (cy_add g e) i = true <-> has_id g i = true \/ i = element_id e.
Proof.
  unfold cy_add. destruct (has_id g (element_id e)) eqn:He.
  - split; [tauto|]. intros [H| ->]; assumption.
  - unfold has_id. rewrite !bool_decide_eq_true, map_app, elem_of_app.
    simpl. rewrite list_elem_of_singleton. reflexivity.
Qed.

Lemma has_id_cy_add_all (g : Graph) (es : list element) (i : string) :
  has_id (cy_add_all g es) i = true
  <-> has_id g i = true \/ i ∈ map element_id es.
Proof.
  revert g. induction es as [|e es IH]; intros g; simpl.
  - rewrite elem_of_nil. tauto.
  - unfold cy_add_all in *. simpl. rewrite IH, has_id_cy_add, elem_of_cons.
    tauto.
Qed.



Lemma cy_add_all_app (g : Graph) (es1 es2 : list element) :
  cy_add_all g (es1 ++ es2) = cy_add_all (cy_add_all g es1) es2.
Proof. apply fold_left_app. Qed.


Lemma add_reactions_all (m : string) (g : Graph)
  (indexed : list (nat * string)) :
  fold_left (add_reaction m) indexed g
  = cy_add_all g
      (flat_map
         (fun '(index, reaction_label) =>
            [Node ("r_" +:+ m +:+ "_" +:+ pretty index) reaction_label reaction;
             Edge ("e_" +:+ m +:+ "_reaction_" +:+ pretty index)
                  ("m_" +:+ m) ("r_" +:+ m +:+ "_" +:+ pretty index)
                  "participates in"])
         indexed).
Proof.
  revert g. induction indexed as [|[index reaction_label] rest IH];
    intros g; [reflexivity|].
  simpl. rewrite IH. reflexivity.
Qed.

Lemma addPathwayConnections_all (pathwayInfo : pathway_value) (g : Graph) :
  addPathwayConnections pathwayInfo g
  = cy_add_all g (pathway_elements pathwayInfo).
Proof.
  destruct pathwayInfo as [info|property]; [|reflexivity].
  unfold addPathwayConnections, pathway_elements, entry_elements.
  rewrite add_reactions_all, cy_add_all_app. f_equal.
  destruct (truthy (pi_pathway info)); [|reflexivity].
  pose proof (cy_add_known g
                (Node ("p_" +:+ pi_pathway info) (pi_pathway info) pathway))
    as Hknown.
  simpl in Hknown. unfold cy_add_all. simpl.
  destruct (has_id g ("p_" +:+ pi_pathway info)); [|reflexivity].
  now rewrite Hknown.
Qed.

Lemma addMetaboliteToPathway_all (m gene_id : string) (g : Graph) :
  addMetaboliteToPathway m gene_id {| initialized := true; cy := Some g |}
  = {| initialized := true; cy := Some (cy_add_all g (offered m gene_id)) |}.
Proof.
  unfold addMetaboliteToPathway. cbn [initialized cy].
  unfold offered. rewrite cy_add_all_app.
  destruct (getPathwayInformation m) as [info|]; [|reflexivity].
  now rewrite addPathwayConnections_all.
Qed.

End PathwayGraph.

Section PathwayCounts.

Variables metaboliteName geneLocusId : string.



End PathwayCounts.


(** * Further properties of the code *)

(** ** Peaks: strictness and NaN *)

Section PeakFacts.

Lemma findPeaks_In (intensities : list number) (threshold : number)
  (i : nat) :
  In i (findPeaks intensities threshold)
  <-> 1 <= i /\ i + 2 <= length intensities
      /\ peak_test intensities threshold i = true.
Proof.
  rewrite findPeaks_filter, filter_In, in_seq. split.
  - intros [Hi Ht]. repeat split; try assumption; lia.
  - intros (Hlo & Hhi & Ht). split; [lia|exact Ht].
Qed.

Lemma gtb_NaN_r (a : number) : (a >? NaN)%num = false.
Proof. reflexivity. Qed.

Lemma mul_NaN_l (a : number) : (NaN * a)%num = NaN.
Proof. reflexivity. Qed.

Lemma mul_NaN_r (a : number) : (a * NaN)%num = NaN.
Proof. now destruct a. Qed.

Lemma max2_NaN_l (x : number) : max2 NaN x = NaN.
Proof. reflexivity. Qed.

Lemma fold_max2_NaN (l : list number) : fold_left max2 l NaN = NaN.
Proof. induction l as [|x l IH]; [reflexivity|]. simpl. exact IH. Qed.

Lemma fold_max2_poisoned (l : list number) (acc : number) :
  (exists x, In x l /\ isNaN x = true) -> fold_left max2 l acc = NaN.
Proof.
  revert acc. induction l as [|y l IH]; intros acc [x [Hin Hx]];
    [destruct Hin|].
  simpl. destruct Hin as [->|Hin].
  - unfold max2 at 2. rewrite Hx, orb_true_r. apply fold_max2_NaN.
  - apply IH. now exists x.
Qed.

End PeakFacts.

(** Two neighbouring points are never both peaks, and a point that equals a
    neighbour is no peak: the comparisons with the neighbours are strict. *)
Theorem findPeaks_isolated (intensities : list number) (threshold : number)
  (i : nat) :
  (In i (findPeaks intensities threshold) ->
   ~ In (i + 1) (findPeaks intensities threshold))
  /\ (at_index intensities i = at_index intensities (i + 1) ->
      ~ In i (findPeaks intensities threshold)
      /\ ~ In (i + 1) (findPeaks intensities threshold)).
Proof.
  split.
  - rewrite !findPeaks_In. unfold peak_test.
    intros (_ & _ & Hi) (_ & _ & Hnext).
    rewrite !andb_true_iff in Hi, Hnext.
    destruct Hi as [_ Hi]. destruct Hnext as [[_ Hnext] _].
    replace (i + 1 - 1) with i in Hnext by lia.
    unfold gtb in Hi, Hnext. apply ltb_asym in Hi. congruence.
  - intros Heq. rewrite !findPeaks_In. unfold peak_test. split.
    + intros (_ & _ & Hi). rewrite !andb_true_iff in Hi.
      destruct Hi as [_ Hi]. unfold gtb in Hi.
      rewrite Heq, ltb_irrefl in Hi. discriminate.
    + intros (_ & _ & Hnext). rewrite !andb_true_iff in Hnext.
      destruct Hnext as [[_ Hnext] _].
      replace (i + 1 - 1) with i in Hnext by lia. unfold gtb in Hnext.
      rewrite Heq, ltb_irrefl in Hnext. discriminate.
Qed.

(** A plateau of two equal points next to the highest, as a witness. *)
Lemma findPeaks_isolated_witness :
  ~ In 1 (findPeaks (map of_Z [1; 5; 5; 1]%Z) default_threshold)
  /\ ~ In 2 (findPeaks (map of_Z [1; 5; 5; 1]%Z) default_threshold).
Proof.
  apply (findPeaks_isolated (map of_Z [1; 5; 5; 1]%Z) default_threshold 1).
  reflexivity.
Defined.

(** No peak is found in fewer than three points, nor when an intensity or
    the threshold is NaN: the minimum height is then NaN and every
    comparison with it is false. *)
Theorem findPeaks_none (intensities : list number) (threshold : number) :
  length intensities < 3
  \/ isNaN threshold = true
  \/ (exists x, In x intensities /\ isNaN x = true) ->
  findPeaks intensities threshold = [].
Proof.
  intros H. rewrite findPeaks_filter. apply filter_none. intros i Hi.
  apply in_seq in Hi. destruct H as [Hshort|[Hnan|Hnan]]; [lia| |].
  - unfold peak_test. destruct threshold; try discriminate.
    now rewrite mul_NaN_l, gtb_NaN_r.
  - unfold peak_test, Math_max. rewrite (fold_max2_poisoned _ _ Hnan).
    now rewrite mul_NaN_r, gtb_NaN_r.
Qed.

(** One missing reading among clear peaks, as a witness. *)
Lemma findPeaks_none_witness :
  findPeaks [of_Z 1; of_Z 9; of_Z 1; NaN; of_Z 1; of_Z 7; of_Z 1]
    default_threshold = [].
Proof.
  apply findPeaks_none. right. right. exists NaN. split; [|reflexivity].
  simpl. tauto.
Defined.

(** ** Area: lengths that differ, and the sign *)

Section AreaFacts.

Lemma calculateArea_sum (times values : list number) :
  calculateArea times values
  = sum_from_1 (trapezoid times values) (length times - 1).
Proof. unfold calculateArea. apply (loop_sum (trapezoid times values)). Qed.

Lemma add_NaN_r (a : number) : (a + NaN)%num = NaN.
Proof. now destruct a. Qed.

Lemma sum_from_1_NaN (f : nat -> number) (n i : nat) :
  1 <= i <= n -> f i = NaN -> sum_from_1 f n = NaN.
Proof.
  induction n as [|n IH]; intros Hi Hf; [lia|].
  simpl. destruct (decide (i = S n)) as [->|Hne].
  - rewrite Hf. apply add_NaN_r.
  - rewrite IH by (try lia; exact Hf). reflexivity.
Qed.

Lemma at_index_beyond (l : list number) (i : nat) :
  length l <= i -> at_index l i = NaN.
Proof. apply nth_overflow. Qed.

Lemma at_index_take (l : list number) (n i : nat) :
  i < n -> at_index (take n l) i = at_index l i.
Proof.
  revert n i. induction l as [|x l IH]; intros n i Hi.
  - now rewrite take_nil.
  - destruct n as [|n]; [lia|]. destruct i as [|i]; [reflexivity|].
    simpl. apply IH. lia.
Qed.

Lemma ascending_adjacent (l : list number) (i : nat) :
  ascending l -> i + 1 < length l ->
  (at_index l i <=? at_index l (i + 1))%num = true.
Proof.
  intros Hs. revert i. induction Hs as [|x l Hs IH Hx]; intros i Hi;
    [simpl in Hi; lia|].
  destruct i as [|i].
  - destruct l as [|y l]; [simpl in Hi; lia|].
    simpl. now apply Forall_cons in Hx as [Hx _].
  - simpl. apply IH. simpl in Hi. lia.
Qed.

Lemma at_index_Forall (P : number -> Prop) (l : list number) (i : nat) :
  Forall P l -> i < length l -> P (at_index l i).
Proof.
  intros Hl Hi. rewrite List.Forall_forall in Hl. apply Hl.
  now apply nth_In.
Qed.

Lemma nonnegative_not_negative (x : number) :
  nonnegative x = true -> (x <? of_Z 0)%num = false.
Proof.
  unfold nonnegative, leb. rewrite !andb_true_iff, !negb_true_iff. tauto.
Qed.

Lemma add_not_negative (a b : number) :
  (a <? of_Z 0)%num = false -> (b <? of_Z 0)%num = false ->
  (a + b <? of_Z 0)%num = false.
Proof.
  rewrite of_Z_0.
  destruct a as [| | |x], b as [| | |y]; try reflexivity; try discriminate.
  simpl. rewrite !Z.ltb_ge. intros Hx Hy.
  change ((round64 (x + y) 1 <? Fin 0)%num = false).
  apply round64_nonneg; lia.
Qed.

Lemma sub_ordered (a b : number) :
  (a <=? b)%num = true -> (b - a <? of_Z 0)%num = false.
Proof.
  rewrite of_Z_0. unfold leb, sub.
  destruct a as [| | |x], b as [| | |y]; try reflexivity; try discriminate.
  simpl. rewrite negb_true_iff, Z.ltb_ge. intros Hxy.
  change ((round64 (y + - x) 1 <? Fin 0)%num = false).
  apply round64_nonneg; lia.
Qed.

Lemma mul_not_negative (a b : number) :
  (a <? of_Z 0)%num = false -> (b <? of_Z 0)%num = false ->
  (a * b <? of_Z 0)%num = false.
Proof.
  rewrite of_Z_0.
  destruct a as [| | |x], b as [| | |y]; try reflexivity; try discriminate;
    simpl; rewrite ?Z.ltb_ge.
  - intros _ Hy. destruct (Z.eqb_spec y 0); [reflexivity|].
    now replace (y <? 0)%Z with false by (symmetry; apply Z.ltb_ge; lia).
  - intros Hx _. destruct (Z.eqb_spec x 0); [reflexivity|].
    now replace (x <? 0)%Z with false by (symmetry; apply Z.ltb_ge; lia).
  - intros Hx Hy.
    change ((round64 (x * y) one <? Fin 0)%num = false).
    apply round64_nonneg; [nia|exact one_pos].
Qed.

Lemma div_not_negative (a : number) (y : Z) :
  (0 < y)%Z -> (a <? of_Z 0)%num = false ->
  (a / Fin y <? of_Z 0)%num = false.
Proof.
  rewrite of_Z_0. intros Hy.
  destruct a as [| | |x]; try reflexivity; try discriminate.
  - intros _. simpl.
    now replace (y <? 0)%Z with false by (symmetry; apply Z.ltb_ge; lia).
  - simpl. rewrite Z.ltb_ge. intros Hx.
    destruct (Z.eqb_spec y 0); [lia|].
    change ((round64 (Z.sgn y * x * one) (Z.abs y) <? Fin 0)%num = false).
    pose proof one_pos. apply round64_nonneg; [nia|lia].
Qed.

Lemma of_Z_2 : of_Z 2 = Fin (2 * one).
Proof. vm_compute. reflexivity. Qed.

Lemma at_index_not_negative (values : list number) (i : nat) :
  Forall (fun x => nonnegative x = true) values ->
  (at_index values i <? of_Z 0)%num = false.
Proof.
  intros Hval. destruct (Nat.lt_ge_cases i (length values)) as [Hi|Hi].
  - apply nonnegative_not_negative. now apply at_index_Forall.
  - now rewrite at_index_beyond.
Qed.

Lemma trapezoid_not_negative (times values : list number) (i : nat) :
  ascending times ->
  Forall (fun x => nonnegative x = true) values ->
  1 <= i -> i < length times ->
  (trapezoid times values i <? of_Z 0)%num = false.
Proof.
  intros Hasc Hval Hlo Hhi.
  pose proof (ascending_adjacent times (i - 1) Hasc) as Hle.
  replace (i - 1 + 1) with i in Hle by lia. specialize (Hle Hhi).
  unfold trapezoid. apply mul_not_negative; [now apply sub_ordered|].
  rewrite of_Z_2. apply div_not_negative; [pose proof one_pos; lia|].
  apply add_not_negative; now apply at_index_not_negative.
Qed.

End AreaFacts.

(** When [intensities] is shorter than [times], which has two points or
    more, the area is NaN: the missing intensities read as [undefined]. *)
Theorem calculateArea_short_intensities (times values : list number) :
  2 <= length times -> length values < length times ->
  calculateArea times values = NaN.
Proof.
  intros Htwo Hshort. rewrite calculateArea_sum.
  apply (sum_from_1_NaN _ _ (length times - 1)); [lia|].
  unfold trapezoid. rewrite (at_index_beyond values) by lia.
  now rewrite mul_NaN_r.
Qed.

(** Three times and two intensities, as a witness. *)
Lemma calculateArea_short_intensities_witness :
  calculateArea (map of_Z [0; 1; 2]%Z) (map of_Z [4; 4]%Z) = NaN.
Proof. apply calculateArea_short_intensities; simpl; lia. Defined.

(** Intensities beyond the number of times play no part in the area. *)
Theorem calculateArea_extra_intensities (times values : list number) :
  calculateArea times (take (length times) values)
  = calculateArea times values.
Proof.
  rewrite !calculateArea_sum. apply sum_from_1_ext. intros i Hi.
  unfold trapezoid. now rewrite !at_index_take by lia.
Qed.

(** For times that do not decrease and intensities that are not negative,
    the area is never negative, whatever is rounded or overflows on the
    way: it is NaN or at least zero. *)
Theorem calculateArea_not_negative (times values : list number) :
  ascending times ->
  Forall (fun x => nonnegative x = true) values ->
  (calculateArea times values <? of_Z 0)%num = false.
Proof.
  intros Hasc Hval. rewrite calculateArea_sum.
  assert (H : forall n, n <= length times - 1 ->
            (sum_from_1 (trapezoid times values) n <? of_Z 0)%num = false).
  { induction n as [|n IH]; intros Hn; [now rewrite of_Z_0|].
    simpl. apply add_not_negative; [apply IH; lia|].
    apply trapezoid_not_negative; try assumption; lia. }
  now apply H.
Qed.

(** Two of the largest doubles above one time: the sum of the intensities
    overflows, the step in time is zero and the area is NaN; as a
    witness. *)
Lemma calculateArea_not_negative_witness :
  calculateArea [of_Z 1; of_Z 1] [MAX_VALUE; MAX_VALUE] = NaN
  /\ (calculateArea [of_Z 1; of_Z 1] [MAX_VALUE; MAX_VALUE]
      <? of_Z 0)%num = false.
Proof.
  split; [vm_compute; reflexivity|].
  apply calculateArea_not_negative.
  - repeat constructor.
  - repeat constructor.
Defined.

(** ** The metabolites of the table *)

Section Metabolites.

Lemma find_app_found {A} (f : A -> bool) (l l' : list A) (x : A) :
  List.find f l = Some x -> List.find f (l ++ l') = Some x.
Proof.
  induction l as [|y l IH]; [discriminate|].
  simpl. destruct (f y); [trivial|exact IH].
Qed.

Lemma find_app_missed {A} (f : A -> bool) (l l' : list A) :
  (forall x, In x l -> f x = false) ->
  List.find f (l ++ l') = List.find f l'.
Proof.
  induction l as [|y l IH]; intros H; [reflexivity|].
  simpl. rewrite (H y) by now left. apply IH. intros x Hx. apply H.
  now right.
Qed.

(** The map that the loop of [extractMetabolites] builds. *)
Let metaboliteMap (data : list MeasurementRow) : Map MeasurementRow :=
  fold_left
    (fun m row => if Map_has m (name row) then m else Map_set m (name row) row)
    data [].

Lemma metaboliteMap_spec (data : list MeasurementRow) :
  exists out,
    metaboliteMap data = map (fun r => (name r, r)) out
    /\ map name out = first_occurrences (map name data)
    /\ Forall (fun r => first_row (name r) data = Some r) out.
Proof.
  induction data as [|row data (out & Hm & Hnames & Hfirst)] using rev_ind.
  - exists []. repeat split. constructor.
  - assert (Hstep : metaboliteMap (data ++ [row])
                    = if Map_has (metaboliteMap data) (name row)
                      then metaboliteMap data
                      else Map_set (metaboliteMap data) (name row) row).
    { unfold metaboliteMap. now rewrite fold_left_app. }
    assert (Hkeys : map fst (metaboliteMap data)
                    = first_occurrences (map name data)).
    { rewrite Hm, map_map. simpl. exact Hnames. }
    assert (Hold : Forall
              (fun r => first_row (name r) (data ++ [row]) = Some r) out).
    { eapply Forall_impl; [exact Hfirst|]. intros r Hr.
      now apply find_app_found. }
    pose proof (first_occurrences_snoc (map name data) (name row)) as Hsnoc.
    change [name row] with (map name [row]) in Hsnoc.
    rewrite <- (map_app name data [row]) in Hsnoc.
    unfold Map_has in Hstep. rewrite Hkeys in Hstep.
    destruct (decide (name row ∈ map name data)) as [Hin|Hout].
    + rewrite bool_decide_eq_true_2 in Hsnoc by exact Hin.
      rewrite bool_decide_eq_true_2 in Hstep
        by (apply list_elem_of_In, first_occurrences_In, list_elem_of_In, Hin).
      exists out. rewrite Hstep, Hsnoc. now repeat split.
    + rewrite bool_decide_eq_false_2 in Hsnoc by exact Hout.
      rewrite list_elem_of_In in Hout.
      rewrite bool_decide_eq_false_2 in Hstep
        by (rewrite list_elem_of_In, first_occurrences_In; exact Hout).
      rewrite Map_set_fresh in Hstep
        by (rewrite Hkeys, first_occurrences_In; exact Hout).
      exists (out ++ [row]). rewrite Hstep, Hsnoc, Hm, !map_app, Hnames.
      split; [reflexivity|]. split; [reflexivity|].
      apply Forall_app. split; [exact Hold|]. constructor; [|constructor].
      unfold first_row. rewrite find_app_missed.
      * simpl. now rewrite bool_decide_eq_true_2.
      * intros r Hr. apply bool_decide_eq_false. intros Heq.
        apply Hout. rewrite <- Heq. now apply in_map.
Qed.

Lemma metaboliteMap_distinct (data : list MeasurementRow) :
  List.NoDup (map name data) ->
  metaboliteMap data = map (fun r => (name r, r)) data.
Proof.
  induction data as [|row data IH] using rev_ind; intros Hnd;
    [reflexivity|].
  rewrite map_app in Hnd. simpl in Hnd.
  apply NoDup_remove in Hnd as [Hnd Hfresh]. rewrite app_nil_r in Hnd, Hfresh.
  unfold metaboliteMap in *. rewrite fold_left_app. simpl.
  rewrite (IH Hnd). unfold Map_has. rewrite map_map. simpl.
  change (map (fun r => name r) data) with (map name data).
  rewrite bool_decide_eq_false_2 by now rewrite list_elem_of_In.
  rewrite Map_set_fresh by (rewrite map_map; exact Hfresh).
  now rewrite map_app.
Qed.

Lemma extractMetabolites_map (data : list MeasurementRow) :
  extractMetabolites data = map snd (metaboliteMap data).
Proof. reflexivity. Qed.

Lemma map_snd_tagged (out : list MeasurementRow) :
  map snd (map (fun r => (name r, r)) out) = out.
Proof. rewrite map_map. simpl. apply map_id. Qed.

End Metabolites.

(** [extractMetabolites] returns, in the order of first occurrence, one row
    for every name: the first row of that name.  The names are those of the
    mass spectra, in the same order. *)
Theorem extractMetabolites_first (data : list MeasurementRow) :
  map name (extractMetabolites data) = first_occurrences (map name data)
  /\ Forall (fun r => first_row (name r) data = Some r)
       (extractMetabolites data)
  /\ List.NoDup (map name (extractMetabolites data))
  /\ metabolites (extractMassSpectraData data)
     = map name (extractMetabolites data).
Proof.
  destruct (metaboliteMap_spec data) as (out & Hm & Hnames & Hfirst).
  rewrite extractMetabolites_map, Hm, map_snd_tagged.
  split; [exact Hnames|]. split; [exact Hfirst|].
  split; [rewrite Hnames; apply first_occurrences_NoDup|].
  unfold extractMassSpectraData. simpl.
  now rewrite intensityMap_tabulate, tabulate_keys.
Qed.

(** Rows that already have distinct names are returned as they are; so
    extracting the metabolites a second time changes nothing. *)
Theorem extractMetabolites_idempotent (data : list MeasurementRow) :
  (List.NoDup (map name data) -> extractMetabolites data = data)
  /\ extractMetabolites (extractMetabolites data) = extractMetabolites data.
Proof.
  assert (H : forall l, List.NoDup (map name l) -> extractMetabolites l = l).
  { intros l Hl. rewrite extractMetabolites_map, metaboliteMap_distinct
      by exact Hl. apply map_snd_tagged. }
  split; [apply H|]. apply H.
  destruct (metaboliteMap_spec data) as (out & Hm & Hnames & _).
  rewrite extractMetabolites_map, Hm, map_snd_tagged, Hnames.
  apply first_occurrences_NoDup.
Qed.

(** Two rows of different names, as a witness. *)
Lemma extractMetabolites_idempotent_witness :
  extractMetabolites
    [mkRow "Glucose" (of_Z 1) (of_Z 10) []; mkRow "Citrate" (of_Z 2) (of_Z 7) []]
  = [mkRow "Glucose" (of_Z 1) (of_Z 10) []; mkRow "Citrate" (of_Z 2) (of_Z 7) []].
Proof.
  destruct (extractMetabolites_idempotent
              [mkRow "Glucose" (of_Z 1) (of_Z 10) [];
               mkRow "Citrate" (of_Z 2) (of_Z 7) []]) as [H _].
  apply H. simpl.
  constructor; [simpl; intros [Heq|[]]; discriminate|].
  constructor; [simpl; tauto|]. constructor.
Defined.

(** ** The chromatogram of rows that are in order *)

Section SortedInput.

Context {A : Type} (key : A -> number).

Lemma Array_sort_sorted_input (l : list A) :
  StronglySorted (fun a b => (key a <=? key b)%num = true) l ->
  Array_sort (fun a b => (key a - key b)%num) l = l.
Proof.
  induction 1 as [|x l Hs IH Hx]; [reflexivity|].
  unfold Array_sort in *. cbn [foldr]. rewrite IH.
  destruct l as [|y l]; [reflexivity|].
  cbn [sort_insert]. rewrite sub_positive.
  apply Forall_cons in Hx as [Hxy _].
  unfold leb in Hxy. destruct (key y <? key x)%num; [|reflexivity].
  now rewrite andb_false_r in Hxy.
Qed.

End SortedInput.

(** Rows that are already in the order of their retention times come out
    of [extractChromatogramData] in the order they went in. *)
Theorem extractChromatogramData_in_order (data : list MeasurementRow) :
  in_time_order data ->
  extractChromatogramData data
  = {| times := map retentionTime data;
       intensities := map intensity data;
       labels := map name data |}.
Proof.
  intros Hs. unfold extractChromatogramData.
  now rewrite (Array_sort_sorted_input retentionTime).
Qed.

(** Three rows in order, two of them at one time, as a witness. *)
Lemma extractChromatogramData_in_order_witness :
  labels (extractChromatogramData
            [mkRow "B" (of_Z 1) (of_Z 20) []; mkRow "A" (of_Z 1) (of_Z 10) [];
             mkRow "C" (of_Z 3) (of_Z 5) []])
  = ["B"; "A"; "C"].
Proof.
  rewrite extractChromatogramData_in_order; [reflexivity|].
  repeat constructor.
Defined.

(** ** Validation: the other columns *)

Section AdditionalData.

Variable data : list record.

Let columnMapping : ColumnMapping :=
  {| Metabolite := find_header (header data) "metabolite";
     RetentionTime := find_header (header data) "retentiontime";
     Intensity := find_header (header data) "intensity" |}.

Lemma validate_row_additionalData (row : record) (index : nat)
  (r : MeasurementRow) :
  validate_row columnMapping row index = Normal r ->
  additionalData r
  = List.filter (fun kv => negb (matched data (fst kv))) row.
Proof.
  unfold validate_row.
  destruct (isNaN (parseFloat (get_opt row (RetentionTime columnMapping))));
    [discriminate|].
  destruct (isNaN (parseFloat (get_opt row (Intensity columnMapping))));
    [discriminate|].
  destruct (get_opt row (Metabolite columnMapping)) as [x|s|b| |];
    try discriminate.
  destruct (bool_decide (s = "")); [discriminate|].
  intros [= <-]. reflexivity.
Qed.

Lemma get_filter (keep : string -> bool) (row : record) (key : string) :
  get (List.filter (fun kv => keep (fst kv)) row) key
  = if keep key then get row key else CUndefined.
Proof.
  induction row as [|[k v] row IH]; simpl; [now destruct (keep key)|].
  destruct (keep k) eqn:Hk; simpl.
  - case_bool_decide as Heq; [subst k; now rewrite Hk|exact IH].
  - rewrite IH. case_bool_decide as Heq; [subst k; now rewrite Hk|].
    reflexivity.
Qed.

Lemma validate_rows_each (rows : list record) (index : nat)
  (out : list MeasurementRow) :
  validate_rows columnMapping rows index = Normal out ->
  Forall2 (fun raw r => exists i, validate_row columnMapping raw i = Normal r)
    rows out.
Proof.
  revert index out. induction rows as [|row rows IH]; intros index out; simpl.
  - intros [= <-]. constructor.
  - unfold mbind, completion_bind.
    destruct (validate_row columnMapping row index) as [r|e] eqn:Hr;
      simpl; [|discriminate].
    destruct (validate_rows columnMapping rows (S index)) as [rs|e] eqn:Hrs;
      simpl; [|discriminate].
    intros [= <-]. constructor; [now exists index|]. eapply IH, Hrs.
Qed.

Lemma validateData_Normal (rows : list MeasurementRow) :
  validateData data = Normal rows ->
  data <> [] /\ validate_rows columnMapping data 0 = Normal rows.
Proof.
  rewrite validateData_unfold. subst columnMapping.
  destruct data as [|first rest]; [discriminate|].
  destruct (missingColumns (header (first :: rest))); [|discriminate].
  intros H. split; [discriminate|exact H].
Qed.

End AdditionalData.

(** [validateData] returns one row for every record, in order, and the
    [additionalData] of a row holds the record's cells under every key
    except the three matched headers, which it lacks. *)
Theorem validateData_additionalData (data : list record)
  (rows : list MeasurementRow) :
  validateData data = Normal rows ->
  length rows = length data
  /\ Forall2
       (fun raw r =>
          forall key,
            FileHandler.get (additionalData r) key
            = if matched data key then CUndefined
              else FileHandler.get raw key)
       data rows.
Proof.
  intros Hv. apply validateData_Normal in Hv as [_ Hv].
  apply validate_rows_each in Hv.
  split; [symmetry; eapply Forall2_length, Hv|].
  eapply Forall2_impl; [exact Hv|].
  intros raw r [i Hr] key.
  rewrite (validate_row_additionalData _ _ _ _ Hr).
  rewrite (get_filter (fun k => negb (matched data k))).
  now destruct (matched data key).
Qed.

(** A record with a column of its own, as a witness. *)
Lemma validateData_additionalData_witness :
  FileHandler.get
    (additionalData
       (mkRow "Glucose" (of_Z 1) (of_Z 100) [("Area", CNum (of_Z 3))]))
    "Area"
  = CNum (of_Z 3).
Proof.
  destruct (validateData_additionalData
              [[("Metabolite", CStr "Glucose");
                ("RetentionTime", CNum (of_Z 1));
                ("Area", CNum (of_Z 3)); ("Intensity", CNum (of_Z 100))]]
              [mkRow "Glucose" (of_Z 1) (of_Z 100) [("Area", CNum (of_Z 3))]]
              eq_refl) as [_ H].
  apply Forall2_cons_1 in H as [H _]. apply (H "Area").
Defined.

(** ** The upload: file type, parsing, processing *)

Section Upload.

Import JSString.

Lemma chars_app (a b : string) : chars (a +:+ b) = chars a ++ chars b.
Proof.
  unfold chars. induction a as [|c a IH]; [reflexivity|].
  simpl. now rewrite IH.
Qed.

Lemma of_chars_app (a b : list ascii) :
  of_chars (a ++ b) = of_chars a +:+ of_chars b.
Proof.
  unfold of_chars. induction a as [|c a IH]; [reflexivity|].
  simpl. now rewrite IH.
Qed.

Lemma of_chars_chars (s : string) : of_chars (chars s) = s.
Proof. apply string_of_list_ascii_of_string. Qed.

Lemma accepted_timed (data : list record) (rows : list MeasurementRow) :
  Forall2 (accepted_as data) data rows -> timed rows.
Proof.
  intros H. unfold timed. eapply Forall2_Forall_r; [exact H|].
  apply Forall_forall. intros raw _ r (_ & Hnan & _). exact Hnan.
Qed.

Lemma first_occurrences_nonempty (l : list string) :
  l <> [] -> first_occurrences l <> [].
Proof. destruct l; [congruence|discriminate]. Qed.

End Upload.

(** Whatever [parseFile] returns can be processed: the file was of an
    accepted type, there is at least one row, [processData] does not throw,
    the chromatogram has a point for every row with times that do not
    decrease, and the table has at least one metabolite, as many as the
    mass spectra have bars. *)
Theorem parseFile_processData (file : FileHandlerUpload.File)
  (outcome : FileHandlerUpload.parsed) (rows : list MeasurementRow) :
  FileHandlerUpload.parseFile file outcome = Normal rows ->
  FileHandlerUpload.validateFileType file = true
  /\ rows <> []
  /\ exists processed,
       processData (Some rows) = Normal processed
       /\ ascending (times (chromatogramData processed))
       /\ length (times (chromatogramData processed)) = length rows
       /\ extracted_metabolites processed <> []
       /\ length (metabolites (massSpectraData processed))
          = length (extracted_metabolites processed).
Proof.
  unfold FileHandlerUpload.parseFile.
  destruct (FileHandlerUpload.validateFileType file); [|discriminate].
  destruct outcome as [m|[|e errors] data]; try discriminate. simpl.
  destruct (validateData data) as [validated|e] eqn:Hv; [|discriminate].
  intros [= <-]. split; [reflexivity|].
  destruct (validateData_Normal _ _ Hv) as [Hne Hrows].
  apply validate_rows_Normal in Hrows.
  assert (Hnonempty : validated <> []).
  { intros ->. apply Forall2_nil_inv_r in Hrows. contradiction. }
  split; [exact Hnonempty|].
  eexists. split; [reflexivity|]. simpl.
  split; [apply times_sorted; eapply accepted_timed; eassumption|].
  split.
  { rewrite length_map. apply Permutation_length.
    apply (Array_sort_perm retentionTime). }
  destruct (metaboliteMap_spec validated) as (out & Hm & Hnames & _).
  rewrite intensityMap_tabulate, tabulate_keys.
  rewrite extractMetabolites_map, Hm, map_snd_tagged.
  split.
  - intros ->. simpl in Hnames. symmetry in Hnames.
    apply first_occurrences_nonempty in Hnames; [exact Hnames|].
    destruct validated; [congruence|discriminate].
  - rewrite <- Hnames. now rewrite length_map.
Qed.

(** A file of one record, as a witness. *)
Lemma parseFile_processData_witness :
  exists processed,
    processData (Some [mkRow "Glucose" (of_Z 1) (of_Z 100) []])
    = Normal processed
    /\ ascending (times (chromatogramData processed))
    /\ length (times (chromatogramData processed)) = 1
    /\ extracted_metabolites processed <> []
    /\ length (metabolites (massSpectraData processed))
       = length (extracted_metabolites processed).
Proof.
  destruct (parseFile_processData
              (FileHandlerUpload.mkFile "" "sample-data.csv")
              (FileHandlerUpload.Complete []
                 [[("Metabolite", CStr "Glucose");
                   ("RetentionTime", CNum (of_Z 1));
                   ("Intensity", CNum (of_Z 100))]])
              [mkRow "Glucose" (of_Z 1) (of_Z 100) []] eq_refl)
    as (_ & _ & H).
  exact H.
Defined.

(** ** FileHandler: the two chart extractions *)

Section FileHandlerChartFacts.

Import FileHandlerCharts.

Lemma NumMap_set_fresh {V} (m : NumMap V) (k : number) (v : V) :
  ~ In k (map fst m) -> NumMap_set m k v = m ++ [(k, v)].
Proof.
  induction m as [|[k' v'] m IH]; simpl; intros Hk; [reflexivity|].
  rewrite bool_decide_eq_false_2 by tauto. f_equal. apply IH. tauto.
Qed.

Lemma NumMap_push_last {V} (m : NumMap (list V)) (k : number) (v : list V)
  (x : V) :
  ~ In k (map fst m) ->
  NumMap_push (m ++ [(k, v)]) k x = m ++ [(k, v ++ [x])].
Proof.
  induction m as [|[k' v'] m IH]; simpl; intros Hk.
  - now rewrite bool_decide_eq_true_2.
  - rewrite bool_decide_eq_false_2 by tauto. f_equal. apply IH. tauto.
Qed.

(** With no retention time twice, every row has a group of its own. *)
Lemma spectraMap_distinct (data : list MeasurementRow) :
  List.NoDup (map retentionTime data) ->
  spectraMap data = map (fun r => (retentionTime r, [intensity r])) data.
Proof.
  induction data as [|row data IH] using rev_ind; intros Hnd;
    [reflexivity|].
  rewrite map_app in Hnd. simpl in Hnd.
  apply NoDup_remove in Hnd as [Hnd Hfresh]. rewrite app_nil_r in Hnd, Hfresh.
  unfold spectraMap in *. rewrite fold_left_app. simpl. rewrite (IH Hnd).
  unfold NumMap_has. rewrite map_map. simpl.
  change (map (fun r => retentionTime r) data) with (map retentionTime data).
  rewrite bool_decide_eq_false_2 by now rewrite list_elem_of_In.
  rewrite NumMap_set_fresh by (rewrite map_map; exact Hfresh).
  rewrite NumMap_push_last by (rewrite map_map; exact Hfresh).
  now rewrite map_app.
Qed.

Lemma add_spectrum_one (a y : number) :
  isNaN a = false ->
  add_spectrum [a] [y] = [(a + y)%num].
Proof.
  intros Ha. unfold add_spectrum, set_index. cbn [imap fold_left fst snd].
  cbn [lookup list_lookup length Nat.ltb Nat.leb].
  destruct a as [| | |n]; try discriminate; try reflexivity.
  unfold or_zero. destruct (Z.eqb_spec n 0) as [->|Hn]; [|reflexivity].
  now rewrite of_Z_0.
Qed.

Lemma add_spectrum_first (y : number) :
  add_spectrum [] [y] = [(of_Z 0 + y)%num].
Proof. reflexivity. Qed.

Lemma add_finite_not_NaN (a y : number) :
  isNaN a = false -> isFinite y = true -> isNaN (a + y)%num = false.
Proof.
  destruct a as [| | |x], y as [| | |n]; try discriminate; try reflexivity.
  intros _ _. apply round64_not_NaN.
Qed.

Lemma add_single_spectra (xs : list number) (a : number) :
  isNaN a = false ->
  Forall (fun x => isFinite x = true) xs ->
  fold_left add_spectrum (map (fun x => [x]) xs) [a]
  = [fold_left (fun sum val => (sum + val)%num) xs a].
Proof.
  intros Ha Hxs. revert a Ha.
  induction Hxs as [|x xs Hx Hxs IH]; intros a Ha; [reflexivity|].
  cbn [map fold_left]. rewrite add_spectrum_one by exact Ha.
  apply IH. now apply add_finite_not_NaN.
Qed.

Lemma single_spectra (xs : list number) :
  Forall (fun x => isFinite x = true) xs -> xs <> [] ->
  fold_left add_spectrum (map (fun x => [x]) xs) []
  = [fold_left (fun sum val => (sum + val)%num) xs (of_Z 0)].
Proof.
  intros Hxs Hne. destruct Hxs as [|x xs Hx Hxs]; [congruence|].
  cbn [map fold_left]. rewrite add_spectrum_first.
  apply add_single_spectra; [|exact Hxs].
  apply add_finite_not_NaN; [now rewrite of_Z_0|exact Hx].
Qed.

End FileHandlerChartFacts.

(** [FileHandler.extractChromatogramData] returns the times and the
    intensities that [ChromatogramAnalyzer.extractChromatogramData]
    returns: one point for every row, the times not decreasing when none of
    them is NaN. *)
Theorem FileHandler_extractChromatogramData_spec
  (data : list MeasurementRow) :
  FileHandlerCharts.extractChromatogramData data
  = (times (extractChromatogramData data),
     intensities (extractChromatogramData data))
  /\ combine (fst (FileHandlerCharts.extractChromatogramData data))
       (snd (FileHandlerCharts.extractChromatogramData data))
     ≡ₚ map (fun r => (retentionTime r, intensity r)) data
  /\ (timed data ->
      ascending (fst (FileHandlerCharts.extractChromatogramData data))).
Proof.
  split; [reflexivity|]. split.
  - unfold FileHandlerCharts.extractChromatogramData. simpl.
    rewrite <- (Array_sort_perm retentionTime data) at 3.
    induction (Array_sort _ data) as [|r l IH]; [reflexivity|].
    simpl. now rewrite IH.
  - apply times_sorted.
Qed.

(** Two rows out of order, as a witness. *)
Lemma FileHandler_extractChromatogramData_spec_witness :
  ascending
    (fst (FileHandlerCharts.extractChromatogramData
            [mkRow "B" (of_Z 2) (of_Z 20) []; mkRow "A" (of_Z 1) (of_Z 10) []])).
Proof.
  apply (FileHandler_extractChromatogramData_spec
           [mkRow "B" (of_Z 2) (of_Z 20) []; mkRow "A" (of_Z 1) (of_Z 10) []]).
  repeat constructor.
Defined.

(** [FileHandler.extractMassSpectraData] of rows that all differ in their
    retention time and have finite intensities is one value, the
    arithmetic mean of all the intensities: their sum, added up in the
    order of the rows, divided by their count; of no rows it is no
    value. *)
Theorem FileHandler_extractMassSpectraData_distinct
  (data : list MeasurementRow) :
  List.NoDup (map retentionTime data) ->
  Forall (fun r => isFinite (intensity r) = true) data ->
  FileHandlerCharts.spectrum_intensities
    (FileHandlerCharts.extractMassSpectraData data)
  = match data with
    | [] => []
    | _ :: _ => [arithmetic_mean (map intensity data)]
    end.
Proof.
  intros Hnd Hfin. unfold FileHandlerCharts.extractMassSpectraData. simpl.
  rewrite (spectraMap_distinct data Hnd), !map_map, length_map. simpl.
  destruct data as [|row rest] eqn:Hd; [reflexivity|]. rewrite <- Hd in *.
  change (map (fun r => [intensity r]) data)
    with (map (fun r => (fun x => [x]) (intensity r)) data).
  rewrite <- (map_map intensity (fun x => [x])).
  rewrite single_spectra.
  - simpl. rewrite <- average_mean. unfold average. now rewrite length_map.
  - apply List.Forall_map. exact Hfin.
  - rewrite Hd. discriminate.
Qed.

(** Three rows at three times, with sums that are rounded, as a
    witness. *)
Lemma FileHandler_extractMassSpectraData_distinct_witness :
  FileHandlerCharts.spectrum_intensities
    (FileHandlerCharts.extractMassSpectraData
       [mkRow "A" (of_Z 1) (of_decimal 1 1) [];
        mkRow "B" (of_Z 2) (of_decimal 2 1) [];
        mkRow "C" (of_Z 3) (of_decimal 3 1) []])
  = [arithmetic_mean [of_decimal 1 1; of_decimal 2 1; of_decimal 3 1]].
Proof.
  apply (FileHandler_extractMassSpectraData_distinct
           [mkRow "A" (of_Z 1) (of_decimal 1 1) [];
            mkRow "B" (of_Z 2) (of_decimal 2 1) [];
            mkRow "C" (of_Z 3) (of_decimal 3 1) []]).
  - apply NoDup_ListNoDup. apply (bool_decide_unpack _). vm_compute.
    exact I.
  - repeat constructor.
Defined.

(** ** Batches of five, and the ids of the table rows *)

Section Batches.

Import GCMSAnalyzer.

Context {A : Type}.

Lemma batches_upto (b : nat) (l : list A) (m : nat) :
  concat (map (fun k => slice l (k * b) (k * b + b)) (seq 0 m))
  = take (m * b) l.
Proof.
  induction m as [|m IH]; [reflexivity|].
  rewrite seq_S, map_app, concat_app, IH. simpl. rewrite app_nil_r.
  unfold slice. replace (m * b + b - m * b) with b by lia.
  rewrite take_take_drop. f_equal. lia.
Qed.

Lemma rounds_cover (b n : nat) : 0 < b -> n <= (n + (b - 1)) / b * b.
Proof.
  intros Hb. pose proof (Nat.div_mod_eq (n + (b - 1)) b) as Hdiv.
  pose proof (Nat.mod_upper_bound (n + (b - 1)) b) as Hmod. nia.
Qed.

Lemma rounds_tight (b n k : nat) :
  0 < b -> k < (n + (b - 1)) / b -> k * b < n.
Proof.
  intros Hb Hk. pose proof (Nat.div_mod_eq (n + (b - 1)) b) as Hdiv.
  pose proof (Nat.mod_upper_bound (n + (b - 1)) b) as Hmod. nia.
Qed.

Lemma length_slice (l : list A) (i j : nat) :
  length (slice l i j) = Nat.min (j - i) (length l - i).
Proof. unfold slice. now rewrite length_take, length_drop. Qed.

End Batches.

(** The batches of five that [processMetabolites] and
    [batchFetchCompoundInfo] work through are the list cut into pieces:
    joined they give the list back, none is empty, none has more than five
    elements, every one but the last has five, and the loop waits once
    between every two batches. *)
Theorem batches_partition {A : Type} (l : list A) :
  concat (GCMSAnalyzer.batches GCMSAnalyzer.batchSize l) = l
  /\ Forall (fun batch => 1 <= length batch <= 5)
       (GCMSAnalyzer.batches GCMSAnalyzer.batchSize l)
  /\ (forall k batch,
         GCMSAnalyzer.batches GCMSAnalyzer.batchSize l !! k = Some batch ->
         S k < length (GCMSAnalyzer.batches GCMSAnalyzer.batchSize l) ->
         length batch = 5)
  /\ GCMSAnalyzer.delays l
     = length (GCMSAnalyzer.batches GCMSAnalyzer.batchSize l) - 1.
Proof.
  unfold GCMSAnalyzer.batches, GCMSAnalyzer.delays, GCMSAnalyzer.batchSize.
  set (m := (length l + (5 - 1)) / 5).
  assert (Hcover : length l <= m * 5) by (apply rounds_cover; lia).
  assert (Htight : forall k, k < m -> k * 5 < length l)
    by (intros k Hk; apply (rounds_tight 5); [lia|exact Hk]).
  split; [|split; [|split]].
  - rewrite batches_upto. now apply take_ge.
  - apply Forall_forall. intros batch Hin.
    apply list_elem_of_fmap in Hin as (k & -> & Hk).
    apply elem_of_seq in Hk. rewrite length_slice.
    specialize (Htight k ltac:(lia)). lia.
  - intros k batch Hk Hnext. rewrite length_map, length_seq in Hnext.
    rewrite list_lookup_fmap in Hk.
    rewrite lookup_seq_lt in Hk by lia. simpl in Hk.
    injection Hk as <-. rewrite length_slice.
    specialize (Htight (S k) Hnext). lia.
  - rewrite length_map, length_seq.
    assert (Hcount : forall n, n <= m ->
      length (List.filter (fun k => (k * 5 + 5 <? length l)%nat) (seq 0 n))
      = Nat.min n (m - 1)).
    { induction n as [|n IH]; intros Hn; [reflexivity|].
      rewrite seq_S, List.filter_app, length_app, IH by lia.
      cbn [List.filter Nat.add].
      destruct (n * 5 + 5 <? length l) eqn:Hlt; cbn [length].
      - apply Nat.ltb_lt in Hlt. lia.
      - apply Nat.ltb_ge in Hlt.
        assert (S n < m \/ S n = m) as [Hlt'|Heq] by lia; [|lia].
        specialize (Htight (S n) Hlt'). lia. }
    rewrite (Hcount m) by lia. lia.
Qed.

Section RowIds.

Import JSString GCMSAnalyzer.

Lemma replace_runs_other (c : ascii) (r : list ascii) (in_run : bool) :
  strip_whitespace (c :: r) = None ->
  replace_runs (c :: r) in_run = c :: replace_runs r false.
Proof.
  cbn [strip_whitespace replace_runs].
  destruct (is_whitespace c); [discriminate|].
  destruct r as [|c2 r2]; [reflexivity|].
  destruct (is_whitespace2 c c2); [discriminate|].
  destruct r2 as [|c3 r3]; [reflexivity|].
  now destruct (is_whitespace3 c c2 c3).
Qed.

Lemma replace_runs_whitespace (l r : list ascii) (in_run : bool) :
  strip_whitespace l = Some r ->
  replace_runs l in_run = dash in_run (replace_runs r true)
  /\ length r < length l.
Proof.
  destruct l as [|c1 r1]; [discriminate|].
  cbn [strip_whitespace replace_runs].
  destruct (is_whitespace c1); [intros [= <-]; simpl; split; [reflexivity|lia]|].
  destruct r1 as [|c2 r2]; [discriminate|].
  destruct (is_whitespace2 c1 c2);
    [intros [= <-]; simpl; split; [reflexivity|lia]|].
  destruct r2 as [|c3 r3]; [discriminate|].
  destruct (is_whitespace3 c1 c2 c3); [|discriminate].
  intros [= <-]. simpl. split; [reflexivity|lia].
Qed.

(** A dash begins no white space, is not the second byte of any, and not
    the third. *)
Lemma dash_first (rest : list ascii) :
  strip_whitespace ("-"%char :: rest) = None.
Proof. destruct rest as [|c2 [|c3 r]]; reflexivity. Qed.

Lemma dash_second (c : ascii) (rest : list ascii) :
  is_whitespace c = false -> strip_whitespace (c :: "-"%char :: rest) = None.
Proof.
  intros Hc. cbn [strip_whitespace]. rewrite Hc.
  unfold is_whitespace2. cbn [nat_of_ascii]. rewrite andb_false_r.
  destruct rest as [|c3 r]; [reflexivity|].
  unfold is_whitespace3.
  change (nat_of_ascii "-") with 45.
  cbn [Nat.eqb]. now rewrite !andb_false_r.
Qed.

Lemma dash_third (c1 c2 : ascii) : is_whitespace3 c1 c2 "-" = false.
Proof.
  unfold is_whitespace3. change (nat_of_ascii "-") with 45.
  cbn [Nat.eqb Nat.leb]. now rewrite !andb_false_r.
Qed.

(** The first byte of what [replace_runs] makes of [r], outside a run, is
    a dash or the first byte of [r]. *)
Lemma replace_runs_head (r : list ascii) :
  match replace_runs r false with
  | [] => r = []
  | o :: rest =>
      o = "-"%char
      \/ exists r', r = o :: r' /\ strip_whitespace r = None
                    /\ rest = replace_runs r' false
  end.
Proof.
  destruct (strip_whitespace r) as [r'|] eqn:Hr.
  - destruct (replace_runs_whitespace r r' false Hr) as [-> _]. now left.
  - destruct r as [|c r']; [reflexivity|].
    rewrite replace_runs_other by exact Hr. right. now exists r'.
Qed.

Lemma replace_runs_lookahead (c : ascii) (r : list ascii) :
  strip_whitespace (c :: r) = None ->
  strip_whitespace (c :: replace_runs r false) = None.
Proof.
  intros Hnone.
  assert (Hc : is_whitespace c = false).
  { cbn [strip_whitespace] in Hnone. now destruct (is_whitespace c). }
  pose proof (replace_runs_head r) as Hhead.
  destruct (replace_runs r false) as [|o2 rest2] eqn:Hout.
  - cbn [strip_whitespace]. now rewrite Hc.
  - destruct Hhead as [->|(r2 & -> & Hr & ->)]; [now apply dash_second|].
    cbn [strip_whitespace] in Hnone |- *. rewrite Hc in Hnone |- *.
    destruct (is_whitespace2 c o2); [discriminate|].
    pose proof (replace_runs_head r2) as Hhead2.
    destruct (replace_runs r2 false) as [|o3 rest3]; [reflexivity|].
    destruct Hhead2 as [->|(r3 & -> & _ & _)];
      [now rewrite dash_third|].
    now destruct (is_whitespace3 c o2 o3).
Qed.

Lemma replace_runs_clean (n : nat) :
  forall (l : list ascii) (in_run : bool),
    length l <= n -> no_whitespace (replace_runs l in_run) = true.
Proof.
  induction n as [|n IH]; intros l in_run Hlen.
  - destruct l; [reflexivity|simpl in Hlen; lia].
  - destruct (strip_whitespace l) as [r|] eqn:Hl.
    + destruct (replace_runs_whitespace l r in_run Hl) as [-> Hr].
      assert (Hrest : no_whitespace (replace_runs r true) = true)
        by (apply IH; lia).
      destruct in_run; [exact Hrest|].
      cbn [dash no_whitespace]. unfold whitespace_at.
      now rewrite dash_first, Hrest.
    + destruct l as [|c r]; [reflexivity|].
      rewrite replace_runs_other by exact Hl.
      cbn [no_whitespace]. unfold whitespace_at.
      rewrite (replace_runs_lookahead c r Hl). simpl.
      apply IH. simpl in Hlen. lia.
Qed.

Lemma row_prefix_clean (out : list ascii) :
  no_whitespace out = true ->
  no_whitespace (chars "row-" ++ out) = true.
Proof.
  intros Hout.
  change (chars "row-" ++ out)
    with ("r"%char :: "o"%char :: "w"%char :: "-"%char :: out).
  cbn [no_whitespace]. rewrite Hout. unfold whitespace_at.
  rewrite dash_first, (dash_second "w") by reflexivity.
  reflexivity.
Qed.

Lemma replace_runs_unchanged (l : list ascii) (in_run : bool) :
  no_whitespace l = true -> replace_runs l in_run = l.
Proof.
  revert in_run. induction l as [|c l IH]; intros in_run; [reflexivity|].
  cbn [no_whitespace]. rewrite andb_true_iff, negb_true_iff.
  unfold whitespace_at. intros [Hc Hl].
  destruct (strip_whitespace (c :: l)) eqn:Hs; [discriminate|].
  rewrite replace_runs_other by exact Hs. now rewrite IH.
Qed.

Lemma chars_of_chars (l : list ascii) : chars (of_chars l) = l.
Proof. apply list_ascii_of_string_of_list_ascii. Qed.

End RowIds.

(** The id of a table row has no white space in it, whatever the name of
    the metabolite; a name without white space is kept in it as it is, so
    such names get different ids; names with white space can share an id
    with another name. *)
Theorem row_id_spec (metaboliteName : string) :
  no_whitespace (JSString.chars (GCMSAnalyzer.row_id metaboliteName)) = true
  /\ (no_whitespace (JSString.chars metaboliteName) = true ->
      GCMSAnalyzer.row_id metaboliteName = "row-" +:+ metaboliteName)
  /\ (forall other,
         no_whitespace (JSString.chars metaboliteName) = true ->
         no_whitespace (JSString.chars other) = true ->
         GCMSAnalyzer.row_id metaboliteName = GCMSAnalyzer.row_id other ->
         metaboliteName = other)
  /\ GCMSAnalyzer.row_id "Citric  acid" = GCMSAnalyzer.row_id "Citric-acid".
Proof.
  assert (Hkeep : forall s,
    no_whitespace (JSString.chars s) = true ->
    GCMSAnalyzer.row_id s = "row-" +:+ s).
  { intros s Hs. unfold GCMSAnalyzer.row_id.
    rewrite replace_runs_unchanged by exact Hs. now rewrite of_chars_chars. }
  split; [|split; [|split]].
  - unfold GCMSAnalyzer.row_id. rewrite chars_app, chars_of_chars.
    apply row_prefix_clean.
    now apply (replace_runs_clean (length (JSString.chars metaboliteName))).
  - apply Hkeep.
  - intros other Hn Ho. rewrite (Hkeep _ Hn), (Hkeep _ Ho).
    intros Heq. simpl in Heq. now injection Heq.
  - vm_compute. reflexivity.
Qed.

(** A name of one word, as a witness. *)
Lemma row_id_spec_witness : GCMSAnalyzer.row_id "Glucose" = "row-Glucose".
Proof.
  apply (row_id_spec "Glucose"). vm_compute. reflexivity.
Defined.

(** ** The gene locus of a metabolite *)

Section GeneLocus.

Import MetaboliteMapperLocus.

Lemma cache_faithful_perform (mappingCache : gmap string looked_up)
  (c : call) :
  cache_faithful mappingCache ->
  cache_faithful (MetaboliteMapperLocus.perform mappingCache c).
Proof.
  intros Hc. destruct c as [m|]; simpl.
  - unfold mapToGeneLocusID. destruct (mappingCache !! m) eqn:Hm;
      [exact Hc|].
    simpl. intros k v. destruct (decide (m = k)) as [->|Hne].
    + rewrite lookup_insert_eq. now intros [= <-].
    + rewrite lookup_insert_ne by exact Hne. apply Hc.
  - intros k v. unfold MetaboliteMapperLocus.clearCache.
    now rewrite lookup_empty.
Qed.

Lemma cache_faithful_calls (calls : list call) :
  cache_faithful (fold_left MetaboliteMapperLocus.perform calls ∅).
Proof.
  assert (H : forall c, cache_faithful c ->
            cache_faithful (fold_left MetaboliteMapperLocus.perform calls c)).
  { induction calls as [|call calls IH]; intros c Hc; [exact Hc|].
    simpl. apply IH. now apply cache_faithful_perform. }
  apply H. intros k v. now rewrite lookup_empty.
Qed.

Lemma find_key {V} (table : list (string * V)) (k : string) :
  match List.find (fun kv => bool_decide (fst kv = k)) table with
  | Some (k', _) => k' = k /\ In k (map fst table)
  | None => ~ In k (map fst table)
  end.
Proof.
  induction table as [|[k' v] table IH]; simpl; [tauto|].
  case_bool_decide as Heq; [simpl in Heq; tauto|].
  destruct (List.find _ table) as [[k'' v']|]; simpl in *; tauto.
Qed.

Lemma find_key_entry {V} (table : list (string * V)) (k : string)
  (kv : string * V) :
  List.find (fun kv => bool_decide (fst kv = k)) table = Some kv ->
  In kv table /\ fst kv = k.
Proof.
  intros H. apply find_some in H as [Hin Hk].
  split; [exact Hin|]. now apply bool_decide_eq_true in Hk.
Qed.

Lemma pathway_filed (metaboliteName : string) (info : PathwayInfo) :
  getPathwayInformation metaboliteName = Some (Entry info) ->
  pi_metabolite info = metaboliteName.
Proof.
  assert (Hfiled : Forall (fun kv => pi_metabolite (snd kv) = fst kv)
                     pathways)
    by (repeat constructor).
  unfold getPathwayInformation.
  destruct (List.find _ pathways) as [[k' info']|] eqn:Hfp;
    [|case_bool_decide; discriminate].
  simpl. intros [= <-]. apply find_key_entry in Hfp as [Hin Hk].
  rewrite List.Forall_forall in Hfiled. specialize (Hfiled _ Hin).
  simpl in *. congruence.
Qed.

End GeneLocus.

(** The mapping cache never changes an answer: after any lookups and
    clearings, [mapToGeneLocusID] returns what the table gives for the
    name, and a second lookup returns the same and leaves the cache as it
    is. *)
Theorem mapToGeneLocusID_cached (calls : list MetaboliteMapperLocus.call)
  (metaboliteName : string) :
  let mappingCache := fold_left MetaboliteMapperLocus.perform calls ∅ in
  fst (MetaboliteMapperLocus.mapToGeneLocusID metaboliteName mappingCache)
  = MetaboliteMapperLocus.simulateMapping metaboliteName
  /\ MetaboliteMapperLocus.mapToGeneLocusID metaboliteName
       (snd (MetaboliteMapperLocus.mapToGeneLocusID metaboliteName
               mappingCache))
     = (MetaboliteMapperLocus.simulateMapping metaboliteName,
        snd (MetaboliteMapperLocus.mapToGeneLocusID metaboliteName
               mappingCache)).
Proof.
  intros mappingCache.
  pose proof (cache_faithful_calls calls) as Hc. fold mappingCache in Hc.
  unfold MetaboliteMapperLocus.mapToGeneLocusID.
  destruct (mappingCache !! metaboliteName) as [v|] eqn:Hm; simpl.
  - rewrite Hm. rewrite (Hc _ _ Hm). now split.
  - rewrite lookup_insert_eq. now split.
Qed.

(** The two tables of [MetaboliteMapper] go together, and so do the two
    lookups for every name: a name has a gene locus in the one exactly when
    it has an entry, filed under the name itself, in the other; for exactly
    the names of the inherited properties both lookups give the inherited
    value; and for every other name the one gives "Not found" and the other
    [null]. *)
Theorem mappings_pathways_agree (metaboliteName : string) :
  ((exists locus,
       MetaboliteMapperLocus.simulateMapping metaboliteName
       = MetaboliteMapperLocus.Text locus
       /\ locus <> "Not found")
   <-> exists info,
         getPathwayInformation metaboliteName = Some (Entry info)
         /\ pi_metabolite info = metaboliteName)
  /\ (MetaboliteMapperLocus.simulateMapping metaboliteName
      = MetaboliteMapperLocus.Inherited metaboliteName
      <-> getPathwayInformation metaboliteName
          = Some (InheritedValue metaboliteName))
  /\ (MetaboliteMapperLocus.simulateMapping metaboliteName
      = MetaboliteMapperLocus.Text "Not found"
      <-> getPathwayInformation metaboliteName = None).
Proof.
  assert (Hkeys : map fst MetaboliteMapperLocus.mappings = map fst pathways)
    by reflexivity.
  assert (Hloci : Forall (fun kv => snd kv <> "Not found")
                    MetaboliteMapperLocus.mappings)
    by (repeat constructor; discriminate).
  pose proof (pathway_filed metaboliteName) as Hfiled.
  unfold MetaboliteMapperLocus.simulateMapping, getPathwayInformation in *.
  pose proof (find_key MetaboliteMapperLocus.mappings metaboliteName) as Hm.
  pose proof (find_key pathways metaboliteName) as Hp.
  rewrite Hkeys in Hm.
  destruct (List.find _ MetaboliteMapperLocus.mappings)
    as [[k locus]|] eqn:Hfm;
    destruct (List.find _ pathways) as [[k' info]|] eqn:Hfp;
    simpl; try tauto.
  - apply find_key_entry in Hfm as [Hin _].
    rewrite List.Forall_forall in Hloci. specialize (Hloci _ Hin).
    simpl in Hloci.
    split; [|split].
    + split; [intros _; exists info; split; [reflexivity|now apply Hfiled]|].
      intros _. now exists locus.
    + split; discriminate.
    + split; [congruence|discriminate].
  - case_bool_decide.
    + split; [|split].
      * split; [intros (locus & Heq & _); discriminate|].
        intros (info & Heq & _). discriminate.
      * tauto.
      * split; discriminate.
    + split; [|split].
      * split; [intros (locus & Heq & Hne); congruence|].
        intros (info & Heq & _). discriminate.
      * split; discriminate.
      * tauto.
Qed.

(** ** The graph of a session: ids and edges *)

Section SessionGraph.

Lemma has_id_elem (g : Graph) (i : string) :
  has_id g i = true <-> exists e, e ∈ g /\ element_id e = i.
Proof.
  unfold has_id. rewrite bool_decide_eq_true, list_elem_of_fmap.
  split; intros (e & H1 & H2); exists e; auto.
Qed.

Lemma cy_add_grows (g : Graph) (e : element) :
  exists added, cy_add g e = g ++ added
                /\ (forall x, x ∈ added -> x = e).
Proof.
  unfold cy_add. destruct (has_id g (element_id e)).
  - exists []. rewrite app_nil_r. split; [reflexivity|].
    intros x Hx. now apply elem_of_nil in Hx.
  - exists [e]. split; [reflexivity|]. intros x Hx.
    now apply list_elem_of_singleton in Hx.
Qed.

Lemma cy_add_all_grows (g : Graph) (es : list element) :
  exists added, cy_add_all g es = g ++ added
                /\ (forall x, x ∈ added -> x ∈ es).
Proof.
  revert g. induction es as [|e es IH]; intros g.
  - exists []. rewrite app_nil_r. split; [reflexivity|]. intros x Hx.
    now apply elem_of_nil in Hx.
  - destruct (cy_add_grows g e) as (a1 & H1 & Ha1).
    destruct (IH (cy_add g e)) as (a2 & H2 & Ha2).
    exists (a1 ++ a2). unfold cy_add_all in *. simpl.
    rewrite H2, H1, app_assoc. split; [reflexivity|].
    intros x Hx. apply elem_of_app in Hx as [Hx|Hx].
    + rewrite (Ha1 x Hx). apply list_elem_of_here.
    + apply list_elem_of_further. now apply Ha2.
Qed.

Lemma has_id_cy_add_mono (g : Graph) (e : element) (i : string) :
  has_id g i = true -> has_id (cy_add g e) i = true.
Proof. intros H. apply has_id_cy_add. now left. Qed.

Lemma cy_add_disciplined (g : Graph) (e : element) :
  disciplined g -> admissible g e -> disciplined (cy_add g e).
Proof.
  intros [Hnames Hends] [Hname Hend].
  destruct (cy_add_grows g e) as (added & Hg & Hadded).
  split.
  - rewrite Hg. apply Forall_app. split; [exact Hnames|].
    apply Forall_forall. intros x Hx. now rewrite (Hadded x Hx).
  - intros i s t l Hin. rewrite Hg in Hin.
    apply elem_of_app in Hin as [Hin|Hin].
    + destruct (Hends i s t l Hin) as [Hs Ht].
      split; now apply has_id_cy_add_mono.
    + rewrite <- (Hadded _ Hin) in Hend. destruct Hend as [Hs Ht].
      split; now apply has_id_cy_add_mono.
Qed.

Lemma cy_add_all_disciplined (g : Graph) (es : list element) :
  disciplined g -> admissible_all g es -> disciplined (cy_add_all g es).
Proof.
  revert g. induction es as [|e es IH]; intros g Hg Hes; [exact Hg|].
  destruct Hes as [He Hes]. unfold cy_add_all in *. simpl.
  apply IH; [now apply cy_add_disciplined|exact Hes].
Qed.

Lemma admissible_all_app (g : Graph) (es1 es2 : list element) :
  admissible_all g es1 -> admissible_all (cy_add_all g es1) es2 ->
  admissible_all g (es1 ++ es2).
Proof.
  revert g. induction es1 as [|e es1 IH]; intros g H1 H2; [exact H2|].
  destruct H1 as [He H1]. split; [exact He|]. apply IH; [exact H1|exact H2].
Qed.

Lemma disciplined_linked (g : Graph) : disciplined g -> linked g.
Proof.
  intros [Hnames Hends] i s t l Hin.
  rewrite Forall_forall in Hnames.
  pose proof (Hnames _ Hin) as (_ & Hs & Ht).
  destruct (Hends i s t l Hin) as [Hsid Htid].
  apply has_id_elem in Hsid as (es & Hes & Hesid).
  apply has_id_elem in Htid as (et & Het & Hetid).
  split.
  - destruct es as [i' l' ty|i' s' t' l']; simpl in Hesid; subst i'.
    + now exists l', ty.
    + pose proof (Hnames _ Hes) as (Hi' & _). congruence.
  - destruct et as [i' l' ty|i' s' t' l']; simpl in Hetid; subst i'.
    + now exists l', ty.
    + pose proof (Hnames _ Het) as (Hi' & _). congruence.
Qed.

Lemma reactions_admissible (m : string) (reactions : list (nat * string))
  (g : Graph) :
  has_id g ("m_" +:+ m) = true ->
  admissible_all g
    (flat_map
       (fun '(index, reaction_label) =>
          [Node ("r_" +:+ m +:+ "_" +:+ pretty index) reaction_label reaction;
           Edge ("e_" +:+ m +:+ "_reaction_" +:+ pretty index)
                ("m_" +:+ m) ("r_" +:+ m +:+ "_" +:+ pretty index)
                "participates in"])
       reactions).
Proof.
  revert g. induction reactions as [|[index label] rest IH]; intros g Hm;
    [exact I|].
  simpl. split; [split; [reflexivity|exact I]|].
  split.
  - split; [repeat split|]. split.
    + now apply has_id_cy_add_mono.
    + apply has_id_cy_add. now right.
  - apply IH. now do 2 apply has_id_cy_add_mono.
Qed.

Lemma pathway_elements_admissible (info : PathwayInfo) (g : Graph) :
  has_id g ("m_" +:+ pi_metabolite info) = true ->
  admissible_all g (pathway_elements (Entry info)).
Proof.
  intros Hm. unfold pathway_elements, entry_elements.
  apply admissible_all_app.
  - destruct (truthy (pi_pathway info)); [|exact I].
    split; [split; [reflexivity|exact I]|].
    split; [|exact I]. split; [repeat split|]. split.
    + now apply has_id_cy_add_mono.
    + apply has_id_cy_add. now right.
  - apply reactions_admissible. apply has_id_cy_add_all. now left.
Qed.

Lemma offered_admissible (m gene_id : string) (g : Graph) :
  admissible_all g (offered m gene_id).
Proof.
  unfold offered. apply admissible_all_app.
  - split; [split; [reflexivity|exact I]|].
    split; [split; [reflexivity|exact I]|].
    split; [|exact I]. split; [repeat split|]. split.
    + apply has_id_cy_add_mono, has_id_cy_add. now right.
    + apply has_id_cy_add. now right.
  - destruct (getPathwayInformation m) as [[info|property]|] eqn:Hinfo;
      [|exact I|exact I].
    apply pathway_elements_admissible.
    rewrite (pathway_filed _ _ Hinfo).
    apply has_id_cy_add_all. right. simpl. apply list_elem_of_here.
Qed.

Lemma elem_of_remove_first (x y : string) (l : list string) :
  y ∈ NetworkVisualizerSession.remove_first x l -> y ∈ l.
Proof.
  induction l as [|z l IH]; simpl; [trivial|].
  case_bool_decide; intros Hy; [now apply list_elem_of_further|].
  apply elem_of_cons in Hy as [->|Hy]; [apply list_elem_of_here|].
  now apply list_elem_of_further, IH.
Qed.

Lemma resume_call_all (m : string) (g : Graph) :
  NetworkVisualizerSession.resume_call m g
  = cy_add_all g match getPathwayInformation m with
                 | Some info => pathway_elements info
                 | None => []
                 end.
Proof.
  unfold NetworkVisualizerSession.resume_call.
  destruct (getPathwayInformation m); [|reflexivity].
  apply addPathwayConnections_all.
Qed.

Lemma begin_call_admissible (m gene_id : string) (g : Graph) :
  admissible_all g
    [Node ("m_" +:+ m) m metabolite;
     Node ("g_" +:+ gene_id) gene_id gene;
     Edge ("e_" +:+ m +:+ "_" +:+ gene_id)
          ("m_" +:+ m) ("g_" +:+ gene_id) "associated with"].
Proof.
  split; [split; [reflexivity|exact I]|].
  split; [split; [reflexivity|exact I]|].
  split; [|exact I]. split; [repeat split|]. split.
  - apply has_id_cy_add_mono, has_id_cy_add. now right.
  - apply has_id_cy_add. now right.
Qed.

Lemma resume_call_admissible (m : string) (g : Graph) :
  has_id g ("m_" +:+ m) = true ->
  admissible_all g match getPathwayInformation m with
                   | Some info => pathway_elements info
                   | None => []
                   end.
Proof.
  intros Hm.
  destruct (getPathwayInformation m) as [[info|property]|] eqn:Hinfo;
    [|exact I|exact I].
  apply pathway_elements_admissible. now rewrite (pathway_filed _ _ Hinfo).
Qed.

(** Without a clearing, the graph stays disciplined and holds the
    metabolite of every suspended call. *)
Lemma run_disciplined (happenings : list NetworkVisualizerSession.happening)
  (r r' : NetworkVisualizerSession.Running) (g : Graph) :
  NetworkVisualizerSession.Cleared ∉ happenings ->
  cy (NetworkVisualizerSession.visualizer r) = Some g ->
  disciplined g ->
  (forall m, m ∈ NetworkVisualizerSession.awaiting r ->
             has_id g ("m_" +:+ m) = true) ->
  NetworkVisualizerSession.run r happenings = Some r' ->
  exists g', cy (NetworkVisualizerSession.visualizer r') = Some g'
             /\ disciplined g'.
Proof.
  revert r g. induction happenings as [|h hs IH];
    intros r g Hclear Hg Hd Hwait; simpl.
  - intros [= <-]. now exists g.
  - apply not_elem_of_cons in Hclear as [Hh Hclear].
    destruct (NetworkVisualizerSession.step r h) as [r1|] eqn:Hstep;
      [|discriminate].
    destruct h as [m gene_id|m|]; simpl in Hstep; [| |congruence].
    + rewrite Hg in Hstep.
      destruct (initialized (NetworkVisualizerSession.visualizer r)).
      * injection Hstep as <-.
        apply (IH _ (NetworkVisualizerSession.begin_call m gene_id g));
          [exact Hclear|reflexivity| |].
        -- apply cy_add_all_disciplined; [exact Hd|].
           apply begin_call_admissible.
        -- simpl. intros m' Hm'. apply has_id_cy_add_all.
           apply elem_of_app in Hm' as [Hm'|Hm']; [left; now apply Hwait|].
           apply list_elem_of_singleton in Hm' as ->. right.
           simpl. apply list_elem_of_here.
      * injection Hstep as <-. now apply (IH r g).
    + case_bool_decide as Hin; [|discriminate]. injection Hstep as <-.
      rewrite Hg.
      apply (IH _ (NetworkVisualizerSession.resume_call m g));
        [exact Hclear|reflexivity| |].
      * rewrite resume_call_all. apply cy_add_all_disciplined; [exact Hd|].
        apply resume_call_admissible. now apply Hwait.
      * simpl. intros m' Hm'. rewrite resume_call_all.
        apply has_id_cy_add_all. left. apply Hwait.
        eapply elem_of_remove_first, Hm'.
Qed.

End SessionGraph.

(** [addMetaboliteToPathway] is its two halves, one after the other. *)
Theorem addMetaboliteToPathway_halves (metaboliteName geneLocusId : string)
  (g : Graph) :
  addMetaboliteToPathway metaboliteName geneLocusId
    {| initialized := true; cy := Some g |}
  = {| initialized := true;
       cy := Some (NetworkVisualizerSession.resume_call metaboliteName
                     (NetworkVisualizerSession.begin_call metaboliteName
                        geneLocusId g)) |}.
Proof. reflexivity. Qed.

(** As long as the graph is not cleared, every edge of a session's graph
    starts and ends at a node of the graph, however the calls of
    [addMetaboliteToPathway] are interleaved at their [await]. *)
Theorem session_edges_linked
  (happenings : list NetworkVisualizerSession.happening)
  (r : NetworkVisualizerSession.Running) :
  NetworkVisualizerSession.Cleared ∉ happenings ->
  NetworkVisualizerSession.run NetworkVisualizerSession.begun happenings
  = Some r ->
  exists g, cy (NetworkVisualizerSession.visualizer r) = Some g /\ linked g.
Proof.
  intros Hclear Hrun.
  destruct (run_disciplined happenings NetworkVisualizerSession.begun r []
              Hclear eq_refl) as (g & Hg & Hd); [| |exact Hrun|].
  - split; [constructor|]. intros i s t l Hin. now apply elem_of_nil in Hin.
  - intros m Hm. simpl in Hm. now apply elem_of_nil in Hm.
  - exists g. split; [exact Hg|]. now apply disciplined_linked.
Qed.

(** Two calls that overlap, as a witness. *)
Lemma session_edges_linked_witness :
  exists r g,
    NetworkVisualizerSession.run NetworkVisualizerSession.begun
      [NetworkVisualizerSession.Called "Glucose" "GLK1";
       NetworkVisualizerSession.Called "Fructose" "PFK1";
       NetworkVisualizerSession.Resumed "Fructose";
       NetworkVisualizerSession.Resumed "Glucose"]
    = Some r
    /\ cy (NetworkVisualizerSession.visualizer r) = Some g /\ linked g.
Proof.
  destruct (NetworkVisualizerSession.run NetworkVisualizerSession.begun
              [NetworkVisualizerSession.Called "Glucose" "GLK1";
               NetworkVisualizerSession.Called "Fructose" "PFK1";
               NetworkVisualizerSession.Resumed "Fructose";
               NetworkVisualizerSession.Resumed "Glucose"])
    as [r|] eqn:Hrun; [|vm_compute in Hrun; discriminate].
  pose proof (fun H => session_edges_linked _ r H Hrun) as Hlinked.
  destruct Hlinked as (g & Hg & Hl).
  { intros H. repeat (apply elem_of_cons in H as [H|H]; [discriminate|]).
    now apply elem_of_nil in H. }
  exists r, g. split; [reflexivity|]. split; [exact Hg|exact Hl].
Defined.

(** [addMetaboliteToPathway] only adds: the elements of the graph stay, in
    their order, in front of what is added; what is added is among the
    elements the call offers, and afterwards the graph has an element for
    the id of every one of them. *)
Theorem addMetaboliteToPathway_appends (metaboliteName geneLocusId : string)
  (g : Graph) :
  exists added,
    addMetaboliteToPathway metaboliteName geneLocusId
      {| initialized := true; cy := Some g |}
    = {| initialized := true; cy := Some (g ++ added) |}
    /\ (forall e, e ∈ added -> e ∈ offered metaboliteName geneLocusId)
    /\ (forall e, e ∈ offered metaboliteName geneLocusId ->
                  has_id (g ++ added) (element_id e) = true).
Proof.
  rewrite addMetaboliteToPathway_all.
  destruct (cy_add_all_grows g (offered metaboliteName geneLocusId))
    as (added & Hg & Hadded).
  exists added. rewrite Hg. split; [reflexivity|]. split; [exact Hadded|].
  intros e He. rewrite <- Hg. apply has_id_cy_add_all. right.
  now apply list_elem_of_fmap_2.
Qed.

(** ** The request queue: idle states, draining, throughput *)

Section QueueProgress.

Import PubChemIntegration.

Lemma run_app (q : Queue) (es1 es2 : list event) :
  run q (es1 ++ es2)
  = match run q es1 with
    | Some q1 => run q1 es2
    | None => None
    end.
Proof.
  revert q. induction es1 as [|e es1 IH]; intros q; [reflexivity|].
  simpl. destruct (step q e); [apply IH|reflexivity].
Qed.

Lemma reachable_invariant (events : list event) (q : Queue) :
  run empty_queue events = Some q -> queue_invariant q.
Proof. apply run_invariant, empty_queue_invariant. Qed.

(** From a state that waits for its delay, the loop can run to its end. *)
Lemma drain_from_delay (n : nat) :
  forall q deadline,
    length (requestQueue q) = n ->
    queue_invariant q ->
    suspended q = AwaitDelay deadline ->
    exists events q',
      run q events = Some q'
      /\ suspended q' = NotRunning
      /\ pushed q' = pushed q.
Proof.
  induction n as [|n IH]; intros q deadline Hlen Hinv Hsus.
  - exists [Elapse (deadline - clock q); TimerFired]. simpl. rewrite Hsus.
    simpl. rewrite (proj2 (Nat.leb_le _ _)) by lia.
    unfold loop_head. simpl.
    destruct (requestQueue q); [|discriminate].
    eexists. split; [reflexivity|]. now split.
  - destruct (requestQueue q) as [|r rest] eqn:Hq; [discriminate|].
    set (q1 := {| requestQueue := rest;
                  isProcessingQueue := isProcessingQueue q;
                  suspended := AwaitDelay
                                 (clock q + (deadline - clock q) + requestDelay);
                  clock := clock q + (deadline - clock q);
                  pushed := pushed q;
                  dispatched := dispatched q
                                ++ [(clock q + (deadline - clock q), r)];
                  settled := S (settled q) |}).
    assert (Hrun : run q [Elapse (deadline - clock q); TimerFired; FetchSettled]
                   = Some q1).
    { simpl. rewrite Hsus. simpl.
      rewrite (proj2 (Nat.leb_le _ _)) by lia.
      unfold loop_head. simpl. rewrite Hq. reflexivity. }
    assert (Hinv1 : queue_invariant q1)
      by (eapply run_invariant; eassumption).
    destruct (IH q1 _ ltac:(simpl in *; lia) Hinv1 eq_refl)
      as (events & q' & Hrun' & Hidle & Hpushed).
    exists ([Elapse (deadline - clock q); TimerFired; FetchSettled] ++ events),
      q'.
    rewrite run_app, Hrun. now repeat split.
Qed.

Lemma drain (q : Queue) :
  queue_invariant q ->
  exists events q',
    run q events = Some q'
    /\ suspended q' = NotRunning
    /\ pushed q' = pushed q.
Proof.
  intros Hinv. destruct (suspended q) as [|r|deadline] eqn:Hsus.
  - exists [], q. now repeat split.
  - set (q1 := {| requestQueue := requestQueue q;
                  isProcessingQueue := isProcessingQueue q;
                  suspended := AwaitDelay (clock q + requestDelay);
                  clock := clock q; pushed := pushed q;
                  dispatched := dispatched q; settled := S (settled q) |}).
    assert (Hrun : run q [FetchSettled] = Some q1)
      by (simpl; now rewrite Hsus).
    assert (Hinv1 : queue_invariant q1)
      by (eapply run_invariant; eassumption).
    destruct (drain_from_delay _ q1 _ eq_refl Hinv1 eq_refl)
      as (events & q' & Hrun' & Hidle & Hpushed).
    exists ([FetchSettled] ++ events), q'.
    rewrite run_app, Hrun. now repeat split.
  - destruct (drain_from_delay _ q _ eq_refl Hinv Hsus)
      as (events & q' & Hrun' & Hidle & Hpushed).
    now exists events, q'.
Qed.

Lemma spaced_span (gap : nat) (t : nat) (ts : list nat) (t' : nat) :
  spaced gap (t :: ts) -> last (t :: ts) = Some t' ->
  t + gap * length ts <= t'.
Proof.
  revert t. induction ts as [|t2 ts IH]; intros t Hs Hlast.
  - simpl in Hlast. injection Hlast as <-. simpl. lia.
  - destruct Hs as [H12 Hs]. rewrite last_cons_cons in Hlast.
    specialize (IH t2 Hs Hlast). simpl. lia.
Qed.

End QueueProgress.

(** When the loop of the queue is not running, nothing is left behind: the
    flag is down, no request waits, none is in flight, and every request
    that was pushed has been dispatched, in order.  The flag is down in no
    other state. *)
Theorem processQueue_idle (events : list PubChemIntegration.event)
  (q : PubChemIntegration.Queue) :
  PubChemIntegration.run PubChemIntegration.empty_queue events = Some q ->
  (PubChemIntegration.isProcessingQueue q = false
   <-> PubChemIntegration.suspended q = PubChemIntegration.NotRunning)
  /\ (PubChemIntegration.suspended q = PubChemIntegration.NotRunning ->
      PubChemIntegration.requestQueue q = []
      /\ PubChemIntegration.in_flight q = 0
      /\ map snd (PubChemIntegration.dispatched q)
         = PubChemIntegration.pushed q).
Proof.
  intros Hrun. apply reachable_invariant in Hrun as (Hfifo & _ & Hsus).
  destruct (PubChemIntegration.suspended q) as [|r|deadline].
  - destruct Hsus as (Hflag & Hempty & Hsettled & _).
    split; [tauto|]. intros _. split; [exact Hempty|].
    unfold PubChemIntegration.in_flight. split; [lia|].
    now rewrite Hfifo, Hempty, app_nil_r.
  - destruct Hsus as (Hflag & _). split; [|discriminate].
    rewrite Hflag. split; discriminate.
  - destruct Hsus as (Hflag & _). split; [|discriminate].
    rewrite Hflag. split; discriminate.
Qed.

(** Two requests, the loop run to its end, as a witness. *)
Lemma processQueue_idle_witness :
  exists q,
    PubChemIntegration.run PubChemIntegration.empty_queue
      [PubChemIntegration.Enqueue (PubChemIntegration.SearchByName "Glucose");
       PubChemIntegration.Enqueue (PubChemIntegration.SearchByName "Citrate");
       PubChemIntegration.FetchSettled; PubChemIntegration.Elapse 300;
       PubChemIntegration.TimerFired; PubChemIntegration.FetchSettled;
       PubChemIntegration.Elapse 300; PubChemIntegration.TimerFired]
    = Some q
    /\ PubChemIntegration.requestQueue q = []
    /\ PubChemIntegration.in_flight q = 0
    /\ map snd (PubChemIntegration.dispatched q)
       = PubChemIntegration.pushed q.
Proof.
  pose proof (processQueue_idle
    [PubChemIntegration.Enqueue (PubChemIntegration.SearchByName "Glucose");
     PubChemIntegration.Enqueue (PubChemIntegration.SearchByName "Citrate");
     PubChemIntegration.FetchSettled; PubChemIntegration.Elapse 300;
     PubChemIntegration.TimerFired; PubChemIntegration.FetchSettled;
     PubChemIntegration.Elapse 300; PubChemIntegration.TimerFired]) as H.
  destruct (PubChemIntegration.run PubChemIntegration.empty_queue _)
    as [q|] eqn:Hrun; [|vm_compute in Hrun; discriminate].
  exists q. split; [reflexivity|].
  destruct (H q eq_refl) as [_ Hidle]. apply Hidle.
  vm_compute in Hrun. injection Hrun as <-. reflexivity.
Defined.

(** The queue never gets stuck: from every state it reaches, the fetches
    can settle and the timers fire until the loop ends, and then every
    request that was pushed has been dispatched, in the order of pushing. *)
Theorem processQueue_drains (events : list PubChemIntegration.event)
  (q : PubChemIntegration.Queue) :
  PubChemIntegration.run PubChemIntegration.empty_queue events = Some q ->
  exists more q',
    PubChemIntegration.run q more = Some q'
    /\ PubChemIntegration.suspended q' = PubChemIntegration.NotRunning
    /\ PubChemIntegration.requestQueue q' = []
    /\ map snd (PubChemIntegration.dispatched q')
       = PubChemIntegration.pushed q.
Proof.
  intros Hrun. pose proof (reachable_invariant _ _ Hrun) as Hinv.
  destruct (drain q Hinv) as (more & q' & Hmore & Hidle & Hpushed).
  exists more, q'. split; [exact Hmore|]. split; [exact Hidle|].
  pose proof (run_invariant _ _ _ Hinv Hmore) as (Hfifo & _ & Hsus).
  rewrite Hidle in Hsus. destruct Hsus as (_ & Hempty & _).
  split; [exact Hempty|].
  now rewrite <- Hpushed, Hfifo, Hempty, app_nil_r.
Qed.

(** Three requests pushed at once and none settled yet, as a witness. *)
Lemma processQueue_drains_witness :
  exists q more q',
    PubChemIntegration.run PubChemIntegration.empty_queue
      [PubChemIntegration.Enqueue (PubChemIntegration.SearchByName "Glucose");
       PubChemIntegration.Enqueue (PubChemIntegration.SearchByName "Citrate");
       PubChemIntegration.Enqueue (PubChemIntegration.SearchByName "Malate")]
    = Some q
    /\ PubChemIntegration.run q more = Some q'
    /\ PubChemIntegration.suspended q' = PubChemIntegration.NotRunning
    /\ PubChemIntegration.requestQueue q' = []
    /\ map snd (PubChemIntegration.dispatched q')
       = PubChemIntegration.pushed q.
Proof.
  pose proof (processQueue_drains
    [PubChemIntegration.Enqueue (PubChemIntegration.SearchByName "Glucose");
     PubChemIntegration.Enqueue (PubChemIntegration.SearchByName "Citrate");
     PubChemIntegration.Enqueue (PubChemIntegration.SearchByName "Malate")])
    as H.
  destruct (PubChemIntegration.run PubChemIntegration.empty_queue _)
    as [q|] eqn:Hrun; [|vm_compute in Hrun; discriminate].
  destruct (H q eq_refl) as (more & q' & Hq').
  exists q, more, q'. split; [reflexivity|exact Hq'].
Defined.

(** Requests leave no faster than one in 300 ms: between the first and the
    last of [k + 1] dispatches at least [300 * k] ms go by. *)
Theorem processQueue_throughput (events : list PubChemIntegration.event)
  (q : PubChemIntegration.Queue) (first last_time : nat)
  (between : list nat) :
  PubChemIntegration.run PubChemIntegration.empty_queue events = Some q ->
  map fst (PubChemIntegration.dispatched q) = first :: between ->
  last (first :: between) = Some last_time ->
  first + 300 * length between <= last_time.
Proof.
  intros Hrun Htimes Hlast.
  apply reachable_invariant in Hrun as (_ & Hspaced & _).
  rewrite Htimes in Hspaced. now apply (spaced_span 300 first between).
Qed.

(** Three requests pushed at once and dispatched in turn, as a witness. *)
Lemma processQueue_throughput_witness : 0 + 300 * 2 <= 675.
Proof.
  apply (processQueue_throughput
    [PubChemIntegration.Enqueue (PubChemIntegration.SearchByName "Glucose");
     PubChemIntegration.Enqueue (PubChemIntegration.SearchByName "Citrate");
     PubChemIntegration.Enqueue (PubChemIntegration.SearchByName "Malate");
     PubChemIntegration.Elapse 40; PubChemIntegration.FetchSettled;
     PubChemIntegration.Elapse 300; PubChemIntegration.TimerFired;
     PubChemIntegration.Elapse 25; PubChemIntegration.FetchSettled;
     PubChemIntegration.Elapse 310; PubChemIntegration.TimerFired]
    {| PubChemIntegration.requestQueue := [];
       PubChemIntegration.isProcessingQueue := true;
       PubChemIntegration.suspended :=
         PubChemIntegration.AwaitFetch (PubChemIntegration.SearchByName "Malate");
       PubChemIntegration.clock := 675;
       PubChemIntegration.pushed :=
         [PubChemIntegration.SearchByName "Glucose";
          PubChemIntegration.SearchByName "Citrate";
          PubChemIntegration.SearchByName "Malate"];
       PubChemIntegration.dispatched :=
         [(0, PubChemIntegration.SearchByName "Glucose");
          (340, PubChemIntegration.SearchByName "Citrate");
          (675, PubChemIntegration.SearchByName "Malate")];
       PubChemIntegration.settled := 2 |}
    0 675 [340; 675]); vm_compute; reflexivity.
Defined.

(** ** The compound cache: what is cached, and that it stays *)

Section CacheObjects.

Lemma cache_sound_grow (st : PubChemIntegration.State) (k : string)
  (o : CompoundInfo) (more : list CompoundInfo)
  (c : gmap string nat) :
  cache_sound st ->
  (forall k' a, c !! k' = Some a ->
                k' = k /\ a = length (heap st) \/ cache st !! k' = Some a) ->
  result_for k o ->
  forall k' a, c !! k' = Some a ->
    exists o', (heap st ++ o :: more) !! a = Some o' /\ result_for k' o'.
Proof.
  intros Hsound Hc Ho k' a Hk'. destruct (Hc k' a Hk') as [[-> ->]|Hold].
  - exists o. split; [apply list_lookup_middle; reflexivity|exact Ho].
  - destruct (Hsound k' a Hold) as (o' & Ho' & Hres).
    exists o'. split; [now apply lookup_app_l_Some|exact Hres].
Qed.

Lemma lookup_insert_cases (c : gmap string nat) (k k' : string) (a a' : nat) :
  <[k := a]> c !! k' = Some a' -> k' = k /\ a' = a \/ c !! k' = Some a'.
Proof.
  destruct (decide (k = k')) as [->|Hne].
  - rewrite lookup_insert_eq. intros [= <-]. now left.
  - rewrite lookup_insert_ne by exact Hne. now right.
Qed.

Lemma cache_sound_perform (st : PubChemIntegration.State) (act : action) :
  cache_sound st -> cache_sound (PubChemIntegration.perform st act).
Proof.
  intros Hsound.
  destruct act as [m|call response|task props structure|]; simpl.
  - unfold fetchCompoundInfo_enter.
    destruct (cache st !! m); [exact Hsound|exact Hsound].
  - unfold fetchCompoundInfo_resume.
    destruct (searching st !! call) as [m|]; [|exact Hsound].
    destruct (searchCompound response) as [[cid|]|e]; simpl.
    + intros k' a' Hk'. cbn [cache heap] in *.
      eapply (cache_sound_grow st m _ []); [exact Hsound| | |exact Hk'].
      * intros k0 a0. apply lookup_insert_cases.
      * split; [reflexivity|]. split; [reflexivity|]. now right.
    + intros k' a' Hk'. cbn [cache heap] in *.
      eapply (cache_sound_grow st m _ []); [exact Hsound| | |exact Hk'].
      * intros k0 a0. apply lookup_insert_cases.
      * split; [reflexivity|]. split; [reflexivity|]. now left.
    + intros k a Hk. destruct (Hsound k a Hk) as (o & Ho & Hres).
      exists o. split; [now apply lookup_app_l_Some|exact Hres].
  - unfold fetchAdditionalData.
    destruct (background st !! task) as [[cid m]|]; [|exact Hsound].
    destruct (cache st !! m) as [a|] eqn:Hm; simpl; [|exact Hsound].
    destruct (Hsound m a Hm) as (o & Ho & Hres). rewrite Ho.
    intros k' a' Hk'. cbn [cache heap] in *.
    eapply (cache_sound_grow st m _ []); [exact Hsound| |exact Hres|exact Hk'].
    intros k0 a0. apply lookup_insert_cases.
  - intros k a. unfold PubChemIntegration.clearCache. simpl.
    now rewrite lookup_empty.
Qed.

Lemma cache_sound_after (history : list action)
  (st : PubChemIntegration.State) :
  cache_sound st -> cache_sound (after history st).
Proof.
  revert st. induction history as [|act history IH]; intros st Hinv;
    [exact Hinv|].
  simpl. apply IH. now apply cache_sound_perform.
Qed.

Lemma cache_sound_initial : cache_sound initial.
Proof. intros k a. simpl. now rewrite lookup_empty. Qed.

Lemma held_perform (k : string) (o : CompoundInfo)
  (st : PubChemIntegration.State) (act : action) :
  act <> ClearCache -> held k o st ->
  held k o (PubChemIntegration.perform st act).
Proof.
  intros Hact (Hs & a & o' & Hc & Ho' & Hsame). unfold held.
  destruct act as [m|call response|task props structure|];
    [| | |congruence]; simpl.
  - unfold fetchCompoundInfo_enter.
    destruct (cache st !! m) eqn:Hm; [split; [exact Hs|now exists a, o']|].
    simpl. assert (Hne : m <> k) by congruence. split.
    + rewrite elem_of_app, list_elem_of_singleton. intros [?|?]; congruence.
    + now exists a, o'.
  - unfold fetchCompoundInfo_resume.
    destruct (searching st !! call) as [m|] eqn:Hcall;
      [|split; [exact Hs|now exists a, o']].
    assert (Hne : m <> k).
    { intros ->. apply Hs. eapply list_elem_of_lookup_2, Hcall. }
    pose proof (not_removed _ _ _ _ Hcall Hs) as Hrest.
    destruct (searchCompound response) as [[cid|]|e]; simpl;
      (split; [exact Hrest|]); exists a, o';
      rewrite ?lookup_insert_ne by exact Hne;
      (split; [exact Hc|]); (split; [now apply lookup_app_l_Some|exact Hsame]).
  - unfold fetchAdditionalData.
    destruct (background st !! task) as [[cid m]|];
      [|split; [exact Hs|now exists a, o']].
    destruct (decide (m = k)) as [->|Hne].
    + rewrite Hc. simpl. rewrite Ho'. simpl. split; [exact Hs|].
      eexists _, _. rewrite lookup_insert_eq.
      split; [reflexivity|]. split; [apply list_lookup_middle; reflexivity|].
      exact Hsame.
    + destruct (cache st !! m ≫= _); simpl; (split; [exact Hs|]);
        exists a, o'; rewrite ?lookup_insert_ne by exact Hne;
        (split; [exact Hc|]); (split; [|exact Hsame]);
        [now apply lookup_app_l_Some|exact Ho'].
Qed.

Lemma held_after (k : string) (o : CompoundInfo) (history : list action)
  (st : PubChemIntegration.State) :
  ClearCache ∉ history -> held k o st -> held k o (after history st).
Proof.
  revert st. induction history as [|act history IH]; intros st Hclear Hinv;
    [exact Hinv|].
  apply not_elem_of_cons in Hclear as [Hact Hclear].
  simpl. apply IH; [exact Hclear|]. apply held_perform; congruence.
Qed.

End CacheObjects.

(** However the calls overlap and whenever the cache is cleared, every
    cached name has an object that carries that name and no error, and that
    has either the id "Not found" and no address or the address of the page
    of its id: an error result is never cached. *)
Theorem cache_holds_results (history : list action) (k : string) (a : nat) :
  cache (after history initial) !! k = Some a ->
  exists o,
    heap (after history initial) !! a = Some o
    /\ compound o = k
    /\ error_message o = None
    /\ (id o = "Not found" /\ url o = None
        \/ url o
           = Some ("https://pubchem.ncbi.nlm.nih.gov/compound/" +:+ id o)).
Proof.
  intros Hk.
  destruct (cache_sound_after history initial cache_sound_initial k a Hk)
    as (o & Ho & Hname & Herr & Hkind).
  now exists o.
Qed.

(** Two calls for one name that overlap, the second of them finding the
    compound, which is enriched later; as a witness. *)
Lemma cache_holds_results_witness :
  exists o,
    heap (after [Call "Glucose"; Call "Glucose";
                 SearchSettled 0 (StatusNotOk 503);
                 SearchSettled 0 (Json (CIDs [5793%Z]));
                 Enrich 0 [("MolecularFormula", "C6H12O6")] None]
            initial) !! 2
    = Some o
    /\ compound o = "Glucose"
    /\ error_message o = None
    /\ (id o = "Not found" /\ url o = None
        \/ url o
           = Some ("https://pubchem.ncbi.nlm.nih.gov/compound/" +:+ id o)).
Proof.
  apply (cache_holds_results
           [Call "Glucose"; Call "Glucose";
            SearchSettled 0 (StatusNotOk 503);
            SearchSettled 0 (Json (CIDs [5793%Z]));
            Enrich 0 [("MolecularFormula", "C6H12O6")] None]
           "Glucose" 2).
  vm_compute. reflexivity.
Defined.

(** Once a name is cached and no call for it waits for its search, what
    identifies its compound stays as long as the cache is not cleared:
    after any further calls, settled searches and background updates the
    name is still cached, and its object has the same id, name and address,
    whatever properties were merged in. *)
Theorem cached_identity_stable (st : PubChemIntegration.State)
  (history : list action) (k : string) (a : nat) (o : CompoundInfo) :
  cache st !! k = Some a -> heap st !! a = Some o ->
  k ∉ searching st ->
  ClearCache ∉ history ->
  exists a' o',
    cache (after history st) !! k = Some a'
    /\ heap (after history st) !! a' = Some o'
    /\ same_compound o o'.
Proof.
  intros Hc Ho Hs Hclear.
  destruct (held_after k o history st Hclear) as (_ & a' & o' & H).
  - split; [exact Hs|]. exists a, o. now repeat split.
  - now exists a', o'.
Qed.

(** A found compound that is enriched later, with another lookup in
    between, as a witness. *)
Lemma cached_identity_stable_witness :
  exists a' o',
    cache (after [Call "Citrate"; Call "Glucose";
                  SearchSettled 0 (Json (CIDs [311%Z]));
                  Enrich 0 [("MolecularFormula", "C6H12O6")] None]
             (after [Call "Glucose"; SearchSettled 0 (Json (CIDs [5793%Z]))]
                initial))
      !! "Glucose" = Some a'
    /\ heap (after [Call "Citrate"; Call "Glucose";
                    SearchSettled 0 (Json (CIDs [311%Z]));
                    Enrich 0 [("MolecularFormula", "C6H12O6")] None]
               (after [Call "Glucose"; SearchSettled 0 (Json (CIDs [5793%Z]))]
                  initial))
         !! a' = Some o'
    /\ same_compound
         {| id := "5793"; compound := "Glucose";
            url := Some "https://pubchem.ncbi.nlm.nih.gov/compound/5793";
            error_message := None; properties := None; smiles := None |}
         o'.
Proof.
  apply (cached_identity_stable
           (after [Call "Glucose"; SearchSettled 0 (Json (CIDs [5793%Z]))]
              initial)
           [Call "Citrate"; Call "Glucose";
            SearchSettled 0 (Json (CIDs [311%Z]));
            Enrich 0 [("MolecularFormula", "C6H12O6")] None]
           "Glucose" 0).
  - vm_compute. reflexivity.
  - vm_compute. reflexivity.
  - cbn. intros Hin. now apply elem_of_nil in Hin.
  - intros Hin.
    repeat (apply elem_of_cons in Hin as [Hin|Hin]; [discriminate|]).
    now apply elem_of_nil in Hin.
Defined.
